(** * Plagiarism backend: the detection pipeline and the check route

    A shallow embedding of [src/utils/plagiarism.ts] (normalisation, k-grams,
    Winnowing, MinHash, LSH buckets, span building), of the
    [POST /api/checks] and [GET /api/checks/:id] handlers of
    [src/routes/checks.routes.ts] and of [normalizeTextBasic] of
    [src/utils/textExtract.ts], with the properties of the pipeline that the
    design document states and further properties read off the code.

    Conventions of the embedding.
    - A JavaScript string is a [string]: every [ascii] is one UTF-16 code
      unit in the range U+0000..U+00FF, so the texts covered are the Latin-1
      ones.  The Unicode tables ([\p{L}], [\p{N}], [\s], lower-casing) are
      written out for that range.
    - A [number] holding an integer and a [bigint] are both [Z].
    - A [number] holding a ratio ([same / n], [inter / union], the
      threshold) is an exact rational [Q].
    - [Set<string>] is a [gset string], [Map<string, number[]>] is a
      [gmap string (list Z)].
    - The database is a record of tables (lists of rows); the file system is
      a partial function from paths to contents. *)

From Stdlib Require Import ZArith QArith Qround Qminmax Lqa String Ascii List Lia Bool.
From Stdlib Require Import DecimalString DecimalZ Sorted Permutation.
From stdpp Require Import base gmap strings list.
Import ListNotations.

Local Open Scope string_scope.
Local Open Scope list_scope.
Local Open Scope Z_scope.

(** ** Bytes, UTF-8 and SHA-1 (Node's [crypto.createHash("sha1")]) *)

Module Sha1.

Definition w32 (x : Z) : Z := x mod 2 ^ 32.

Definition rotl (n x : Z) : Z :=
  w32 (Z.lor (Z.shiftl x n) (Z.shiftr x (32 - n))).

(** Big-endian encoding of [x] on [n] bytes. *)
Fixpoint be_bytes (n : nat) (x : Z) : list Z :=
  match n with
  | O => []
  | S n' => Z.land (Z.shiftr x (8 * Z.of_nat n')) 255 :: be_bytes n' x
  end.

Definition be_word (bs : list Z) : Z :=
  fold_left (fun x b => Z.lor (Z.shiftl x 8) b) bs 0.

(** Message padding: a 1 bit, zeros up to 56 mod 64, the bit length on 8 bytes. *)
Definition pad (msg : list Z) : list Z :=
  let len := Z.of_nat (length msg) in
  let zeros := Z.to_nat ((55 - len) mod 64) in
  msg ++ 128 :: repeat 0 zeros ++ be_bytes 8 (8 * len).

Fixpoint chunks (fuel : nat) (n : nat) (l : list Z) : list (list Z) :=
  match fuel with
  | O => []
  | S fuel' =>
      match l with
      | [] => []
      | _ => firstn n l :: chunks fuel' n (skipn n l)
      end
  end.

Definition words_of_block (blk : list Z) : list Z :=
  map be_word (chunks 16 4 blk).

(** The message schedule, most recent word first. *)
Fixpoint extend (n : nat) (rev_ws : list Z) : list Z :=
  match n with
  | O => rev_ws
  | S n' =>
      let x := Z.lxor (Z.lxor (nth 2 rev_ws 0) (nth 7 rev_ws 0))
                      (Z.lxor (nth 13 rev_ws 0) (nth 15 rev_ws 0)) in
      extend n' (rotl 1 x :: rev_ws)
  end.

Definition schedule (blk : list Z) : list Z :=
  rev (extend 64 (rev (words_of_block blk))).

Definition lnot32 (x : Z) : Z := Z.lxor x (2 ^ 32 - 1).

Definition f_k (t : nat) (b c d : Z) : Z * Z :=
  if (t <? 20)%nat then (Z.lor (Z.land b c) (Z.land (lnot32 b) d), 1518500249)
  else if (t <? 40)%nat then (Z.lxor (Z.lxor b c) d, 1859775393)
  else if (t <? 60)%nat then
    (Z.lor (Z.lor (Z.land b c) (Z.land b d)) (Z.land c d), 2400959708)
  else (Z.lxor (Z.lxor b c) d, 3395469782).

Record state := St { sa : Z; sb : Z; sc : Z; sd : Z; se : Z }.

Definition round (s : state) (tw : nat * Z) : state :=
  let (t, wt) := tw in
  let (f, kt) := f_k t (sb s) (sc s) (sd s) in
  St (w32 (rotl 5 (sa s) + f + se s + kt + wt)) (sa s) (rotl 30 (sb s)) (sc s) (sd s).

Definition compress (s : state) (blk : list Z) : state :=
  let ws := schedule blk in
  let r := fold_left round (combine (seq 0 80) ws) s in
  St (w32 (sa s + sa r)) (w32 (sb s + sb r)) (w32 (sc s + sc r))
     (w32 (sd s + sd r)) (w32 (se s + se r)).

Definition init : state :=
  St 1732584193 4023233417 2562383102 271733878 3285377520.

(** The 20-byte digest of a byte sequence. *)
Definition digest (msg : list Z) : list Z :=
  let p := pad msg in
  let s := fold_left compress (chunks (length p) 64 p) init in
  flat_map (be_bytes 4) [sa s; sb s; sc s; sd s; se s].

End Sha1.

Definition code (c : ascii) : Z := Z.of_N (N_of_ascii c).

Definition chr (z : Z) : ascii := ascii_of_N (Z.to_N z).

Definition chars (s : string) : list ascii := list_ascii_of_string s.

(** UTF-8 bytes of a string of code units below U+0100. *)
Definition utf8 (s : string) : list Z :=
  flat_map (fun c =>
    let n := code c in
    if n <? 128 then [n]
    else [Z.lor 192 (Z.shiftr n 6); Z.lor 128 (Z.land n 63)]) (chars s).

Definition hex_digit (n : Z) : ascii :=
  if n <? 10 then chr (48 + n) else chr (87 + n).

(** [digest("hex")]: two lower-case hexadecimal digits per byte. *)
Definition hex (bs : list Z) : string :=
  string_of_list_ascii
    (flat_map (fun b => [hex_digit (Z.shiftr b 4); hex_digit (Z.land b 15)]) bs).

(** [x.toString()] of an integer, and [BigInt(s)] of a decimal string. *)
Definition toString (z : Z) : string := NilZero.string_of_int (Z.to_int z).

Definition BigInt (s : string) : Z :=
  match NilZero.int_of_string s with
  | Some d => Z.of_int d
  | None => 0
  end.

(** ** Text normalisation ([normalize]) *)

Definition in_range (lo hi n : Z) : bool := (lo <=? n) && (n <=? hi).

(** [\p{L}] on U+0000..U+00FF. *)
Definition isLetter (c : ascii) : bool :=
  let n := code c in
  in_range 65 90 n || in_range 97 122 n || (n =? 170) || (n =? 181) || (n =? 186)
  || in_range 192 214 n || in_range 216 246 n || in_range 248 255 n.

(** [\p{N}] on U+0000..U+00FF. *)
Definition isNumber (c : ascii) : bool :=
  let n := code c in
  in_range 48 57 n || (n =? 178) || (n =? 179) || (n =? 185) || in_range 188 190 n.

(** [\s] (and the characters [trim] strips) on U+0000..U+00FF. *)
Definition isSpace (c : ascii) : bool :=
  let n := code c in
  in_range 9 13 n || (n =? 32) || (n =? 160).

Definition lowerChar (c : ascii) : ascii :=
  let n := code c in
  if in_range 65 90 n || (in_range 192 222 n && negb (n =? 215)) then chr (n + 32)
  else c.

Fixpoint toLowerCase (s : string) : string :=
  match s with
  | EmptyString => EmptyString
  | String c s' => String (lowerChar c) (toLowerCase s')
  end.

Definition CR : ascii := chr 13.
Definition LF : ascii := chr 10.
Definition SP : ascii := chr 32.

(** [.replace(/\r\n/g, "\n")] *)
Fixpoint replaceCRLF (s : string) : string :=
  match s with
  | EmptyString => EmptyString
  | String c s' =>
      match s' with
      | String d s'' =>
          if Ascii.eqb c CR && Ascii.eqb d LF then String LF (replaceCRLF s'')
          else String c (replaceCRLF s')
      | EmptyString => String c EmptyString
      end
  end.

(** [.replace(/[cls]+/g, " ")]: every maximal run of characters of the class
    becomes one space; [inRun] tells that the previous character was in it. *)
Fixpoint replaceRuns (cls : ascii -> bool) (inRun : bool) (s : string) : string :=
  match s with
  | EmptyString => EmptyString
  | String c s' =>
      if cls c then
        if inRun then replaceRuns cls true s'
        else String SP (replaceRuns cls true s')
      else String c (replaceRuns cls false s')
  end.

Fixpoint trimStart (s : string) : string :=
  match s with
  | EmptyString => EmptyString
  | String c s' => if isSpace c then trimStart s' else s
  end.

Fixpoint trimEnd (s : string) : string :=
  match s with
  | EmptyString => EmptyString
  | String c s' =>
      match trimEnd s' with
      | EmptyString => if isSpace c then EmptyString else String c EmptyString
      | r => String c r
      end
  end.

Definition trim (s : string) : string := trimEnd (trimStart s).

Definition isPunct (c : ascii) : bool :=
  negb (isLetter c || isNumber c || isSpace c).

Definition normalize (text : string) : string :=
  trim
    (replaceRuns isSpace false
       (replaceRuns isPunct false
          (replaceCRLF (toLowerCase text)))).

(** ** Hashing and k-grams *)

(** The first 8 bytes of the SHA-1 digest, big-endian. *)
Definition hash64 (str : string) : Z :=
  fold_left (fun x b => Z.lor (Z.shiftl x 8) b) (firstn 8 (Sha1.digest (utf8 str))) 0.

Definition strlen (s : string) : Z := Z.of_nat (String.length s).

(** [s.slice(b, e)], negative indices counting from the end. *)
Definition slice (s : string) (b e : Z) : string :=
  let len := strlen s in
  let from := if b <? 0 then Z.max (len + b) 0 else Z.min b len in
  let to := if e <? 0 then Z.max (len + e) 0 else Z.min e len in
  substring (Z.to_nat from) (Z.to_nat (Z.max (to - from) 0)) s.

Record Kgram := { gram : string; gpos : Z }.

(** The indices [lo, lo+1, ..., hi] of a counting loop ([hi] included). *)
Definition upto (lo : nat) (hi : Z) : list nat :=
  seq lo (Z.to_nat (hi + 1 - Z.of_nat lo)).

Definition makeKgrams (text : string) (k : Z) : list Kgram :=
  let t := normalize text in
  if strlen t <? k then []
  else
    map (fun i => {| gram := slice t (Z.of_nat i) (Z.of_nat i + k); gpos := Z.of_nat i |})
        (upto 0 (strlen t - k)).

(** ** Winnowing *)

Record Fingerprint := { hash : Z; pos : Z }.

Record HashedGram := { h : Z; hpos : Z }.

Record WinnowState := {
  fps : list Fingerprint;
  lastPickedPos : Z;
  lastPickedHash : option Z
}.

(** [hashes[j]]; the loops of [winnow] only read inside the array. *)
Definition at_index (hashes : list HashedGram) (j : nat) : HashedGram :=
  nth j hashes {| h := 0; hpos := 0 |}.

(** One iteration of the inner loop. *)
Definition minStep (hashes : list HashedGram) (min : HashedGram) (j : nat) : HashedGram :=
  let cur := at_index hashes j in
  if h cur <? h min then cur else min.

(** The inner loop: the leftmost minimum of the window starting at [i]. *)
Definition windowMin (hashes : list HashedGram) (windowSize : Z) (i : nat) : HashedGram :=
  fold_left (minStep hashes)
    (upto i (Z.of_nat i + windowSize - 1))
    (at_index hashes i).

Definition winnowStep (hashes : list HashedGram) (windowSize : Z)
    (st : WinnowState) (i : nat) : WinnowState :=
  let min := windowMin hashes windowSize i in
  if negb (hpos min =? lastPickedPos st)
     || negb (bool_decide (Some (h min) = lastPickedHash st))
  then {| fps := fps st ++ [{| hash := h min; pos := hpos min |}];
          lastPickedPos := hpos min;
          lastPickedHash := Some (h min) |}
  else st.

Definition winnow (text : string) (k w : Z) : list Fingerprint :=
  let grams := makeKgrams text k in
  if (length grams =? 0)%nat then []
  else
    let hashes := map (fun g => {| h := hash64 (gram g); hpos := gpos g |}) grams in
    let windowSize := Z.max 1 w in
    fps (fold_left (winnowStep hashes windowSize)
           (upto 0 (Z.of_nat (length hashes) - windowSize))
           {| fps := []; lastPickedPos := -1; lastPickedHash := None |}).

(** ** Jaccard similarity of fingerprint hashes *)

Definition Qratio (a b : Z) : Q := (inject_Z a / inject_Z b)%Q.

Definition hashSet (a : list Fingerprint) : gset string :=
  list_to_set (map (fun x => toString (hash x)) a).

(** [inter] counts the elements of [setA] that [setB] has. *)
Definition fingerprintSimilarity (a b : list Fingerprint) : Q :=
  if (length a =? 0)%nat || (length b =? 0)%nat then 0%Q
  else
    let setA := hashSet a in
    let setB := hashSet b in
    let inter := Z.of_nat (length (filter (fun x => x ∈ setB) (elements setA))) in
    let union := Z.of_nat (size setA) + Z.of_nat (size setB) - inter in
    if union =? 0 then 0%Q else Qratio inter union.

(** ** MinHash and LSH *)

Definition modBig (x m : Z) : Z :=
  let r := Z.rem x m in
  if r >=? 0 then r else r + m.

Definition PRIME : Z := 2305843009213693951.

Definition hashToInt61 (x : Z) : Z := modBig x PRIME.

Definition permA (i : Z) : Z := 1 + Z.rem (i * 7919) 100000.
Definition permB (i : Z) : Z := 1 + Z.rem (i * 104729) 100000.

(** The inner loop of [minhashSignature] for permutation [i]. *)
Definition minOver (items : list Z) (i : Z) : Z :=
  fold_left
    (fun min x => let v := modBig (permA i * x + permB i) PRIME in
                  if v <? min then v else min)
    items PRIME.

(** The distinct values [hashToInt61(hash64(gram))], kept as decimal strings. *)
Definition gramHashSet (grams : list Kgram) : gset string :=
  list_to_set (map (fun g => toString (hashToInt61 (hash64 (gram g)))) grams).

(** [Array.from(set)] lists the set in insertion order, [elements] in an
    order of its own; the loop over the items only takes a minimum. *)
Definition minhashSignature (text : string) (k : Z) (numPerm : nat) : list Z :=
  let grams := makeKgrams text k in
  let items := map BigInt (elements (gramHashSet grams)) in
  if (length items =? 0)%nat then repeat PRIME numPerm
  else map (fun i => minOver items (Z.of_nat i)) (seq 0 numPerm).

(** [arr.slice(start, end)] for [0 <= start]. *)
Definition arraySlice {A} (l : list A) (start end_ : Z) : list A :=
  firstn (Z.to_nat (end_ - start)) (skipn (Z.to_nat start) l).

Definition join (sep : string) (l : list string) : string := String.concat sep l.

Definition sha1hex (s : string) : string := hex (Sha1.digest (utf8 s)).

Definition lshBuckets (sig : list Z) (bands : Z) : list string :=
  let r := Z.of_nat (length sig) / bands in
  if r <=? 0 then []
  else
    map (fun b =>
           let b := Z.of_nat b in
           let start := b * r in
           let end_ := start + r in
           let slice := join "-" (map toString (arraySlice sig start end_)) in
           let bandHash := sha1hex (toString b +:+ ":" +:+ slice) in
           toString b +:+ ":" +:+ bandHash)
        (upto 0 (bands - 1)).

Definition estimateMinhashSim (sigA sigB : list Z) : Q :=
  if (length sigA =? 0)%nat || (length sigB =? 0)%nat then 0%Q
  else
    let n := Z.of_nat (Nat.min (length sigA) (length sigB)) in
    let same := Z.of_nat (length (List.filter (fun p => fst p =? snd p) (combine sigA sigB))) in
    Qratio same n.

(** ** [Array.prototype.sort]

    The sort is stable; [after x y] is [cmp(x, y) > 0] for the comparator
    [cmp] of the call. *)

Fixpoint insertBy {A} (after : A -> A -> bool) (x : A) (l : list A) : list A :=
  match l with
  | [] => [x]
  | y :: l' => if after x y then y :: insertBy after x l' else x :: l
  end.

Definition sortBy {A} (after : A -> A -> bool) (l : list A) : list A :=
  fold_right (insertBy after) [] l.

(** ** Span building *)

Record Match := { m_hash : string; aPos : Z; bPos : Z }.

Record Span := {
  docStart : Z; docEnd : Z; srcStart : Z; srcEnd : Z; s_hash : string
}.

Record MatchSpan := {
  doc_span_start : Z;
  doc_span_end : Z;
  src_span_start : Z;
  src_span_end : Z;
  match_score : Q;
  snippet_hash : string
}.

(** The first loop: [mapB], hash -> positions. *)
Definition buildMapB (fpB : list Fingerprint) : gmap string (list Z) :=
  fold_left
    (fun (mapB : gmap string (list Z)) x =>
       let key := toString (hash x) in
       let arr := default [] (mapB !! key) in
       <[key := arr ++ [pos x]]> mapB)
    fpB ∅.

(** The second loop: one raw match per fingerprint of the document whose
    hash occurs in the source, at the first position recorded for it. *)
Definition rawMatches (mapB : gmap string (list Z)) (fpA : list Fingerprint) : list Match :=
  flat_map
    (fun a =>
       let key := toString (hash a) in
       match mapB !! key with
       | Some (b0 :: _) => [{| m_hash := key; aPos := pos a; bPos := b0 |}]
       | _ => []
       end)
    fpA.

Definition openSpan (k : Z) (m : Match) : Span :=
  {| docStart := aPos m; docEnd := aPos m + k;
     srcStart := bPos m; srcEnd := bPos m + k; s_hash := m_hash m |}.

(** One iteration of the grouping loop on the pair [(spans, cur)]. *)
Definition groupStep (k : Z) (st : list Span * Span) (m : Match) : list Span * Span :=
  let (spans, cur) := st in
  if aPos m <=? docEnd cur + k then
    (spans, {| docStart := docStart cur; docEnd := aPos m + k;
               srcStart := srcStart cur; srcEnd := bPos m + k; s_hash := s_hash cur |})
  else (spans ++ [cur], openSpan k m).

Definition groupSpans (k : Z) (sorted : list Match) : list Span :=
  match sorted with
  | [] => []
  | m0 :: rest =>
      let (spans, cur) := fold_left (groupStep k) rest ([], openSpan k m0) in
      spans ++ [cur]
  end.

(** [Math.min(1, (s.docEnd - s.docStart) / (docLen * k))], for [k <> 0]
    (the division by zero of JavaScript is not a rational). *)
Definition spanScore (docLen k : Z) (s : Span) : Q :=
  Qmin 1 (Qratio (docEnd s - docStart s) (docLen * k)).

Definition toMatchSpan (docLen k : Z) (s : Span) : MatchSpan :=
  {| doc_span_start := docStart s;
     doc_span_end := docEnd s;
     src_span_start := srcStart s;
     src_span_end := srcEnd s;
     match_score := spanScore docLen k s;
     snippet_hash := s_hash s |}.

(** [x.aPos - y.aPos > 0] *)
Definition aPosAfter (x y : Match) : bool := 0 <? aPos x - aPos y.

(** [matches.length === 0] returns before the sort; the sort keeps the
    length, so the test is made on the sorted array here. *)
Definition buildMatchSpans (fpA fpB : list Fingerprint) (k : Z) : list MatchSpan :=
  let mapB := buildMapB fpB in
  let matches := rawMatches mapB fpA in
  let sorted := sortBy aPosAfter matches in
  let spans := groupSpans k sorted in
  let docLen := if (length fpA =? 0)%nat then 1 else Z.of_nat (length fpA) in
  map (toMatchSpan docLen k) spans.

(** ** The database and the file system *)

Module AlgoritmaParams.
Record t := {
  id_params : Z; k : Z; w : Z; base : Z; threshold : Q;
  active_from : Z; active_to : option Z
}.
End AlgoritmaParams.

Module UserDocument.
Record t := { id_doc : Z; owner_user_id : Z; title : string; path_text : option string }.
End UserDocument.

Module CorpusDocument.
Record t := { id_corpus : Z; title : string; path_text : option string; is_active : Z }.
End CorpusDocument.

Inductive Status := queued | processing | done | failed.

Module CheckRequest.
Record t := {
  id_check : Z; requested_by : Z; doc_id : Z; params_id : Z; status : Status;
  queued_at : Z; started_at : option Z; finished_at : option Z
}.
End CheckRequest.

(** A JSON value; numbers are kept exact. *)
#[local] Unset Elimination Schemes.
Inductive json :=
| JNum (q : Q)
| JStr (s : string)
| JArr (l : list json)
| JObj (fields : list (string * json)).
#[local] Set Elimination Schemes.

Module CheckResult.
Record t := {
  id_result : Z; check_id : Z; similarity : Q; report_path : option string;
  summary_json : json; created_at : Z
}.
End CheckResult.

Module CheckMatch.
Record t := {
  id_match : Z; result_id : Z; source_type : string; source_id : Z;
  doc_span_start : Z; doc_span_end : Z; src_span_start : Z; src_span_end : Z;
  match_score : Q; snippet_hash : string
}.
End CheckMatch.

Module AuditLog.
Record t := {
  user_id : Z; action : string; entity : option string;
  entity_id : option Z; ip_addr : option string
}.
End AuditLog.

Record Database := {
  algoritma_params : list AlgoritmaParams.t;
  user_document : list UserDocument.t;
  corpus_document : list CorpusDocument.t;
  check_request : list CheckRequest.t;
  check_result : list CheckResult.t;
  check_match : list CheckMatch.t;
  audit_log : list AuditLog.t
}.

(** [path -> contents]; [None] when the file is missing or unreadable. *)
Definition FileSystem := string -> option string.

(** The [AUTO_INCREMENT] key of an insert. *)
Definition insertId (ids : list Z) : Z := 1 + fold_right Z.max 0 ids.

(** ** The check route *)

Definition audit (db : Database) (row : AuditLog.t) : Database :=
  {| algoritma_params := algoritma_params db;
     user_document := user_document db;
     corpus_document := corpus_document db;
     check_request := check_request db;
     check_result := check_result db;
     check_match := check_match db;
     audit_log := audit_log db ++ [row] |}.

(** [ORDER BY active_from DESC, id_params DESC]: [p] sorts after [q]. *)
Definition paramsAfter (p q : AlgoritmaParams.t) : bool :=
  (AlgoritmaParams.active_from p <? AlgoritmaParams.active_from q)
  || ((AlgoritmaParams.active_from p =? AlgoritmaParams.active_from q)
      && (AlgoritmaParams.id_params p <? AlgoritmaParams.id_params q)).

Definition getActiveParams (now : Z) (db : Database) : option AlgoritmaParams.t :=
  head
    (sortBy paramsAfter
       (List.filter
          (fun p =>
             match AlgoritmaParams.active_to p with
             | None => true
             | Some t => bool_decide (now < t)
             end && bool_decide (AlgoritmaParams.active_from p <= now))
          (algoritma_params db))).

Definition readTextSafe (fs : FileSystem) (p : option string) : string :=
  match p with
  | Some path => match fs path with Some text => text | None => "" end
  | None => ""
  end.

(** [!text || text.trim().length < k] *)
Definition tooShort (text : string) (k : Z) : bool :=
  bool_decide (text = "") || (strlen (trim text) <? k).

(** [ORDER BY id_corpus DESC]: [x] sorts after [y]. *)
Definition idAfter (x y : CorpusDocument.t) : bool :=
  CorpusDocument.id_corpus x <? CorpusDocument.id_corpus y.

(** The rows of [WHERE is_active = 1 AND path_text IS NOT NULL ORDER BY id_corpus DESC]. *)
Definition selectActiveCorpus (db : Database) : list CorpusDocument.t :=
  sortBy idAfter
    (List.filter
       (fun c => (CorpusDocument.is_active c =? 1)
                 && bool_decide (is_Some (CorpusDocument.path_text c)))
       (corpus_document db)).

Module Candidate.
Record t := { id_corpus : Z; title : string; approx : Q }.
End Candidate.

(** The candidate-selection loop over the corpus rows. *)
Definition scoreCandidates (fs : FileSystem) (k : Z) (sigDoc : list Z)
    (bucketsDoc : gset string) (corpusRows : list CorpusDocument.t) : list Candidate.t :=
  flat_map
    (fun c =>
       let cText := readTextSafe fs (CorpusDocument.path_text c) in
       if tooShort cText k then []
       else
         let sigC := minhashSignature cText k 100 in
         let bucketsC := lshBuckets sigC 20 in
         let share := existsb (fun b => bool_decide (b ∈ bucketsDoc)) bucketsC in
         if negb share then []
         else
           [{| Candidate.id_corpus := CorpusDocument.id_corpus c;
               Candidate.title := CorpusDocument.title c;
               Candidate.approx := estimateMinhashSim sigDoc sigC |}])
    corpusRows.

(** [b.approx - a.approx > 0] *)
Definition approxAfter (a b : Candidate.t) : bool :=
  if Qlt_le_dec 0 (Candidate.approx b - Candidate.approx a) then true else false.

(** [arr.slice(0, n)], a negative [n] counting from the end. *)
Definition slice0 {A} (l : list A) (n : Z) : list A :=
  if n <? 0 then firstn (Z.to_nat (Z.of_nat (length l) + n)) l
  else firstn (Z.to_nat n) l.

Module PendingMatch.
Record t := {
  source_type : string; source_id : Z;
  doc_span_start : Z; doc_span_end : Z; src_span_start : Z; src_span_end : Z;
  match_score : Q; snippet_hash : string
}.
End PendingMatch.

Definition pendingOf (cand : Candidate.t) (sim : Q) (s : MatchSpan) : PendingMatch.t :=
  {| PendingMatch.source_type := "corpus";
     PendingMatch.source_id := Candidate.id_corpus cand;
     PendingMatch.doc_span_start := doc_span_start s;
     PendingMatch.doc_span_end := doc_span_end s;
     PendingMatch.src_span_start := src_span_start s;
     PendingMatch.src_span_end := src_span_end s;
     PendingMatch.match_score := sim;
     PendingMatch.snippet_hash := snippet_hash s |}.

(** The rows one candidate adds to [matchesToInsert], and its similarity. *)
Definition candidateSim (fs : FileSystem) (k w : Z) (fpDoc : list Fingerprint)
    (c : CorpusDocument.t) : Q :=
  fingerprintSimilarity fpDoc (winnow (readTextSafe fs (CorpusDocument.path_text c)) k w).

Definition candidateMatches (fs : FileSystem) (k w : Z) (threshold : Q)
    (fpDoc : list Fingerprint) (cand : Candidate.t) (c : CorpusDocument.t)
    : list PendingMatch.t :=
  let cText := readTextSafe fs (CorpusDocument.path_text c) in
  let fpC := winnow cText k w in
  let sim := fingerprintSimilarity fpDoc fpC in
  if Qle_bool threshold sim then
    map (pendingOf cand sim) (slice0 (buildMatchSpans fpDoc fpC k) 50)
  else [].

Definition findCorpus (corpusRows : list CorpusDocument.t) (id : Z) : option CorpusDocument.t :=
  find (fun x => CorpusDocument.id_corpus x =? id) corpusRows.

(** One iteration of the verification loop on [(matchesToInsert, bestSim)]. *)
Definition verifyStep (fs : FileSystem) (k w : Z) (threshold : Q)
    (corpusRows : list CorpusDocument.t) (fpDoc : list Fingerprint)
    (st : list PendingMatch.t * Q) (cand : Candidate.t) : list PendingMatch.t * Q :=
  let (matchesToInsert, bestSim) := st in
  match findCorpus corpusRows (Candidate.id_corpus cand) with
  | None => st
  | Some c =>
      let sim := candidateSim fs k w fpDoc c in
      (matchesToInsert ++ candidateMatches fs k w threshold fpDoc cand c,
       if Qlt_le_dec bestSim sim then sim else bestSim)
  end.

Record Pipeline := {
  candidates : list Candidate.t;
  matchesToInsert : list PendingMatch.t;
  bestSim : Q
}.

(** Candidate selection and Winnowing verification, from the document text on. *)
Definition runPipeline (fs : FileSystem) (k w : Z) (threshold : Q) (docText : string)
    (corpusRows : list CorpusDocument.t) (maxCandidates : Z) : Pipeline :=
  let sigDoc := minhashSignature docText k 100 in
  let bucketsDoc : gset string := list_to_set (lshBuckets sigDoc 20) in
  let scoredCandidates := scoreCandidates fs k sigDoc bucketsDoc corpusRows in
  let candidates := slice0 (sortBy approxAfter scoredCandidates) maxCandidates in
  let fpDoc := winnow docText k w in
  let (matchesToInsert, bestSim) :=
    fold_left (verifyStep fs k w threshold corpusRows fpDoc) candidates ([], 0%Q) in
  {| candidates := candidates; matchesToInsert := matchesToInsert; bestSim := bestSim |}.

(** [Math.round(x)] on a rational. *)
Definition round (x : Q) : Z := Qfloor (x + (1 # 2))%Q.

Definition summaryOf (params : AlgoritmaParams.t) (p : Pipeline) : json :=
  JObj
    [("params",
      JObj [("id_params", JNum (inject_Z (AlgoritmaParams.id_params params)));
            ("k", JNum (inject_Z (AlgoritmaParams.k params)));
            ("w", JNum (inject_Z (AlgoritmaParams.w params)));
            ("threshold", JNum (AlgoritmaParams.threshold params))]);
     ("candidates",
      JArr (map (fun x => JObj [("id_corpus", JNum (inject_Z (Candidate.id_corpus x)));
                                ("title", JStr (Candidate.title x));
                                ("approx", JNum (Candidate.approx x))])
                (candidates p)));
     ("best_similarity", JNum (bestSim p))].

Record Body := { body_doc_id : option Z; body_max_candidates : option Z }.

Inductive Response :=
| Json400 (message : string)
| Json404 (message : string)
| Json201 (check_id result_id : Z) (similarity threshold : Q)
          (candidates_count matches_inserted : Z).

Definition insertCheckRequest (db : Database) (row : CheckRequest.t) : Database :=
  {| algoritma_params := algoritma_params db;
     user_document := user_document db;
     corpus_document := corpus_document db;
     check_request := check_request db ++ [row];
     check_result := check_result db;
     check_match := check_match db;
     audit_log := audit_log db |}.

(** [UPDATE check_request SET status=?, finished_at=NOW() WHERE id_check=?] *)
Definition finishCheckRequest (db : Database) (checkId : Z) (st : Status) (now : Z) : Database :=
  {| algoritma_params := algoritma_params db;
     user_document := user_document db;
     corpus_document := corpus_document db;
     check_request :=
       map (fun r =>
              if CheckRequest.id_check r =? checkId then
                {| CheckRequest.id_check := CheckRequest.id_check r;
                   CheckRequest.requested_by := CheckRequest.requested_by r;
                   CheckRequest.doc_id := CheckRequest.doc_id r;
                   CheckRequest.params_id := CheckRequest.params_id r;
                   CheckRequest.status := st;
                   CheckRequest.queued_at := CheckRequest.queued_at r;
                   CheckRequest.started_at := CheckRequest.started_at r;
                   CheckRequest.finished_at := Some now |}
              else r)
           (check_request db);
     check_result := check_result db;
     check_match := check_match db;
     audit_log := audit_log db |}.

Definition insertCheckResult (db : Database) (row : CheckResult.t) : Database :=
  {| algoritma_params := algoritma_params db;
     user_document := user_document db;
     corpus_document := corpus_document db;
     check_request := check_request db;
     check_result := check_result db ++ [row];
     check_match := check_match db;
     audit_log := audit_log db |}.

Definition insertCheckMatch (resultId : Z) (db : Database) (m : PendingMatch.t) : Database :=
  {| algoritma_params := algoritma_params db;
     user_document := user_document db;
     corpus_document := corpus_document db;
     check_request := check_request db;
     check_result := check_result db;
     check_match :=
       check_match db ++
       [{| CheckMatch.id_match := insertId (map CheckMatch.id_match (check_match db));
           CheckMatch.result_id := resultId;
           CheckMatch.source_type := PendingMatch.source_type m;
           CheckMatch.source_id := PendingMatch.source_id m;
           CheckMatch.doc_span_start := PendingMatch.doc_span_start m;
           CheckMatch.doc_span_end := PendingMatch.doc_span_end m;
           CheckMatch.src_span_start := PendingMatch.src_span_start m;
           CheckMatch.src_span_end := PendingMatch.src_span_end m;
           CheckMatch.match_score := PendingMatch.match_score m;
           CheckMatch.snippet_hash := PendingMatch.snippet_hash m |}];
     audit_log := audit_log db |}.

(** [POST /api/checks] for the authenticated user [user], at time [now]:
    the response and the database after the request. *)
Definition postChecks (now : Z) (fs : FileSystem) (db : Database)
    (user : Z) (ip : option string) (body : Body) : Response * Database :=
  let maxCandidates := Z.min (default 10 (body_max_candidates body)) 50 in
  match body_doc_id body with
  | None => (Json400 "doc_id is required", db)
  | Some docId =>
  if docId <=? 0 then (Json400 "doc_id is required", db) else
  match getActiveParams now db with
  | None => (Json400 "No active algoritma_params found", db)
  | Some params =>
  let k := AlgoritmaParams.k params in
  let w := AlgoritmaParams.w params in
  let threshold := AlgoritmaParams.threshold params in
  match find (fun d => (UserDocument.id_doc d =? docId)
                       && (UserDocument.owner_user_id d =? user))
             (user_document db) with
  | None => (Json404 "Document not found", db)
  | Some doc =>
  let checkId := insertId (map CheckRequest.id_check (check_request db)) in
  let db1 :=
    insertCheckRequest db
      {| CheckRequest.id_check := checkId;
         CheckRequest.requested_by := user;
         CheckRequest.doc_id := docId;
         CheckRequest.params_id := AlgoritmaParams.id_params params;
         CheckRequest.status := processing;
         CheckRequest.queued_at := now;
         CheckRequest.started_at := Some now;
         CheckRequest.finished_at := None |} in
  let db2 :=
    audit db1
      {| AuditLog.user_id := user; AuditLog.action := "CREATE_CHECK_REQUEST";
         AuditLog.entity := Some "check_request"; AuditLog.entity_id := Some checkId;
         AuditLog.ip_addr := ip |} in
  let docText := readTextSafe fs (UserDocument.path_text doc) in
  if tooShort docText k then
    (Json400 "Document text is empty or too short to check",
     finishCheckRequest db2 checkId failed now)
  else
  let corpusRows := selectActiveCorpus db2 in
  let p := runPipeline fs k w threshold docText corpusRows maxCandidates in
  let similarityPercent := (inject_Z (round (bestSim p * 10000)) / 100)%Q in
  let resultId := insertId (map CheckResult.id_result (check_result db2)) in
  let db3 :=
    insertCheckResult db2
      {| CheckResult.id_result := resultId;
         CheckResult.check_id := checkId;
         CheckResult.similarity := similarityPercent;
         CheckResult.report_path := None;
         CheckResult.summary_json := summaryOf params p;
         CheckResult.created_at := now |} in
  let db4 := fold_left (insertCheckMatch resultId) (matchesToInsert p) db3 in
  let db5 := finishCheckRequest db4 checkId done now in
  let db6 :=
    audit db5
      {| AuditLog.user_id := user; AuditLog.action := "CHECK_COMPLETED";
         AuditLog.entity := Some "check_result"; AuditLog.entity_id := Some resultId;
         AuditLog.ip_addr := ip |} in
  (Json201 checkId resultId similarityPercent threshold
     (Z.of_nat (length (candidates p))) (Z.of_nat (length (matchesToInsert p))),
   db6)
  end end end.

(** ** A sample database and file system

    One user document and two corpus documents with the same text, a
    third corpus document whose text file is missing, and a user document
    that is mostly punctuation. *)

Definition sampleText : string := "plagiarism check".

Definition sampleFs : FileSystem :=
  fun path =>
    if String.eqb path "doc1.txt" then Some sampleText
    else if String.eqb path "doc2.txt" then Some "a!!!"
    else if String.eqb path "corpus1.txt" then Some sampleText
    else if String.eqb path "corpus2.txt" then Some sampleText
    else None.

Definition sampleParams : AlgoritmaParams.t :=
  {| AlgoritmaParams.id_params := 1; AlgoritmaParams.k := 2; AlgoritmaParams.w := 6;
     AlgoritmaParams.base := 257; AlgoritmaParams.threshold := (8 # 10)%Q;
     AlgoritmaParams.active_from := 0; AlgoritmaParams.active_to := None |}.

Definition sampleDoc1 : UserDocument.t :=
  {| UserDocument.id_doc := 1; UserDocument.owner_user_id := 7;
     UserDocument.title := "essay"; UserDocument.path_text := Some "doc1.txt" |}.

Definition sampleDoc2 : UserDocument.t :=
  {| UserDocument.id_doc := 2; UserDocument.owner_user_id := 7;
     UserDocument.title := "notes"; UserDocument.path_text := Some "doc2.txt" |}.

Definition sampleCorpus (id : Z) (path : string) : CorpusDocument.t :=
  {| CorpusDocument.id_corpus := id; CorpusDocument.title := path;
     CorpusDocument.path_text := Some path; CorpusDocument.is_active := 1 |}.

Definition sampleDb : Database :=
  {| algoritma_params := [sampleParams];
     user_document := [sampleDoc1; sampleDoc2];
     corpus_document :=
       [sampleCorpus 1 "corpus1.txt"; sampleCorpus 2 "corpus2.txt";
        sampleCorpus 3 "corpus3.txt"];
     check_request := []; check_result := []; check_match := []; audit_log := [] |}.

(** The same database with an empty corpus. *)
Definition sampleDbNoCorpus : Database :=
  {| algoritma_params := [sampleParams];
     user_document := [sampleDoc1; sampleDoc2];
     corpus_document := [];
     check_request := []; check_result := []; check_match := []; audit_log := [] |}.

Definition sampleBody (docId : Z) : Body :=
  {| body_doc_id := Some docId; body_max_candidates := None |}.

(** The sample run: user 7 checks document 1 at time 100. *)
Definition sampleRun : Response * Database :=
  Eval vm_compute in postChecks 100 sampleFs sampleDb 7 None (sampleBody 1).

(** ** Predicates used in the statements *)

Definition tooShortMessage : string := "Document text is empty or too short to check".

(** The request passes the validation of [doc_id], finds the active
    parameters [params] and the caller's document [doc]. *)
Definition reachesTextLoad (now : Z) (db : Database) (user : Z) (body : Body)
    (params : AlgoritmaParams.t) (doc : UserDocument.t) : Prop :=
  exists docId,
    body_doc_id body = Some docId /\ 0 < docId
    /\ getActiveParams now db = Some params
    /\ find (fun d => (UserDocument.id_doc d =? docId)
                       && (UserDocument.owner_user_id d =? user))
             (user_document db) = Some doc.

(** ... and the document text is long enough for the pipeline to run. *)
Definition reachesPipeline (now : Z) (fs : FileSystem) (db : Database) (user : Z)
    (body : Body) (params : AlgoritmaParams.t) (doc : UserDocument.t) : Prop :=
  reachesTextLoad now db user body params doc
  /\ tooShort (readTextSafe fs (UserDocument.path_text doc)) (AlgoritmaParams.k params) = false.

(** The pipeline of the run that [reachesPipeline] describes. *)
Definition pipelineOf (fs : FileSystem) (db : Database) (body : Body)
    (params : AlgoritmaParams.t) (doc : UserDocument.t) : Pipeline :=
  runPipeline fs (AlgoritmaParams.k params) (AlgoritmaParams.w params)
    (AlgoritmaParams.threshold params)
    (readTextSafe fs (UserDocument.path_text doc))
    (selectActiveCorpus db)
    (Z.min (default 10 (body_max_candidates body)) 50).

(** The scored candidates of that run after the sort, before the cut. *)
Definition rankedCandidates (fs : FileSystem) (db : Database)
    (params : AlgoritmaParams.t) (doc : UserDocument.t) : list Candidate.t :=
  let docText := readTextSafe fs (UserDocument.path_text doc) in
  let sigDoc := minhashSignature docText (AlgoritmaParams.k params) 100 in
  sortBy approxAfter
    (scoreCandidates fs (AlgoritmaParams.k params) sigDoc
       (list_to_set (lshBuckets sigDoc 20)) (selectActiveCorpus db)).

(** The fingerprints of the checked document. *)
Definition fpDocOf (fs : FileSystem) (params : AlgoritmaParams.t) (doc : UserDocument.t)
    : list Fingerprint :=
  winnow (readTextSafe fs (UserDocument.path_text doc))
    (AlgoritmaParams.k params) (AlgoritmaParams.w params).

(** The [check_match] rows that a request added, in insertion order. *)
Definition insertedMatches (db db' : Database) : list CheckMatch.t :=
  skipn (length (check_match db)) (check_match db').

(** The [check_result] rows that a request added. *)
Definition insertedResults (db db' : Database) : list CheckResult.t :=
  skipn (length (check_result db)) (check_result db').

(** The [check_request] rows that a request added. *)
Definition insertedRequests (db db' : Database) : list CheckRequest.t :=
  skipn (length (check_request db)) (check_request db').

(** The columns of a [check_match] row that come from [matchesToInsert]. *)
Definition pendingOfRow (r : CheckMatch.t) : PendingMatch.t :=
  {| PendingMatch.source_type := CheckMatch.source_type r;
     PendingMatch.source_id := CheckMatch.source_id r;
     PendingMatch.doc_span_start := CheckMatch.doc_span_start r;
     PendingMatch.doc_span_end := CheckMatch.doc_span_end r;
     PendingMatch.src_span_start := CheckMatch.src_span_start r;
     PendingMatch.src_span_end := CheckMatch.src_span_end r;
     PendingMatch.match_score := CheckMatch.match_score r;
     PendingMatch.snippet_hash := CheckMatch.snippet_hash r |}.

(** The rows that the verification loop pushes for one candidate. *)
Definition candidateBlock (fs : FileSystem) (k w : Z) (threshold : Q)
    (corpusRows : list CorpusDocument.t) (fpDoc : list Fingerprint)
    (cand : Candidate.t) : list PendingMatch.t :=
  match findCorpus corpusRows (Candidate.id_corpus cand) with
  | None => []
  | Some c => candidateMatches fs k w threshold fpDoc cand c
  end.

(** Descending [approx], ties in descending [id_corpus]. *)
Definition candidateBefore (a b : Candidate.t) : Prop :=
  (Candidate.approx b < Candidate.approx a)%Q
  \/ ((Candidate.approx a == Candidate.approx b)%Q
      /\ Candidate.id_corpus b < Candidate.id_corpus a).

(** The keys of a JSON object. *)
Definition jsonKeys (j : json) : list string :=
  match j with
  | JObj fields => map fst fields
  | _ => []
  end.

(** The table [corpus_document] without the rows of key [id]. *)
Definition withoutCorpus (id : Z) (db : Database) : Database :=
  {| algoritma_params := algoritma_params db;
     user_document := user_document db;
     corpus_document :=
       List.filter (fun c => negb (CorpusDocument.id_corpus c =? id)) (corpus_document db);
     check_request := check_request db;
     check_result := check_result db;
     check_match := check_match db;
     audit_log := audit_log db |}.

(** [p] is the leftmost minimum of the hashes at the indices [lo, hi). *)
Definition leftmostMin (hashes : list HashedGram) (lo hi p : nat) : Prop :=
  (lo <= p < hi)%nat
  /\ (forall j, (lo <= j < hi)%nat -> h (at_index hashes p) <= h (at_index hashes j))
  /\ (forall j, (lo <= j < p)%nat -> h (at_index hashes p) < h (at_index hashes j)).

(** Every element of the array records its own index as its position. *)
Definition indexed (hashes : list HashedGram) : Prop :=
  forall j, (j < length hashes)%nat -> hpos (at_index hashes j) = Z.of_nat j.

(** The state of the outer loop of [winnow] after the windows [0 .. i-1]. *)
Definition winnowInv (hashes : list HashedGram) (W : Z) (i : nat) (st : WinnowState) : Prop :=
  StronglySorted (fun a b => pos a < pos b) (fps st)
  /\ Forall (fun f => pos f <= lastPickedPos st) (fps st)
  /\ match i with
     | O => lastPickedPos st = -1 /\ lastPickedHash st = None
     | S i' => exists p, leftmostMin hashes i' (i' + Z.to_nat W) p
                         /\ lastPickedPos st = Z.of_nat p
                         /\ lastPickedHash st = Some (h (at_index hashes p))
     end.

(** [x] is placed before [y] by the stable sort of an array that was in
    [tie] order: the comparator does not put [x] after [y], and it either
    puts [y] after [x] or leaves the two in their former order. *)
Definition sortedBefore {A} (after : A -> A -> bool) (tie : A -> A -> Prop) (x y : A) : Prop :=
  after x y = false /\ (after y x = true \/ tie x y).

(** No two neighbours of the sequence have the same [(hash, pos)]. *)
Definition adjacentDistinct (fp : list Fingerprint) : Prop :=
  forall i a b, nth_error fp i = Some a -> nth_error fp (S i) = Some b ->
                ~ (hash a = hash b /\ pos a = pos b).

(** The hashes [hashToInt61(hash64(gram))] of the k-grams of a text; as a
    set, the [S] of the MinHash signer. *)
Definition kgramHashes (text : string) (k : Z) : list Z :=
  map (fun g => hashToInt61 (hash64 (gram g))) (makeKgrams text k).

(** [(a_i * x + b_i) mod P] with [a_i = 1 + (i * 7919) mod 100000],
    [b_i = 1 + (i * 104729) mod 100000] and [P = 2^61 - 1]. *)
Definition permValue (i x : Z) : Z :=
  ((1 + (i * 7919) mod 100000) * x + (1 + (i * 104729) mod 100000)) mod (2 ^ 61 - 1).


Definition startsWithSpace (s : string) : bool :=
  match s with
  | EmptyString => false
  | String c _ => isSpace c
  end.





(** ** More predicates used in the statements *)

(** The fingerprint that a k-gram gives when it is picked. *)
Definition fingerprintOf (g : Kgram) : Fingerprint :=
  {| hash := hash64 (gram g); pos := gpos g |}.

(** What the outer loop of [winnow] has collected after the windows
    [0 .. i-1]: the pick of each of these windows, and nothing else. *)
Definition winnowCover (hashes : list HashedGram) (W : Z) (i : nat) (st : WinnowState) : Prop :=
  (forall j, (j < i)%nat ->
     exists p, leftmostMin hashes j (j + Z.to_nat W) p
               /\ In {| hash := h (at_index hashes p); pos := Z.of_nat p |} (fps st))
  /\ (forall f, In f (fps st) ->
        exists j p, (j < i)%nat /\ leftmostMin hashes j (j + Z.to_nat W) p
                    /\ f = {| hash := h (at_index hashes p); pos := Z.of_nat p |})
  /\ (length (fps st) <= i)%nat.

Definition sameCount (sigA sigB : list Z) : nat :=
  length (List.filter (fun p => fst p =? snd p) (combine sigA sigB)).

(** The first fingerprint of [fpB] with the hash [hsh]. *)
Definition firstWithHash (fpB : list Fingerprint) (hsh : Z) : option Fingerprint :=
  find (fun x => hash x =? hsh) fpB.

(** [m] pairs the fingerprint [a] of the document with the first
    fingerprint [b] of the source that has the same hash. *)
Definition matchOf (fpA fpB : list Fingerprint) (m : Match) : Prop :=
  exists a b, In a fpA /\ firstWithHash fpB (hash a) = Some b
              /\ m = {| m_hash := toString (hash a); aPos := pos a; bPos := pos b |}.

(** The span [s] runs from the match [m] to the match [m']. *)
Definition spanBetween (k : Z) (m m' : Match) (s : Span) : Prop :=
  docStart s = aPos m /\ srcStart s = bPos m /\ s_hash s = m_hash m
  /\ docEnd s = aPos m' + k /\ srcEnd s = bPos m' + k
  /\ aPos m <= aPos m'.

(** The [audit_log] rows that a request added. *)
Definition insertedAudit (db db' : Database) : list AuditLog.t :=
  skipn (length (audit_log db)) (audit_log db').

(** The [check_request] row of a request once it is finished. *)
Definition finishedRequest (checkId user docId paramsId : Z) (st : Status) (now : Z)
    : CheckRequest.t :=
  {| CheckRequest.id_check := checkId;
     CheckRequest.requested_by := user;
     CheckRequest.doc_id := docId;
     CheckRequest.params_id := paramsId;
     CheckRequest.status := st;
     CheckRequest.queued_at := now;
     CheckRequest.started_at := Some now;
     CheckRequest.finished_at := Some now |}.

Definition createdAudit (user checkId : Z) (ip : option string) : AuditLog.t :=
  {| AuditLog.user_id := user; AuditLog.action := "CREATE_CHECK_REQUEST";
     AuditLog.entity := Some "check_request"; AuditLog.entity_id := Some checkId;
     AuditLog.ip_addr := ip |}.

Definition completedAudit (user resultId : Z) (ip : option string) : AuditLog.t :=
  {| AuditLog.user_id := user; AuditLog.action := "CHECK_COMPLETED";
     AuditLog.entity := Some "check_result"; AuditLog.entity_id := Some resultId;
     AuditLog.ip_addr := ip |}.

(** [Math.round(bestSim * 10000) / 100] *)
Definition similarityPercent (bestSim : Q) : Q :=
  (inject_Z (round (bestSim * 10000)) / 100)%Q.

(** The request is turned away before anything is written. *)
Definition rejected (r : Response) : Prop :=
  r = Json400 "doc_id is required"
  \/ r = Json400 "No active algoritma_params found"
  \/ r = Json404 "Document not found".

(** Every key of [ids] is below [x]. *)
Definition freshKey (ids : list Z) (x : Z) : Prop := forall y, In y ids -> y < x.

(** The three outcomes of [POST /api/checks], with the tables after each. *)
Inductive Outcome (now : Z) (fs : FileSystem) (db : Database) (user : Z)
    (ip : option string) (body : Body) (r : Response) (db' : Database) : Prop :=
| Rejected :
    rejected r -> db' = db ->
    Outcome now fs db user ip body r db'
| Failed (params : AlgoritmaParams.t) (doc : UserDocument.t) (docId checkId : Z) :
    reachesTextLoad now db user body params doc ->
    body_doc_id body = Some docId ->
    tooShort (readTextSafe fs (UserDocument.path_text doc)) (AlgoritmaParams.k params) = true ->
    r = Json400 tooShortMessage ->
    checkId = insertId (map CheckRequest.id_check (check_request db)) ->
    algoritma_params db' = algoritma_params db ->
    user_document db' = user_document db ->
    corpus_document db' = corpus_document db ->
    check_request db'
    = check_request db
      ++ [finishedRequest checkId user docId (AlgoritmaParams.id_params params) failed now] ->
    check_result db' = check_result db ->
    check_match db' = check_match db ->
    audit_log db' = audit_log db ++ [createdAudit user checkId ip] ->
    Outcome now fs db user ip body r db'
| Completed (params : AlgoritmaParams.t) (doc : UserDocument.t) (docId checkId resultId : Z)
    (rows : list CheckMatch.t) :
    reachesPipeline now fs db user body params doc ->
    body_doc_id body = Some docId ->
    r = Json201 checkId resultId
          (similarityPercent (bestSim (pipelineOf fs db body params doc)))
          (AlgoritmaParams.threshold params)
          (Z.of_nat (length (candidates (pipelineOf fs db body params doc))))
          (Z.of_nat (length (matchesToInsert (pipelineOf fs db body params doc)))) ->
    checkId = insertId (map CheckRequest.id_check (check_request db)) ->
    resultId = insertId (map CheckResult.id_result (check_result db)) ->
    algoritma_params db' = algoritma_params db ->
    user_document db' = user_document db ->
    corpus_document db' = corpus_document db ->
    check_request db'
    = check_request db
      ++ [finishedRequest checkId user docId (AlgoritmaParams.id_params params) done now] ->
    check_result db'
    = check_result db
      ++ [{| CheckResult.id_result := resultId;
             CheckResult.check_id := checkId;
             CheckResult.similarity :=
               similarityPercent (bestSim (pipelineOf fs db body params doc));
             CheckResult.report_path := None;
             CheckResult.summary_json := summaryOf params (pipelineOf fs db body params doc);
             CheckResult.created_at := now |}] ->
    check_match db' = check_match db ++ rows ->
    map pendingOfRow rows = matchesToInsert (pipelineOf fs db body params doc) ->
    Forall (fun m => CheckMatch.result_id m = resultId) rows ->
    StronglySorted Z.lt (map CheckMatch.id_match rows) ->
    Forall (fun m => freshKey (map CheckMatch.id_match (check_match db)) (CheckMatch.id_match m))
           rows ->
    audit_log db'
    = audit_log db ++ [createdAudit user checkId ip; completedAudit user resultId ip] ->
    Outcome now fs db user ip body r db'.

(** [(active_to IS NULL OR active_to > NOW()) AND active_from <= NOW()] *)
Definition activeAt (now : Z) (p : AlgoritmaParams.t) : Prop :=
  AlgoritmaParams.active_from p <= now
  /\ forall t, AlgoritmaParams.active_to p = Some t -> now < t.

(** ** Text extraction: [normalizeTextBasic]

    The text that the upload routes store for a document. *)

(** [[ \t]] *)
Definition isBlank (c : ascii) : bool := (code c =? 32) || (code c =? 9).

(** [.replace(/\n{3,}/g, "\n\n")]: the first two line feeds of a run stay;
    [run] counts the line feeds of the current run. *)
Fixpoint squeezeLF (run : nat) (s : string) : string :=
  match s with
  | EmptyString => EmptyString
  | String c s' =>
      if Ascii.eqb c LF then
        if (run <? 2)%nat then String LF (squeezeLF (S run) s')
        else squeezeLF (S run) s'
      else String c (squeezeLF 0 s')
  end.

Definition normalizeTextBasic (text : string) : string :=
  trim (squeezeLF 0 (replaceRuns isBlank false (replaceCRLF text))).



(** ** The detail route [GET /api/checks/:id] *)

(** [SELECT cr.*, ud.title AS doc_title, ud.path_text] *)
Module CheckView.
Record t := { request : CheckRequest.t; doc_title : string; path_text : option string }.
End CheckView.

(** [SELECT id_result, similarity, report_path, summary_json, created_at] *)
Module ResultView.
Record t := {
  id_result : Z; similarity : Q; report_path : option string;
  summary_json : json; created_at : Z
}.
End ResultView.

(** [SELECT cm.*, cd.title AS corpus_title] *)
Module MatchView.
Record t := { row : CheckMatch.t; corpus_title : option string }.
End MatchView.

Inductive DetailResponse :=
| Detail400 (message : string)
| Detail404 (message : string)
| Detail200 (check : CheckView.t) (result : option ResultView.t)
            (matches : list MatchView.t) (doc_preview_text : option string).

(** [FROM check_request cr JOIN user_document ud ON ud.id_doc = cr.doc_id
    WHERE cr.id_check = ? AND cr.requested_by = ?], in table order. *)
Definition selectCheck (db : Database) (id user : Z) : list CheckView.t :=
  flat_map
    (fun cr =>
       map (fun ud => {| CheckView.request := cr;
                         CheckView.doc_title := UserDocument.title ud;
                         CheckView.path_text := UserDocument.path_text ud |})
           (List.filter (fun ud => UserDocument.id_doc ud =? CheckRequest.doc_id cr)
                        (user_document db)))
    (List.filter (fun cr => (CheckRequest.id_check cr =? id)
                            && (CheckRequest.requested_by cr =? user))
                 (check_request db)).

Definition resultView (r : CheckResult.t) : ResultView.t :=
  {| ResultView.id_result := CheckResult.id_result r;
     ResultView.similarity := CheckResult.similarity r;
     ResultView.report_path := CheckResult.report_path r;
     ResultView.summary_json := CheckResult.summary_json r;
     ResultView.created_at := CheckResult.created_at r |}.

(** [FROM check_result WHERE check_id = ?] *)
Definition selectResult (db : Database) (id : Z) : list ResultView.t :=
  map resultView (List.filter (fun r => CheckResult.check_id r =? id) (check_result db)).

(** [LEFT JOIN corpus_document cd ON cd.id_corpus = cm.source_id] for one row. *)
Definition joinCorpus (db : Database) (cm : CheckMatch.t) : list MatchView.t :=
  match List.filter (fun cd => CorpusDocument.id_corpus cd =? CheckMatch.source_id cm)
                    (corpus_document db) with
  | [] => [{| MatchView.row := cm; MatchView.corpus_title := None |}]
  | cds => map (fun cd => {| MatchView.row := cm;
                             MatchView.corpus_title := Some (CorpusDocument.title cd) |}) cds
  end.

(** [ORDER BY cm.match_score DESC, cm.id_match ASC]: [x] sorts after [y]. *)
Definition matchAfter (x y : MatchView.t) : bool :=
  if Qlt_le_dec (CheckMatch.match_score (MatchView.row x))
                (CheckMatch.match_score (MatchView.row y)) then true
  else Qeq_bool (CheckMatch.match_score (MatchView.row x))
                (CheckMatch.match_score (MatchView.row y))
       && (CheckMatch.id_match (MatchView.row y) <? CheckMatch.id_match (MatchView.row x)).

Definition selectMatches (db : Database) (resultId : Z) : list MatchView.t :=
  sortBy matchAfter
    (flat_map (joinCorpus db)
       (List.filter (fun cm => CheckMatch.result_id cm =? resultId) (check_match db))).

(** [GET /api/checks/:id] for the authenticated user [user]; [id] is
    [None] when the path parameter is not a finite number, and [preview] is
    the query parameter of that name.  The rows of a [LIMIT 1] query without
    [ORDER BY] are taken in table order. *)
Definition getCheck (fs : FileSystem) (db : Database) (user : Z) (id : option Z)
    (preview : option string) : DetailResponse :=
  match id with
  | None => Detail400 "Invalid check id"
  | Some id =>
  if id <=? 0 then Detail400 "Invalid check id" else
  match head (selectCheck db id user) with
  | None => Detail404 "Check not found"
  | Some check =>
  let result := head (selectResult db id) in
  let matches :=
    match result with
    | Some r => if ResultView.id_result r =? 0 then []
                else selectMatches db (ResultView.id_result r)
    | None => []
    end in
  let preview := negb (bool_decide (preview = Some "0")) in
  let doc_preview_text :=
    match CheckView.path_text check with
    | Some p =>
        if preview && negb (String.eqb p "")
        then Some (slice (readTextSafe fs (Some p)) 0 8000)
        else None
    | None => None
    end in
  Detail200 check result matches doc_preview_text
  end end.

(** The order of [ORDER BY match_score DESC, id_match ASC]. *)
Definition matchBefore (x y : MatchView.t) : Prop :=
  (CheckMatch.match_score (MatchView.row y) <= CheckMatch.match_score (MatchView.row x))%Q
  /\ ((CheckMatch.match_score (MatchView.row x) == CheckMatch.match_score (MatchView.row y))%Q ->
      CheckMatch.id_match (MatchView.row x) <= CheckMatch.id_match (MatchView.row y)).

(** * Properties *)

(** ** The functions on small inputs *)

Example sha1_abc : sha1hex "abc" = "a9993e364706816aba3e25717850c26c9cd0d89d".
Proof. vm_compute. reflexivity. Qed.

Example sha1_empty : sha1hex "" = "da39a3ee5e6b4b0d3255bfef95601890afd80709".
Proof. vm_compute. reflexivity. Qed.

Example sha1_two_blocks :
  sha1hex "abcdbcdecdefdefgefghfghighijhijkijkljklmklmnlmnomnopnopq"
  = "84983e441c3bd26ebaae4aa1f95129e5e54670f1".
Proof. vm_compute. reflexivity. Qed.

Example hash64_hello : hash64 "hello" = 12318688712325458082.
Proof. vm_compute. reflexivity. Qed.

Example normalize_sample :
  normalize (String (chr 32) "Hello,   World!!" +:+ String CR (String LF "Foo--bar "))
  = "hello world foo bar".
Proof. vm_compute. reflexivity. Qed.

Example makeKgrams_sample :
  makeKgrams "Hello, World" 9
  = [{| gram := "hello wor"; gpos := 0 |}; {| gram := "ello worl"; gpos := 1 |};
     {| gram := "llo world"; gpos := 2 |}].
Proof. vm_compute. reflexivity. Qed.

Example winnow_sample :
  map pos (winnow sampleText 2 6) = [5; 6; 12].
Proof. vm_compute. reflexivity. Qed.

Example buildMatchSpans_sample :
  map (fun s => (doc_span_start s, doc_span_end s))
    (buildMatchSpans (winnow sampleText 2 6) (winnow sampleText 2 6) 2)
  = [(5, 8); (12, 14)].
Proof. vm_compute. reflexivity. Qed.

(** ** Winnowing *)

Section Winnow.

Variable hashes : list HashedGram.
Variable W : Z.
Hypothesis W_pos : 1 <= W.

Lemma minStep_scan (n a lo p : nat) :
  leftmostMin hashes lo a p ->
  exists p', fold_left (minStep hashes) (seq a n) (at_index hashes p) = at_index hashes p'
             /\ leftmostMin hashes lo (a + n) p'.
Proof.
  revert a p. induction n as [|n IH]; intros a p Hp.
  - exists p. rewrite Nat.add_0_r. auto.
  - cbn [seq fold_left]. unfold minStep at 2. cbn zeta.
    destruct Hp as (Hr & Hle & Hlt).
    destruct (Z.ltb_spec (h (at_index hashes a)) (h (at_index hashes p))) as [Hlt'|Hge].
    + destruct (IH (S a) a) as (p' & E & H').
      { repeat split; [lia| lia | |].
        - intros j Hj. destruct (Nat.eq_dec j a) as [->|]; [lia|].
          specialize (Hle j ltac:(lia)). lia.
        - intros j Hj. specialize (Hle j ltac:(lia)). lia. }
      exists p'. split; [exact E|]. now replace (a + S n)%nat with (S a + n)%nat by lia.
    + destruct (IH (S a) p) as (p' & E & H').
      { repeat split; [lia| lia | |].
        - intros j Hj. destruct (Nat.eq_dec j a) as [->|]; [lia|].
          apply Hle. lia.
        - intros j Hj. apply Hlt. lia. }
      exists p'. split; [exact E|]. now replace (a + S n)%nat with (S a + n)%nat by lia.
Qed.

(** The inner loop returns the leftmost minimum of its window. *)
Lemma windowMin_leftmost (i : nat) :
  exists p, windowMin hashes W i = at_index hashes p
            /\ leftmostMin hashes i (i + Z.to_nat W) p.
Proof.
  unfold windowMin, upto.
  replace (Z.to_nat (Z.of_nat i + W - 1 + 1 - Z.of_nat i)) with (S (Z.to_nat W - 1)) by lia.
  cbn [seq fold_left]. unfold minStep at 2. cbn zeta.
  destruct (Z.ltb_spec (h (at_index hashes i)) (h (at_index hashes i))) as [?|_]; [lia|].
  destruct (minStep_scan (Z.to_nat W - 1) (S i) i i) as (p & E & Hp).
  { repeat split; try lia.
    intros j Hj. replace j with i by lia. lia. }
  exists p. split; [exact E|].
  now replace (i + Z.to_nat W)%nat with (S i + (Z.to_nat W - 1))%nat by lia.
Qed.

(** The minimum of the next window is not to the left of the current one. *)
Lemma leftmostMin_mono (i n p p' : nat) :
  leftmostMin hashes i (i + n) p ->
  leftmostMin hashes (S i) (S i + n) p' ->
  (p <= p')%nat.
Proof.
  intros (Hr & Hle & Hlt) (Hr' & Hle' & Hlt').
  destruct (Nat.le_gt_cases p p') as [|Hgt]; [assumption|exfalso].
  specialize (Hlt p' ltac:(lia)). specialize (Hle' p ltac:(lia)). lia.
Qed.

Lemma leftmostMin_unique (lo hi p p' : nat) :
  leftmostMin hashes lo hi p -> leftmostMin hashes lo hi p' -> p = p'.
Proof.
  intros (Hr & Hle & Hlt) (Hr' & Hle' & Hlt').
  destruct (Nat.lt_trichotomy p p') as [Hc|[Hc|Hc]]; [exfalso|assumption|exfalso].
  - specialize (Hlt' p ltac:(lia)). specialize (Hle p' ltac:(lia)). lia.
  - specialize (Hlt p' ltac:(lia)). specialize (Hle' p ltac:(lia)). lia.
Qed.

End Winnow.

Lemma StronglySorted_snoc {A} (R : A -> A -> Prop) (l : list A) (x : A) :
  StronglySorted R l -> Forall (fun y => R y x) l -> StronglySorted R (l ++ [x]).
Proof.
  induction 1 as [|y l Hs IH Hy]; intros Hx; cbn.
  - repeat constructor.
  - inversion Hx; subst. constructor; [auto|].
    apply Forall_app. split; [assumption|]. constructor; [assumption|constructor].
Qed.

Lemma StronglySorted_nth {A} (R : A -> A -> Prop) (l : list A) :
  StronglySorted R l ->
  forall i j a b, (i < j)%nat -> nth_error l i = Some a -> nth_error l j = Some b -> R a b.
Proof.
  induction 1 as [|y l Hs IH Hy]; intros i j a b Hij Ha Hb.
  - destruct i; discriminate.
  - destruct j as [|j]; [lia|]. cbn in Hb.
    destruct i as [|i]; cbn in Ha.
    + injection Ha as <-. rewrite List.Forall_forall in Hy. apply Hy.
      eapply nth_error_In; eassumption.
    + eapply IH; [|eassumption|eassumption]. lia.
Qed.

Lemma StronglySorted_weaken {A} (R R' : A -> A -> Prop) (l : list A) :
  (forall a b, R a b -> R' a b) -> StronglySorted R l -> StronglySorted R' l.
Proof.
  intros HR. induction 1 as [|y l Hs IH Hy]; constructor; [assumption|].
  eapply List.Forall_impl; [|eassumption]. auto.
Qed.

Section WinnowLoop.

Variable hashes : list HashedGram.
Variable W : Z.
Hypothesis W_pos : 1 <= W.
Hypothesis hashes_indexed : indexed hashes.

Lemma winnowStep_inv (i : nat) (st : WinnowState) :
  (Z.of_nat i + W <= Z.of_nat (length hashes)) ->
  winnowInv hashes W i st -> winnowInv hashes W (S i) (winnowStep hashes W st i).
Proof.
  intros Hi (Hs & Hf & Hl).
  destruct (windowMin_leftmost hashes W W_pos i) as (p & E & Hp).
  assert (Hpos : hpos (at_index hashes p) = Z.of_nat p).
  { apply hashes_indexed. destruct Hp as (? & _). lia. }
  unfold winnowStep. rewrite E, Hpos.
  assert (Hpush : winnowInv hashes W (S i)
            {| fps := fps st ++ [{| hash := h (at_index hashes p); pos := Z.of_nat p |}];
               lastPickedPos := Z.of_nat p;
               lastPickedHash := Some (h (at_index hashes p)) |}
            \/ (lastPickedPos st = Z.of_nat p
                /\ lastPickedHash st = Some (h (at_index hashes p)))).
  { destruct i as [|i'].
    - left. destruct Hl as (Hl1 & Hl2). repeat split; cbn.
      + apply StronglySorted_snoc; [assumption|].
        eapply List.Forall_impl; [|exact Hf]. cbn. intros f Hf'. lia.
      + apply Forall_app. split.
        * eapply List.Forall_impl; [|exact Hf]. cbn. intros f Hf'. lia.
        * repeat constructor. cbn. lia.
      + exists p. auto.
    - destruct Hl as (q & Hq & Hl1 & Hl2).
      pose proof (leftmostMin_mono hashes i' (Z.to_nat W) q p Hq Hp) as Hqp.
      destruct (Nat.eq_dec q p) as [->|Hne]; [right; auto|].
      left. repeat split; cbn.
      + apply StronglySorted_snoc; [assumption|].
        eapply List.Forall_impl; [|exact Hf]. cbn. intros f Hf'. lia.
      + apply Forall_app. split.
        * eapply List.Forall_impl; [|exact Hf]. cbn. intros f Hf'. lia.
        * repeat constructor. cbn. lia.
      + exists p. auto. }
  destruct (negb (Z.of_nat p =? lastPickedPos st)
            || negb (bool_decide (Some (h (at_index hashes p)) = lastPickedHash st))) eqn:Hc.
  - destruct Hpush as [Hpush|(E1 & E2)]; [exact Hpush|exfalso].
    rewrite E1, E2, Z.eqb_refl in Hc. rewrite bool_decide_eq_true_2 in Hc by reflexivity.
    discriminate.
  - apply orb_false_elim in Hc as (Hc1 & Hc2).
    apply negb_false_iff in Hc1, Hc2.
    apply Z.eqb_eq in Hc1. apply bool_decide_eq_true_1 in Hc2.
    repeat split; [assumption|assumption|].
    exists p. auto.
Qed.

Lemma winnowLoop_inv (n a : nat) (st : WinnowState) :
  ((0 < n)%nat -> Z.of_nat (a + n) + W <= Z.of_nat (length hashes) + 1) ->
  winnowInv hashes W a st ->
  winnowInv hashes W (a + n) (fold_left (winnowStep hashes W) (seq a n) st).
Proof.
  revert a st. induction n as [|n IH]; intros a st Hn Hinv.
  - now rewrite Nat.add_0_r.
  - cbn [seq fold_left]. replace (a + S n)%nat with (S a + n)%nat by lia.
    apply IH; [lia|]. apply winnowStep_inv; [lia|assumption].
Qed.

End WinnowLoop.

Lemma makeKgrams_shape (text : string) (k : Z) :
  exists n, makeKgrams text k =
            map (fun i => {| gram := slice (normalize text) (Z.of_nat i) (Z.of_nat i + k);
                             gpos := Z.of_nat i |}) (seq 0 n).
Proof.
  unfold makeKgrams. destruct (strlen (normalize text) <? k).
  - exists O. reflexivity.
  - eexists. reflexivity.
Qed.

Lemma hashed_kgrams_indexed (text : string) (k : Z) :
  indexed (map (fun g => {| h := hash64 (gram g); hpos := gpos g |}) (makeKgrams text k)).
Proof.
  destruct (makeKgrams_shape text k) as (n & ->).
  intros j Hj. rewrite !List.length_map, List.length_seq in Hj.
  unfold at_index. rewrite List.map_map.
  match goal with
  | |- context [nth j (map ?F _) _] => set (mk := F)
  end.
  rewrite (List.nth_indep _ _ (mk O)) by now rewrite List.length_map, List.length_seq.
  rewrite (List.map_nth mk). rewrite List.seq_nth by assumption. reflexivity.
Qed.

(** The fingerprints of [winnow] are in strictly increasing position order. *)
Lemma winnow_strictly_sorted (text : string) (k w : Z) :
  StronglySorted (fun a b => pos a < pos b) (winnow text k w).
Proof.
  unfold winnow. destruct (length (makeKgrams text k) =? 0)%nat; [constructor|].
  set (hashes := map _ (makeKgrams text k)).
  unfold upto.
  assert (HW : 1 <= Z.max 1 w) by lia.
  destruct (winnowLoop_inv hashes (Z.max 1 w) HW (hashed_kgrams_indexed text k)
              (Z.to_nat (Z.of_nat (length hashes) - Z.max 1 w + 1 - Z.of_nat 0)) 0
              {| fps := []; lastPickedPos := -1; lastPickedHash := None |})
    as (Hs & _); [lia| |exact Hs].
  repeat split; cbn; constructor.
Qed.

(** C8: for every text and all [k] and [w], the positions of [winnow]'s
    fingerprints are non-decreasing and no two adjacent fingerprints have the
    same [(hash, pos)] pair. *)
Theorem winnow_sorted_no_adjacent_duplicates (text : string) (k w : Z) :
  StronglySorted (fun a b => pos a <= pos b) (winnow text k w)
  /\ adjacentDistinct (winnow text k w).
Proof.
  pose proof (winnow_strictly_sorted text k w) as Hs. split.
  - eapply StronglySorted_weaken; [|exact Hs]. cbn. intros a b Hab. lia.
  - intros i a b Ha Hb (_ & Hpos).
    pose proof (StronglySorted_nth _ _ Hs i (S i) a b ltac:(lia) Ha Hb) as Hlt.
    cbn in Hlt. lia.
Qed.

(** ** Texts with fewer k-grams than the window *)

(** C10: when the text has at least one k-gram but fewer than [max(1, w)],
    [winnow] returns no fingerprint, and the similarity of the text with
    itself is 0, not 1. *)
Theorem winnow_fewer_kgrams_than_window (text : string) (k w : Z) :
  (0 < length (makeKgrams text k))%nat ->
  Z.of_nat (length (makeKgrams text k)) < Z.max 1 w ->
  winnow text k w = []
  /\ fingerprintSimilarity (winnow text k w) (winnow text k w) = 0%Q
  /\ ~ (fingerprintSimilarity (winnow text k w) (winnow text k w) == 1)%Q.
Proof.
  intros Hpos Hlt.
  assert (E : winnow text k w = []).
  { unfold winnow. destruct (Nat.eqb_spec (length (makeKgrams text k)) 0) as [|_]; [reflexivity|].
    unfold upto. rewrite List.length_map.
    replace (Z.to_nat _) with O by lia. reflexivity. }
  rewrite E. repeat split. intros H. discriminate H.
Qed.

Lemma winnow_fewer_kgrams_than_window_witness :
  (0 < length (makeKgrams "abcdef" 5))%nat
  /\ Z.of_nat (length (makeKgrams "abcdef" 5)) < Z.max 1 4
  /\ winnow "abcdef" 5 4 = []
  /\ fingerprintSimilarity (winnow "abcdef" 5 4) (winnow "abcdef" 5 4) = 0%Q
  /\ ~ (fingerprintSimilarity (winnow "abcdef" 5 4) (winnow "abcdef" 5 4) == 1)%Q.
Proof.
  assert (H1 : (0 < length (makeKgrams "abcdef" 5))%nat) by (vm_compute; lia).
  assert (H2 : Z.of_nat (length (makeKgrams "abcdef" 5)) < Z.max 1 4) by (vm_compute; reflexivity).
  split; [exact H1|]. split; [exact H2|].
  exact (winnow_fewer_kgrams_than_window "abcdef" 5 4 H1 H2).
Defined.

(** ** MinHash signatures *)

Lemma modBig_mod (x m : Z) : 0 < m -> modBig x m = x mod m.
Proof.
  intros Hm. unfold modBig.
  pose proof (Z.quot_rem' x m) as Hq.
  destruct (Z.geb_spec (Z.rem x m) 0) as [Hge|Hlt].
  - destruct (Z.le_gt_cases 0 x) as [Hx|Hx].
    + pose proof (Z.rem_bound_pos x m Hx Hm).
      apply (Z.mod_unique_pos x m (Z.quot x m)); lia.
    + pose proof (Z.rem_bound_pos_neg x m Hm ltac:(lia)).
      apply (Z.mod_unique_pos x m (Z.quot x m)); lia.
  - destruct (Z.le_gt_cases 0 x) as [Hx|Hx].
    + pose proof (Z.rem_bound_pos x m Hx Hm). lia.
    + pose proof (Z.rem_bound_pos_neg x m Hm ltac:(lia)).
      apply (Z.mod_unique_pos x m (Z.quot x m - 1)); lia.
Qed.

Lemma BigInt_toString (z : Z) : BigInt (toString z) = z.
Proof.
  unfold BigInt, toString. rewrite NilZero.isi.
  - apply DecimalZ.of_to.
  - destruct z; cbn; try discriminate.
    intros [= H]. now apply DecimalPos.Unsigned.to_uint_nonnil in H.
  - destruct z; cbn; try discriminate.
    intros [= H]. now apply DecimalPos.Unsigned.to_uint_nonnil in H.
Qed.

Lemma fold_min_spec (v : Z -> Z) (l : list Z) (m0 : Z) :
  let r := fold_left (fun min x => if v x <? min then v x else min) l m0 in
  r <= m0 /\ (forall x, In x l -> r <= v x) /\ (r = m0 \/ exists x, In x l /\ r = v x).
Proof.
  revert m0. induction l as [|y l IH]; intros m0; cbn.
  - repeat split; [lia|tauto|auto].
  - destruct (Z.ltb_spec (v y) m0) as [Hlt|Hge].
    + destruct (IH (v y)) as (H1 & H2 & H3). repeat split.
      * lia.
      * intros x [<-|Hx]; [exact H1|auto].
      * right. destruct H3 as [->|(x & Hx & ->)]; eauto.
    + destruct (IH m0) as (H1 & H2 & H3). repeat split.
      * lia.
      * intros x [<-|Hx]; [lia|auto].
      * destruct H3 as [->|(x & Hx & ->)]; eauto.
Qed.

Lemma minOver_permValue (i : nat) (x : Z) :
  modBig (permA (Z.of_nat i) * x + permB (Z.of_nat i)) PRIME = permValue (Z.of_nat i) x.
Proof.
  unfold permA, permB, permValue.
  rewrite !Z.rem_mod_nonneg by lia.
  rewrite modBig_mod by reflexivity. reflexivity.
Qed.

Lemma items_kgramHashes (text : string) (k : Z) (x : Z) :
  In x (map BigInt (elements (gramHashSet (makeKgrams text k)))) <-> In x (kgramHashes text k).
Proof.
  unfold kgramHashes, gramHashSet. rewrite !in_map_iff. split.
  - intros (s & <- & Hs).
    apply list_elem_of_In, elem_of_elements, elem_of_list_to_set, list_elem_of_In in Hs.
    apply in_map_iff in Hs as (g & <- & Hg).
    exists g. split; [|assumption]. now rewrite BigInt_toString.
  - intros (g & <- & Hg).
    exists (toString (hashToInt61 (hash64 (gram g)))). split; [apply BigInt_toString|].
    apply list_elem_of_In, elem_of_elements, elem_of_list_to_set, list_elem_of_In.
    apply in_map_iff. eauto.
Qed.

(** C7: [minhashSignature(T, k, numPerm)] has exactly [numPerm] entries; when
    the set [S] of k-gram hashes is empty every entry is [P = 2^61 - 1], and
    otherwise entry [i] is the minimum over [x] in [S] of
    [((1 + (i*7919 mod 100000)) * x + (1 + (i*104729 mod 100000))) mod P]. *)
Theorem minhashSignature_entries (text : string) (k : Z) (numPerm : nat) :
  let sig := minhashSignature text k numPerm in
  let S := kgramHashes text k in
  length sig = numPerm
  /\ (S = [] -> Forall (fun v => v = 2 ^ 61 - 1) sig)
  /\ (S <> [] ->
      forall i, (i < numPerm)%nat ->
        (exists x, In x S /\ nth i sig 0 = permValue (Z.of_nat i) x)
        /\ (forall x, In x S -> nth i sig 0 <= permValue (Z.of_nat i) x)).
Proof.
  cbn zeta. unfold minhashSignature.
  pose proof (items_kgramHashes text k) as Hmem.
  set (items := map BigInt (elements (gramHashSet (makeKgrams text k)))) in *.
  set (S := kgramHashes text k) in *.
  destruct (Nat.eqb_spec (length items) 0) as [He|Hne].
  - assert (Hi : items = []) by (destruct items; [reflexivity|discriminate]).
    split; [apply List.repeat_length|]. split.
    + intros _. apply List.Forall_forall. intros v Hv.
      apply List.repeat_spec in Hv. subst v. reflexivity.
    + intros HS. exfalso. destruct S as [|x S']; [congruence|].
      assert (Hx : In x items) by (apply Hmem; left; reflexivity).
      rewrite Hi in Hx. exact Hx.
  - split; [now rewrite List.length_map, List.length_seq|]. split.
    + intros HS. exfalso. destruct items as [|x items']; [now apply Hne|].
      assert (Hx : In x S) by (apply Hmem; left; reflexivity).
      rewrite HS in Hx. exact Hx.
    + intros _ i Hi.
      rewrite (List.nth_indep _ _ (minOver items (Z.of_nat O)))
        by now rewrite List.length_map, List.length_seq.
      rewrite (List.map_nth (fun i => minOver items (Z.of_nat i))).
      rewrite List.seq_nth by assumption. cbn [Nat.add].
      unfold minOver.
      destruct (fold_min_spec (fun x => modBig (permA (Z.of_nat i) * x + permB (Z.of_nat i)) PRIME)
                  items PRIME) as (H1 & H2 & H3).
      set (r := fold_left _ items PRIME) in *.
      assert (Hbound : forall x, permValue (Z.of_nat i) x < PRIME).
      { intros x. unfold permValue. apply Z.mod_pos_bound. reflexivity. }
      split.
      * destruct H3 as [Hr|(x & Hx & Hr)].
        -- exfalso. destruct items as [|x items']; [now apply Hne|].
           specialize (H2 x ltac:(left; reflexivity)).
           rewrite minOver_permValue in H2. specialize (Hbound x). lia.
        -- exists x. split; [now apply Hmem|]. now rewrite Hr, minOver_permValue.
      * intros x Hx. apply Hmem in Hx. specialize (H2 x Hx).
        now rewrite minOver_permValue in H2.
Qed.

(** ** Normalisation *)









Lemma trimStart_head (s : string) : startsWithSpace (trimStart s) = false.
Proof.
  induction s as [|c s IH]; cbn; [reflexivity|].
  destruct (isSpace c) eqn:E; [exact IH|exact E].
Qed.


Lemma trimEnd_head (s : string) :
  startsWithSpace s = false -> startsWithSpace (trimEnd s) = false.
Proof.
  destruct s as [|c s]; cbn; [auto|]. intros E.
  destruct (trimEnd s); [rewrite E|]; auto.
Qed.


Lemma trimEnd_idem (s : string) : trimEnd (trimEnd s) = trimEnd s.
Proof.
  induction s as [|c s IH]; cbn; [reflexivity|].
  destruct (trimEnd s) as [|d r] eqn:E.
  - destruct (isSpace c) eqn:Ec; cbn; [reflexivity|]. now rewrite Ec.
  - cbn [trimEnd] in *. fold trimEnd in *. rewrite IH. reflexivity.
Qed.





Lemma trimStart_fix (s : string) : startsWithSpace s = false -> trimStart s = s.
Proof. destruct s as [|c s]; cbn; [reflexivity|]. now intros ->. Qed.





(** ** The stable sort *)

Section Sort.

Context {A : Type}.
Variable after : A -> A -> bool.

Lemma insertBy_In (x y : A) (l : list A) :
  In y (insertBy after x l) <-> y = x \/ In y l.
Proof.
  induction l as [|z l IH]; cbn.
  - intuition.
  - destruct (after x z); cbn; rewrite ?IH; intuition.
Qed.

Lemma sortBy_In (y : A) (l : list A) : In y (sortBy after l) <-> In y l.
Proof.
  induction l as [|x l IH]; cbn; [tauto|].
  rewrite insertBy_In, IH. intuition.
Qed.

Lemma insertBy_Permutation (x : A) (l : list A) : Permutation (insertBy after x l) (x :: l).
Proof.
  induction l as [|z l IH]; cbn; [reflexivity|].
  destruct (after x z); [|reflexivity].
  rewrite IH. apply perm_swap.
Qed.

Lemma sortBy_Permutation (l : list A) : Permutation (sortBy after l) l.
Proof.
  induction l as [|x l IH]; cbn; [reflexivity|].
  rewrite insertBy_Permutation. now constructor.
Qed.

Lemma sortBy_length (l : list A) : length (sortBy after l) = length l.
Proof. apply Permutation_length, sortBy_Permutation. Qed.

(** [after] comes from a comparator on a total preorder. *)
Hypothesis after_asym : forall x y, after x y = true -> after y x = false.
Hypothesis after_negtrans :
  forall x y z, after x y = false -> after y z = false -> after x z = false.

(** [tie] is the order of the array before the sort. *)
Variable tie : A -> A -> Prop.

Lemma insertBy_sorted (x : A) (s : list A) :
  StronglySorted (sortedBefore after tie) s -> Forall (tie x) s ->
  StronglySorted (sortedBefore after tie) (insertBy after x s).
Proof.
  induction 1 as [|y s Hs IH Hy]; intros Hx; cbn.
  - repeat constructor.
  - inversion Hx as [|? ? Hxy Hxs]; subst.
    destruct (after x y) eqn:E.
    + constructor; [auto|].
      apply List.Forall_forall. intros z Hz. apply insertBy_In in Hz as [->|Hz].
      * split; auto.
      * rewrite List.Forall_forall in Hy. auto.
    + constructor; [constructor; assumption|].
      constructor; [split; auto|].
      rewrite List.Forall_forall in Hy, Hxs |- *. intros z Hz.
      destruct (Hy z Hz) as (Hyz & _). split; eauto.
Qed.

(** Stability: elements that the comparator does not separate keep the
    order they had. *)
Lemma sortBy_sorted (l : list A) :
  StronglySorted tie l -> StronglySorted (sortedBefore after tie) (sortBy after l).
Proof.
  induction 1 as [|x l Hs IH Hx]; cbn; [constructor|].
  apply insertBy_sorted; [assumption|].
  rewrite List.Forall_forall in Hx |- *. intros z Hz. apply Hx.
  exact (proj1 (sortBy_In z l) Hz).
Qed.

(** Sorting an array that is already in order changes nothing. *)
Lemma sortBy_already_sorted (l : list A) :
  StronglySorted (fun x y => after x y = false) l -> sortBy after l = l.
Proof.
  induction 1 as [|x l Hs IH Hx]; [reflexivity|].
  change (sortBy after (x :: l)) with (insertBy after x (sortBy after l)).
  rewrite IH. destruct l as [|y l']; [reflexivity|]. cbn.
  inversion Hx as [|? ? Hxy _]; subst. now rewrite Hxy.
Qed.

End Sort.

Lemma flat_map_sorted {A B} (R : A -> A -> Prop) (R' : B -> B -> Prop)
    (f : A -> list B) (l : list A) :
  (forall x, (length (f x) <= 1)%nat) ->
  (forall x y b c, R x y -> In b (f x) -> In c (f y) -> R' b c) ->
  StronglySorted R l -> StronglySorted R' (flat_map f l).
Proof.
  intros Hlen HR. induction 1 as [|x l Hs IH Hx]; cbn; [constructor|].
  specialize (Hlen x). destruct (f x) as [|b [|b' t]] eqn:E; cbn in *; [assumption| |lia].
  constructor; [assumption|].
  apply List.Forall_forall. intros c Hc. apply in_flat_map in Hc as (y & Hy & Hc).
  rewrite List.Forall_forall in Hx. eapply HR; [apply Hx, Hy| |exact Hc].
  rewrite E. now left.
Qed.

Lemma In_firstn_In {A} (n : nat) (l : list A) (y : A) : In y (firstn n l) -> In y l.
Proof.
  revert n. induction l as [|x l IH]; intros [|n]; cbn; try tauto.
  intros [->|Hy]; [now left|right; eauto].
Qed.

Lemma StronglySorted_firstn {A} (R : A -> A -> Prop) (n : nat) (l : list A) :
  StronglySorted R l -> StronglySorted R (firstn n l).
Proof.
  intros Hs. revert n. induction Hs as [|x l Hs IH Hx]; intros [|n]; cbn; try constructor.
  - apply IH.
  - rewrite List.Forall_forall in Hx |- *. intros y Hy. apply Hx.
    eapply In_firstn_In, Hy.
Qed.

(** ** Span building *)

Lemma StronglySorted_map {A B} (R : B -> B -> Prop) (f : A -> B) (l : list A) :
  StronglySorted (fun a b => R (f a) (f b)) l -> StronglySorted R (map f l).
Proof.
  induction 1 as [|x l Hs IH Hx]; cbn; constructor; [assumption|].
  apply List.Forall_map. exact Hx.
Qed.

Lemma StronglySorted_trivial {A} (l : list A) : StronglySorted (fun _ _ => True) l.
Proof.
  induction l as [|x l IH]; constructor; [assumption|].
  apply List.Forall_forall. auto.
Qed.

Lemma rawMatches_aPos (mapB : gmap string (list Z)) (fpA : list Fingerprint) (m : Match) :
  In m (rawMatches mapB fpA) -> exists a, In a fpA /\ aPos m = pos a.
Proof.
  unfold rawMatches. intros Hm. apply in_flat_map in Hm as (a & Ha & Hm).
  exists a. split; [assumption|].
  destruct (mapB !! toString (hash a)) as [[|b0 t]|]; cbn in Hm; try tauto.
  destruct Hm as [<-|[]]. reflexivity.
Qed.

Lemma rawMatches_sorted (mapB : gmap string (list Z)) (fpA : list Fingerprint) :
  StronglySorted (fun a b => pos a < pos b) fpA ->
  StronglySorted (fun x y => aPos x < aPos y) (rawMatches mapB fpA).
Proof.
  apply flat_map_sorted.
  - intros a. cbn beta zeta.
    destruct (mapB !! toString (hash a)) as [[|b0 t]|]; cbn; lia.
  - intros a a' x y Hlt Hx Hy. cbn beta zeta in Hx, Hy.
    destruct (mapB !! toString (hash a)) as [[|b0 t]|]; cbn in Hx; try tauto.
    destruct (mapB !! toString (hash a')) as [[|b0' t']|]; cbn in Hy; try tauto.
    destruct Hx as [<-|[]]. destruct Hy as [<-|[]]. exact Hlt.
Qed.

Lemma sorted_matches_ordered (l : list Match) :
  StronglySorted (fun x y => aPos x <= aPos y) (sortBy aPosAfter l).
Proof.
  eapply StronglySorted_weaken;
    [|apply (sortBy_sorted aPosAfter) with (tie := fun _ _ => True)].
  - intros x y (H & _). unfold aPosAfter in H. lia.
  - unfold aPosAfter. intros x y H. lia.
  - unfold aPosAfter. intros x y z H1 H2. lia.
  - apply StronglySorted_trivial.
Qed.

Lemma sorted_matches_unchanged (l : list Match) :
  StronglySorted (fun x y => aPos x < aPos y) l -> sortBy aPosAfter l = l.
Proof.
  intros Hs. apply sortBy_already_sorted.
  eapply StronglySorted_weaken; [|exact Hs].
  cbn. unfold aPosAfter. intros x y H. lia.
Qed.

(** The grouping loop keeps the spans in strictly increasing [docStart]
    order when the matches are. *)
Lemma groupLoop_sorted (k : Z) (rest : list Match) (spans : list Span) (cur : Span) :
  StronglySorted (fun s t => docStart s < docStart t) spans ->
  Forall (fun s => docStart s < docStart cur) spans ->
  Forall (fun m => docStart cur < aPos m) rest ->
  StronglySorted (fun x y => aPos x < aPos y) rest ->
  let (spans', cur') := fold_left (groupStep k) rest (spans, cur) in
  StronglySorted (fun s t => docStart s < docStart t) (spans' ++ [cur']).
Proof.
  revert spans cur. induction rest as [|m rest IH]; intros spans cur Hs Hf Hr Hm; cbn.
  - now apply StronglySorted_snoc.
  - inversion Hr as [|? ? Hcm Hr']; subst. inversion Hm as [|? ? Hm' Hmr]; subst.
    destruct (aPos m <=? docEnd cur + k).
    + apply IH; cbn; assumption.
    + apply IH; cbn.
      * now apply StronglySorted_snoc.
      * apply Forall_app. split.
        -- eapply List.Forall_impl; [|exact Hf]. cbn. intros s Hs'. lia.
        -- repeat constructor. exact Hcm.
      * exact Hmr.
      * exact Hm'.
Qed.

Lemma groupSpans_sorted (k : Z) (sorted : list Match) :
  StronglySorted (fun x y => aPos x < aPos y) sorted ->
  StronglySorted (fun s t => docStart s < docStart t) (groupSpans k sorted).
Proof.
  intros Hs. unfold groupSpans. destruct sorted as [|m0 rest]; [constructor|].
  inversion Hs as [|? ? Hs' Hm0]; subst.
  pose proof (groupLoop_sorted k rest [] (openSpan k m0)) as H.
  destruct (fold_left (groupStep k) rest ([], openSpan k m0)) as [spans cur].
  apply H; [constructor|constructor|exact Hm0|exact Hs'].
Qed.

(** The spans of a document whose fingerprints are in strictly increasing
    position order come out in strictly increasing [doc_span_start] order. *)
Lemma buildMatchSpans_sorted (fpA fpB : list Fingerprint) (k : Z) :
  StronglySorted (fun a b => pos a < pos b) fpA ->
  StronglySorted Z.lt (map doc_span_start (buildMatchSpans fpA fpB k)).
Proof.
  intros HA. unfold buildMatchSpans.
  rewrite sorted_matches_unchanged by now apply rawMatches_sorted.
  rewrite List.map_map. cbn [toMatchSpan doc_span_start].
  apply StronglySorted_map, groupSpans_sorted, rawMatches_sorted, HA.
Qed.

(** ** The check route *)

Lemma insertId_fresh (ids : list Z) (x : Z) : In x ids -> x < insertId ids.
Proof.
  unfold insertId. induction ids as [|y ids IH]; cbn; [tauto|].
  intros [->|Hx]; [lia|]. specialize (IH Hx). lia.
Qed.

(** The [UPDATE] of the request that was just inserted touches that row only. *)
Lemma finishCheckRequest_new (db0 : Database) (rows : list CheckRequest.t)
    (r : CheckRequest.t) (cid : Z) (st : Status) (now : Z) :
  check_request db0 = rows ++ [r] ->
  CheckRequest.id_check r = cid ->
  cid = insertId (map CheckRequest.id_check rows) ->
  check_request (finishCheckRequest db0 cid st now)
  = rows ++ [{| CheckRequest.id_check := CheckRequest.id_check r;
                CheckRequest.requested_by := CheckRequest.requested_by r;
                CheckRequest.doc_id := CheckRequest.doc_id r;
                CheckRequest.params_id := CheckRequest.params_id r;
                CheckRequest.status := st;
                CheckRequest.queued_at := CheckRequest.queued_at r;
                CheckRequest.started_at := CheckRequest.started_at r;
                CheckRequest.finished_at := Some now |}].
Proof.
  intros Hrows Hr Hid. cbn [finishCheckRequest check_request]. rewrite Hrows.
  rewrite List.map_app. cbn. rewrite Hr, Z.eqb_refl. f_equal.
  rewrite <- (List.map_id rows) at 2. apply List.map_ext_in.
  intros r' Hr'.
  assert (CheckRequest.id_check r' < cid).
  { rewrite Hid. apply insertId_fresh, in_map, Hr'. }
  destruct (Z.eqb_spec (CheckRequest.id_check r') cid); [lia|reflexivity].
Qed.

(** The inserts of [matchesToInsert] append one row per element, in order. *)
Lemma insertCheckMatch_all (resultId : Z) (ms : list PendingMatch.t) (db : Database) :
  let db' := fold_left (insertCheckMatch resultId) ms db in
  (exists rows, check_match db' = check_match db ++ rows
                /\ map pendingOfRow rows = ms
                /\ Forall (fun r => CheckMatch.result_id r = resultId) rows)
  /\ check_request db' = check_request db
  /\ check_result db' = check_result db
  /\ audit_log db' = audit_log db
  /\ corpus_document db' = corpus_document db.
Proof.
  revert db. induction ms as [|m ms IH]; intros db; cbn.
  - split; [|auto]. exists []. rewrite List.app_nil_r. auto.
  - destruct (IH (insertCheckMatch resultId db m)) as ((rows & E & Hm & Hr) & H1 & H2 & H3 & H4).
    split; [|auto].
    eexists (_ :: rows). cbn in E. rewrite <- List.app_assoc in E. cbn in E.
    split; [exact E|]. split.
    + cbn. rewrite Hm. destruct m; reflexivity.
    + constructor; [reflexivity|exact Hr].
Qed.

(** The verification loop appends the block of each candidate in turn. *)
Lemma verifyLoop_matches (fs : FileSystem) (k w : Z) (threshold : Q)
    (corpusRows : list CorpusDocument.t) (fpDoc : list Fingerprint)
    (cands : list Candidate.t) (acc : list PendingMatch.t) (best : Q) :
  fst (fold_left (verifyStep fs k w threshold corpusRows fpDoc) cands (acc, best))
  = acc ++ flat_map (candidateBlock fs k w threshold corpusRows fpDoc) cands.
Proof.
  revert acc best. induction cands as [|c cands IH]; intros acc best; cbn [fold_left flat_map].
  - cbn. now rewrite List.app_nil_r.
  - assert (Hstep : exists best',
              verifyStep fs k w threshold corpusRows fpDoc (acc, best) c
              = (acc ++ candidateBlock fs k w threshold corpusRows fpDoc c, best')).
    { unfold verifyStep, candidateBlock.
      destruct (findCorpus corpusRows (Candidate.id_corpus c)) as [row|].
      - eexists. reflexivity.
      - exists best. now rewrite List.app_nil_r. }
    destruct Hstep as (best' & ->). rewrite IH. now rewrite List.app_assoc.
Qed.

Lemma runPipeline_matches (fs : FileSystem) (k w : Z) (threshold : Q) (docText : string)
    (corpusRows : list CorpusDocument.t) (maxCandidates : Z) :
  let p := runPipeline fs k w threshold docText corpusRows maxCandidates in
  matchesToInsert p
  = flat_map (candidateBlock fs k w threshold corpusRows (winnow docText k w)) (candidates p).
Proof.
  cbn zeta. unfold runPipeline.
  set (cands := slice0 _ maxCandidates).
  pose proof (verifyLoop_matches fs k w threshold corpusRows (winnow docText k w) cands [] 0%Q) as H.
  destruct (fold_left _ cands ([], 0%Q)) as [ms best]. exact H.
Qed.

Lemma skipn_length_app {A} (l r : list A) : skipn (length l) (l ++ r) = r.
Proof. induction l as [|x l IH]; cbn; [reflexivity|exact IH]. Qed.

(** A request whose document is too short: the response and the tables. *)
Lemma postChecks_tooShort (now : Z) (fs : FileSystem) (db : Database) (user : Z)
    (ip : option string) (body : Body) (params : AlgoritmaParams.t) (doc : UserDocument.t) :
  reachesTextLoad now db user body params doc ->
  tooShort (readTextSafe fs (UserDocument.path_text doc)) (AlgoritmaParams.k params) = true ->
  let r := postChecks now fs db user ip body in
  fst r = Json400 tooShortMessage
  /\ (exists row, insertedRequests db (snd r) = [row] /\ CheckRequest.status row = failed)
  /\ check_result (snd r) = check_result db
  /\ check_match (snd r) = check_match db.
Proof.
  intros (docId & Hbody & Hpos & Hparams & Hdoc) Hshort. cbn zeta.
  unfold postChecks. rewrite Hbody.
  destruct (Z.leb_spec docId 0) as [?|_]; [lia|].
  rewrite Hparams, Hdoc. cbn zeta. rewrite Hshort.
  cbn [fst snd]. split; [reflexivity|]. split; [|split; reflexivity].
  unfold insertedRequests.
  erewrite (finishCheckRequest_new _ (check_request db)); [|reflexivity..].
  rewrite skipn_length_app. eexists. split; reflexivity.
Qed.

(** A request that reaches the pipeline: the response and the rows added. *)
Lemma postChecks_pipeline (now : Z) (fs : FileSystem) (db : Database) (user : Z)
    (ip : option string) (body : Body) (params : AlgoritmaParams.t) (doc : UserDocument.t) :
  reachesPipeline now fs db user body params doc ->
  let p := pipelineOf fs db body params doc in
  let r := postChecks now fs db user ip body in
  (exists checkId resultId similarity,
     fst r = Json201 checkId resultId similarity (AlgoritmaParams.threshold params)
               (Z.of_nat (length (candidates p))) (Z.of_nat (length (matchesToInsert p))))
  /\ map pendingOfRow (insertedMatches db (snd r)) = matchesToInsert p
  /\ (exists row, insertedResults db (snd r) = [row]
                  /\ CheckResult.summary_json row = summaryOf params p)
  /\ (exists row, insertedRequests db (snd r) = [row] /\ CheckRequest.status row = done).
Proof.
  intros ((docId & Hbody & Hpos & Hparams & Hdoc) & Hlong). cbn zeta.
  unfold postChecks. rewrite Hbody.
  destruct (Z.leb_spec docId 0) as [?|_]; [lia|].
  rewrite Hparams, Hdoc. cbn zeta. rewrite Hlong.
  cbn [fst snd].
  change (runPipeline fs _ _ _ _ (selectActiveCorpus _) _)
    with (pipelineOf fs db body params doc).
  set (p := pipelineOf fs db body params doc).
  split; [eauto|].
  match goal with
  | |- context [fold_left (insertCheckMatch ?rid) (matchesToInsert p) ?db3] =>
      destruct (insertCheckMatch_all rid (matchesToInsert p) db3)
        as ((rows & E & Hm & _) & Hreq & Hres & _ & _);
      set (db4 := fold_left (insertCheckMatch rid) (matchesToInsert p) db3) in *
  end.
  split; [|split].
  - unfold insertedMatches. cbn [audit finishCheckRequest check_match].
    rewrite E. cbn [insertCheckResult audit insertCheckRequest check_match].
    now rewrite skipn_length_app.
  - unfold insertedResults. cbn [audit finishCheckRequest check_result].
    rewrite Hres. cbn [insertCheckResult audit insertCheckRequest check_result].
    rewrite skipn_length_app. eexists. split; reflexivity.
  - unfold insertedRequests. cbn [audit check_request].
    erewrite (finishCheckRequest_new db4 (check_request db)); [|exact Hreq|reflexivity..].
    rewrite skipn_length_app. eexists. split; reflexivity.
Qed.

Lemma tooShort_spec (text : string) (k : Z) :
  tooShort text k = true <-> text = "" \/ strlen (trim text) < k.
Proof.
  unfold tooShort. rewrite orb_true_iff, bool_decide_eq_true, Z.ltb_lt. reflexivity.
Qed.

Lemma skipn_length_all {A} (l : list A) : skipn (length l) l = [].
Proof. induction l as [|x l IH]; cbn; [reflexivity|exact IH]. Qed.

(** On a text that [trim] leaves unchanged, and for [k >= 1], the guard is
    a test of the length of the text. *)
Lemma tooShort_trimmed (text : string) (k : Z) :
  trim text = text -> 1 <= k -> (tooShort text k = true <-> strlen text < k).
Proof.
  intros Htrim Hk. rewrite tooShort_spec, Htrim. split; [|auto].
  intros [->|H]; [unfold strlen; cbn; lia|exact H].
Qed.

(** The sample request for document [docId] reaches the pipeline. *)
Ltac sample_reaches docId :=
  split; [exists docId; repeat split; vm_compute; reflexivity|vm_compute; reflexivity].

(** C3 (as the code has it): a request that reaches the text load fails with
    the "empty or too short" error exactly when the text read from
    [path_text] is empty (or missing) or its trimmed length is smaller than
    [k]; the request row is then marked [failed] and no [check_result] row is
    written; otherwise one [check_result] row is written. *)
Theorem check_fails_iff_text_too_short (now : Z) (fs : FileSystem) (db : Database)
    (user : Z) (ip : option string) (body : Body)
    (params : AlgoritmaParams.t) (doc : UserDocument.t) :
  reachesTextLoad now db user body params doc ->
  let docText := readTextSafe fs (UserDocument.path_text doc) in
  let r := postChecks now fs db user ip body in
  (fst r = Json400 tooShortMessage
   <-> docText = "" \/ strlen (trim docText) < AlgoritmaParams.k params)
  /\ (fst r = Json400 tooShortMessage ->
      (exists row, insertedRequests db (snd r) = [row] /\ CheckRequest.status row = failed)
      /\ insertedResults db (snd r) = [])
  /\ (fst r <> Json400 tooShortMessage ->
      exists row, insertedResults db (snd r) = [row]).
Proof.
  intros Hreach. cbn zeta.
  destruct (tooShort (readTextSafe fs (UserDocument.path_text doc)) (AlgoritmaParams.k params))
    eqn:Hshort.
  - destruct (postChecks_tooShort now fs db user ip body params doc Hreach Hshort)
      as (Hresp & Hreq & Hres & _).
    split; [|split].
    + split; [intros _; now apply tooShort_spec|auto].
    + intros _. split; [exact Hreq|].
      unfold insertedResults. rewrite Hres. apply skipn_length_all.
    + intros Hne. now destruct Hne.
  - destruct (postChecks_pipeline now fs db user ip body params doc (conj Hreach Hshort))
      as ((cid & rid & sim & Hresp) & _ & (row & Hrow & _) & _).
    split; [|split].
    + split.
      * rewrite Hresp. discriminate.
      * intros H. apply tooShort_spec in H. congruence.
    + rewrite Hresp. discriminate.
    + intros _. eauto.
Qed.

Lemma check_fails_iff_text_too_short_witness :
  reachesTextLoad 100 sampleDbNoCorpus 7 (sampleBody 2) sampleParams sampleDoc2
  /\ let docText := readTextSafe sampleFs (UserDocument.path_text sampleDoc2) in
     let r := postChecks 100 sampleFs sampleDbNoCorpus 7 None (sampleBody 2) in
     (fst r = Json400 tooShortMessage
      <-> docText = "" \/ strlen (trim docText) < AlgoritmaParams.k sampleParams)
     /\ (fst r = Json400 tooShortMessage ->
         (exists row, insertedRequests sampleDbNoCorpus (snd r) = [row]
                      /\ CheckRequest.status row = failed)
         /\ insertedResults sampleDbNoCorpus (snd r) = [])
     /\ (fst r <> Json400 tooShortMessage ->
         exists row, insertedResults sampleDbNoCorpus (snd r) = [row]).
Proof.
  assert (H : reachesTextLoad 100 sampleDbNoCorpus 7 (sampleBody 2) sampleParams sampleDoc2).
  { exists 2. repeat split; vm_compute; reflexivity. }
  split; [exact H|].
  exact (check_fails_iff_text_too_short 100 sampleFs sampleDbNoCorpus 7 None (sampleBody 2)
           sampleParams sampleDoc2 H).
Defined.

(** C3 as stated fails: the normalised text of the document is shorter than
    [k], yet the check completes and a result row is written. *)
Lemma check_normalized_too_short_completes :
  getActiveParams 100 sampleDbNoCorpus = Some sampleParams
  /\ strlen (normalize (readTextSafe sampleFs (UserDocument.path_text sampleDoc2)))
     < AlgoritmaParams.k sampleParams
  /\ let r := postChecks 100 sampleFs sampleDbNoCorpus 7 None (sampleBody 2) in
     fst r = Json201 1 1 (0 # 100) (8 # 10) 0 0
     /\ map CheckRequest.status (check_request (snd r)) = [done]
     /\ map CheckResult.check_id (check_result (snd r)) = [1].
Proof. vm_compute. repeat split. Qed.

(** What the verification loop pushes for a candidate: rows of that
    candidate, all carrying its fingerprint similarity, one per span. *)
Lemma candidateBlock_rows (fs : FileSystem) (k w : Z) (threshold : Q)
    (corpusRows : list CorpusDocument.t) (fpDoc : list Fingerprint)
    (cand : Candidate.t) (m : PendingMatch.t) :
  In m (candidateBlock fs k w threshold corpusRows fpDoc cand) ->
  exists c, findCorpus corpusRows (Candidate.id_corpus cand) = Some c
            /\ PendingMatch.source_id m = Candidate.id_corpus cand
            /\ PendingMatch.match_score m = candidateSim fs k w fpDoc c.
Proof.
  unfold candidateBlock, candidateMatches, candidateSim.
  destruct (findCorpus corpusRows (Candidate.id_corpus cand)) as [c|]; [|intros []].
  destruct (Qle_bool threshold _); [|intros []].
  intros Hm. apply in_map_iff in Hm as (s & <- & _).
  exists c. repeat split.
Qed.

Lemma slice0_prefix {A} (l : list A) (n : Z) : exists m, slice0 l n = firstn m l.
Proof. unfold slice0. destruct (n <? 0); eexists; reflexivity. Qed.

(** The block of one candidate is in strictly increasing [doc_span_start]
    order when the fingerprints of the document are in position order. *)
Lemma candidateBlock_sorted (fs : FileSystem) (k w : Z) (threshold : Q)
    (corpusRows : list CorpusDocument.t) (fpDoc : list Fingerprint) (cand : Candidate.t) :
  StronglySorted (fun a b => pos a < pos b) fpDoc ->
  StronglySorted Z.lt
    (map PendingMatch.doc_span_start (candidateBlock fs k w threshold corpusRows fpDoc cand)).
Proof.
  intros Hs. unfold candidateBlock, candidateMatches.
  destruct (findCorpus corpusRows (Candidate.id_corpus cand)) as [c|]; [|constructor].
  destruct (Qle_bool threshold _); [|constructor].
  rewrite List.map_map. cbn [pendingOf PendingMatch.doc_span_start].
  destruct (slice0_prefix (buildMatchSpans fpDoc
              (winnow (readTextSafe fs (CorpusDocument.path_text c)) k w) k) 50) as (n & ->).
  rewrite <- List.firstn_map. apply StronglySorted_firstn.
  now apply buildMatchSpans_sorted.
Qed.

(** C1 (as the code has it): every [check_match] row that a check run
    persists carries, as [match_score], the fingerprint similarity
    [fingerprintSimilarity(fpDoc, fpC)] of its candidate [source_id], the
    same value for all the spans of that candidate. *)
Theorem persisted_match_score_is_candidate_similarity (now : Z) (fs : FileSystem)
    (db : Database) (user : Z) (ip : option string) (body : Body)
    (params : AlgoritmaParams.t) (doc : UserDocument.t) :
  reachesPipeline now fs db user body params doc ->
  Forall
    (fun row =>
       exists c,
         findCorpus (selectActiveCorpus db) (CheckMatch.source_id row) = Some c
         /\ CheckMatch.match_score row
            = fingerprintSimilarity (fpDocOf fs params doc)
                (winnow (readTextSafe fs (CorpusDocument.path_text c))
                   (AlgoritmaParams.k params) (AlgoritmaParams.w params)))
    (insertedMatches db (snd (postChecks now fs db user ip body))).
Proof.
  intros Hreach.
  destruct (postChecks_pipeline now fs db user ip body params doc Hreach) as (_ & Hm & _).
  apply List.Forall_forall. intros row Hrow.
  apply (in_map pendingOfRow) in Hrow. rewrite Hm in Hrow.
  unfold pipelineOf in Hrow. rewrite runPipeline_matches in Hrow.
  apply in_flat_map in Hrow as (cand & _ & Hrow).
  apply candidateBlock_rows in Hrow as (c & Hc & Hid & Hscore).
  cbn in Hid, Hscore. exists c. rewrite Hid. split; [exact Hc|exact Hscore].
Qed.

Lemma persisted_match_score_is_candidate_similarity_witness :
  reachesPipeline 100 sampleFs sampleDb 7 (sampleBody 1) sampleParams sampleDoc1
  /\ Forall
       (fun row =>
          exists c,
            findCorpus (selectActiveCorpus sampleDb) (CheckMatch.source_id row) = Some c
            /\ CheckMatch.match_score row
               = fingerprintSimilarity (fpDocOf sampleFs sampleParams sampleDoc1)
                   (winnow (readTextSafe sampleFs (CorpusDocument.path_text c))
                      (AlgoritmaParams.k sampleParams) (AlgoritmaParams.w sampleParams)))
       (insertedMatches sampleDb (snd (postChecks 100 sampleFs sampleDb 7 None (sampleBody 1)))).
Proof.
  assert (H : reachesPipeline 100 sampleFs sampleDb 7 (sampleBody 1) sampleParams sampleDoc1).
  { sample_reaches 1. }
  split; [exact H|].
  exact (persisted_match_score_is_candidate_similarity 100 sampleFs sampleDb 7 None
           (sampleBody 1) sampleParams sampleDoc1 H).
Defined.

Lemma sample_run_eq :
  postChecks 100 sampleFs sampleDb 7 None (sampleBody 1) = sampleRun.
Proof. vm_compute. reflexivity. Qed.

(** C1 as stated fails: the first row persisted by the sample run has
    [match_score] 1, the similarity of its candidate, while the span
    builder's value for that span is [(8 - 5) / (3 * 2)]. *)
Lemma persisted_match_score_differs_from_span_score :
  exists row,
    head (check_match (snd (postChecks 100 sampleFs sampleDb 7 None (sampleBody 1)))) = Some row
    /\ CheckMatch.doc_span_start row = 5 /\ CheckMatch.doc_span_end row = 8
    /\ Z.of_nat (length (fpDocOf sampleFs sampleParams sampleDoc1)) = 3
    /\ (CheckMatch.match_score row == 1)%Q
    /\ ~ (CheckMatch.match_score row
          == Qmin 1 (Qratio (CheckMatch.doc_span_end row - CheckMatch.doc_span_start row)
                       (Z.of_nat (length (fpDocOf sampleFs sampleParams sampleDoc1))
                        * AlgoritmaParams.k sampleParams)))%Q.
Proof.
  rewrite sample_run_eq.
  eexists. split; [vm_compute; reflexivity|].
  vm_compute. repeat split. discriminate.
Qed.

(** C5 (as the code has it): the rows persisted by a check run are the
    blocks of the candidates, one after the other in candidate order; the
    rows of one block all belong to that candidate and are in strictly
    ascending [doc_span_start] order. *)
Theorem inserted_matches_ascending_per_candidate (now : Z) (fs : FileSystem)
    (db : Database) (user : Z) (ip : option string) (body : Body)
    (params : AlgoritmaParams.t) (doc : UserDocument.t) :
  reachesPipeline now fs db user body params doc ->
  let block :=
    candidateBlock fs (AlgoritmaParams.k params) (AlgoritmaParams.w params)
      (AlgoritmaParams.threshold params) (selectActiveCorpus db) (fpDocOf fs params doc) in
  map pendingOfRow (insertedMatches db (snd (postChecks now fs db user ip body)))
  = flat_map block (candidates (pipelineOf fs db body params doc))
  /\ Forall
       (fun cand =>
          StronglySorted Z.lt (map PendingMatch.doc_span_start (block cand))
          /\ Forall (fun m => PendingMatch.source_id m = Candidate.id_corpus cand) (block cand))
       (candidates (pipelineOf fs db body params doc)).
Proof.
  intros Hreach. cbn zeta.
  destruct (postChecks_pipeline now fs db user ip body params doc Hreach) as (_ & Hm & _).
  split.
  - rewrite Hm. unfold pipelineOf. now rewrite runPipeline_matches.
  - apply List.Forall_forall. intros cand _. split.
    + apply candidateBlock_sorted, winnow_strictly_sorted.
    + apply List.Forall_forall. intros m Hin.
      apply candidateBlock_rows in Hin as (c & _ & Hid & _). exact Hid.
Qed.

Lemma inserted_matches_ascending_per_candidate_witness :
  reachesPipeline 100 sampleFs sampleDb 7 (sampleBody 1) sampleParams sampleDoc1
  /\ (map pendingOfRow
        (insertedMatches sampleDb (snd (postChecks 100 sampleFs sampleDb 7 None (sampleBody 1))))
      = flat_map
          (candidateBlock sampleFs (AlgoritmaParams.k sampleParams)
             (AlgoritmaParams.w sampleParams) (AlgoritmaParams.threshold sampleParams)
             (selectActiveCorpus sampleDb) (fpDocOf sampleFs sampleParams sampleDoc1))
          (candidates (pipelineOf sampleFs sampleDb (sampleBody 1) sampleParams sampleDoc1))
      /\ Forall
           (fun cand =>
              StronglySorted Z.lt
                (map PendingMatch.doc_span_start
                   (candidateBlock sampleFs (AlgoritmaParams.k sampleParams)
                      (AlgoritmaParams.w sampleParams) (AlgoritmaParams.threshold sampleParams)
                      (selectActiveCorpus sampleDb) (fpDocOf sampleFs sampleParams sampleDoc1)
                      cand))
              /\ Forall (fun m => PendingMatch.source_id m = Candidate.id_corpus cand)
                   (candidateBlock sampleFs (AlgoritmaParams.k sampleParams)
                      (AlgoritmaParams.w sampleParams) (AlgoritmaParams.threshold sampleParams)
                      (selectActiveCorpus sampleDb) (fpDocOf sampleFs sampleParams sampleDoc1)
                      cand))
           (candidates (pipelineOf sampleFs sampleDb (sampleBody 1) sampleParams sampleDoc1))).
Proof.
  assert (H : reachesPipeline 100 sampleFs sampleDb 7 (sampleBody 1) sampleParams sampleDoc1).
  { sample_reaches 1. }
  split; [exact H|].
  exact (inserted_matches_ascending_per_candidate 100 sampleFs sampleDb 7 None
           (sampleBody 1) sampleParams sampleDoc1 H).
Defined.

(** C5 as stated fails: the rows persisted by the sample run start at
    5, 12, 5, 12, the spans of the second candidate following those of the
    first. *)
Lemma inserted_matches_not_ascending_across_candidates :
  map CheckMatch.doc_span_start
    (insertedMatches sampleDb (snd (postChecks 100 sampleFs sampleDb 7 None (sampleBody 1))))
  = [5; 12; 5; 12]
  /\ map CheckMatch.source_id
       (insertedMatches sampleDb (snd (postChecks 100 sampleFs sampleDb 7 None (sampleBody 1))))
     = [2; 2; 1; 1]
  /\ ~ StronglySorted Z.le
         (map CheckMatch.doc_span_start
            (insertedMatches sampleDb
               (snd (postChecks 100 sampleFs sampleDb 7 None (sampleBody 1))))).
Proof.
  rewrite sample_run_eq.
  assert (E : map CheckMatch.doc_span_start (insertedMatches sampleDb (snd sampleRun))
              = [5; 12; 5; 12]) by (vm_compute; reflexivity).
  split; [exact E|]. split; [vm_compute; reflexivity|].
  rewrite E. intros Hs.
  inversion Hs as [|? ? Hs1 _]; subst.
  inversion Hs1 as [|? ? _ Hf]; subst.
  inversion Hf as [|? ? Hle _]; subst. lia.
Qed.

(** ** Candidate order *)

Lemma approxAfter_spec (a b : Candidate.t) :
  approxAfter a b = true <-> (Candidate.approx a < Candidate.approx b)%Q.
Proof.
  unfold approxAfter. destruct (Qlt_le_dec 0 (Candidate.approx b - Candidate.approx a)).
  - split; [intros _; lra|reflexivity].
  - split; [discriminate|intros; lra].
Qed.

Lemma approxAfter_false (a b : Candidate.t) :
  approxAfter a b = false <-> (Candidate.approx b <= Candidate.approx a)%Q.
Proof.
  pose proof (approxAfter_spec a b) as H.
  destruct (approxAfter a b).
  - split; [discriminate|]. intros Hle. assert (Candidate.approx a < Candidate.approx b)%Q by tauto. lra.
  - split; [|reflexivity]. intros _.
    destruct (Qlt_le_dec (Candidate.approx a) (Candidate.approx b)) as [Hlt|Hle]; [|exact Hle].
    apply H in Hlt. discriminate.
Qed.

Lemma NoDup_map_filter {A B} (key : A -> B) (f : A -> bool) (l : list A) :
  List.NoDup (map key l) -> List.NoDup (map key (List.filter f l)).
Proof.
  induction l as [|x l IH]; cbn; [auto|].
  intros Hnd. apply List.NoDup_cons_iff in Hnd as (Hx & Hl).
  destruct (f x); cbn; [|auto].
  apply List.NoDup_cons_iff. split; [|auto].
  intros Hin. apply Hx. apply in_map_iff in Hin as (y & Hy & Hin).
  apply List.filter_In in Hin as (Hin & _). apply in_map_iff. eauto.
Qed.

Lemma StronglySorted_strict {A} (key : A -> Z) (l : list A) :
  StronglySorted (fun x y => key y <= key x) l ->
  List.NoDup (map key l) ->
  StronglySorted (fun x y => key y < key x) l.
Proof.
  induction 1 as [|x l Hs IH Hx]; cbn; intros Hnd; [constructor|].
  apply List.NoDup_cons_iff in Hnd as (Hnx & Hnd).
  constructor; [auto|].
  rewrite List.Forall_forall in Hx |- *. intros y Hy.
  specialize (Hx y Hy).
  assert (key y <> key x) by (intros E; apply Hnx; rewrite <- E; now apply in_map).
  lia.
Qed.

(** The corpus rows arrive in strictly descending [id_corpus] order. *)
Lemma selectActiveCorpus_sorted (db : Database) :
  List.NoDup (map CorpusDocument.id_corpus (corpus_document db)) ->
  StronglySorted
    (fun x y => CorpusDocument.id_corpus y < CorpusDocument.id_corpus x)
    (selectActiveCorpus db).
Proof.
  intros Hnd. unfold selectActiveCorpus.
  set (rows := List.filter _ (corpus_document db)).
  apply (StronglySorted_strict CorpusDocument.id_corpus).
  - eapply StronglySorted_weaken;
      [|apply (sortBy_sorted idAfter) with (tie := fun _ _ => True)].
    + intros x y (H & _). unfold idAfter in H. lia.
    + unfold idAfter. intros x y H. lia.
    + unfold idAfter. intros x y z H1 H2. lia.
    + apply StronglySorted_trivial.
  - eapply Permutation.Permutation_NoDup.
    + symmetry. apply Permutation.Permutation_map, sortBy_Permutation.
    + now apply NoDup_map_filter.
Qed.

Lemma scoreCandidates_source (fs : FileSystem) (k : Z) (sigDoc : list Z)
    (bucketsDoc : gset string) (corpusRows : list CorpusDocument.t) (cand : Candidate.t) :
  In cand (scoreCandidates fs k sigDoc bucketsDoc corpusRows) ->
  exists c, In c corpusRows
            /\ Candidate.id_corpus cand = CorpusDocument.id_corpus c
            /\ tooShort (readTextSafe fs (CorpusDocument.path_text c)) k = false.
Proof.
  unfold scoreCandidates. intros H. apply in_flat_map in H as (c & Hc & H).
  exists c. split; [exact Hc|].
  destruct (tooShort (readTextSafe fs (CorpusDocument.path_text c)) k); [destruct H|].
  destruct (negb _); [destruct H|].
  destruct H as [<-|[]]. split; reflexivity.
Qed.

Lemma scoreCandidates_sorted (fs : FileSystem) (k : Z) (sigDoc : list Z)
    (bucketsDoc : gset string) (corpusRows : list CorpusDocument.t) :
  StronglySorted
    (fun x y => CorpusDocument.id_corpus y < CorpusDocument.id_corpus x) corpusRows ->
  StronglySorted
    (fun a b => Candidate.id_corpus b < Candidate.id_corpus a)
    (scoreCandidates fs k sigDoc bucketsDoc corpusRows).
Proof.
  apply flat_map_sorted.
  - intros c. cbn beta zeta.
    destruct (tooShort _ k); [cbn; lia|]. destruct (negb _); cbn; lia.
  - intros c c' a b Hlt Ha Hb. cbn beta zeta in Ha, Hb.
    destruct (tooShort (readTextSafe fs (CorpusDocument.path_text c)) k); [destruct Ha|].
    destruct (tooShort (readTextSafe fs (CorpusDocument.path_text c')) k); [destruct Hb|].
    destruct (negb _); [destruct Ha|]. destruct (negb _); [destruct Hb|].
    destruct Ha as [<-|[]]. destruct Hb as [<-|[]]. exact Hlt.
Qed.

(** The stable sort by [approx] of candidates that were in descending
    [id_corpus] order. *)
Lemma ranked_candidates_sorted (scored : list Candidate.t) :
  StronglySorted (fun a b => Candidate.id_corpus b < Candidate.id_corpus a) scored ->
  StronglySorted candidateBefore (sortBy approxAfter scored).
Proof.
  intros Hs.
  eapply StronglySorted_weaken; [|apply (sortBy_sorted approxAfter); [| |exact Hs]].
  - intros a b (Hab & Hba). cbn in Hba. apply approxAfter_false in Hab.
    unfold candidateBefore.
    destruct (Qlt_le_dec (Candidate.approx b) (Candidate.approx a)) as [Hlt|Hle]; [now left|].
    right. destruct Hba as [Hba|Hid].
    + apply approxAfter_spec in Hba. lra.
    + split; [lra|exact Hid].
  - intros a b H. apply approxAfter_spec in H. apply approxAfter_false. lra.
  - intros a b c H1 H2. apply approxAfter_false in H1, H2. apply approxAfter_false. lra.
Qed.

Lemma runPipeline_candidates (fs : FileSystem) (k w : Z) (threshold : Q) (docText : string)
    (corpusRows : list CorpusDocument.t) (maxCandidates : Z) :
  candidates (runPipeline fs k w threshold docText corpusRows maxCandidates)
  = slice0
      (sortBy approxAfter
         (scoreCandidates fs k (minhashSignature docText k 100)
            (list_to_set (lshBuckets (minhashSignature docText k 100) 20)) corpusRows))
      maxCandidates.
Proof.
  unfold runPipeline.
  destruct (fold_left _ _ ([], 0%Q)) as [ms best]. reflexivity.
Qed.

(** C4 (as the code has it): the candidate list persisted in
    [summary_json] is the first [min(max_candidates, 50)] entries of the
    scored candidates ordered by descending [approx], ties in descending
    corpus id (the order in which the corpus rows are read). *)
Theorem candidates_by_approx_then_descending_id (now : Z) (fs : FileSystem)
    (db : Database) (user : Z) (ip : option string) (body : Body)
    (params : AlgoritmaParams.t) (doc : UserDocument.t) :
  reachesPipeline now fs db user body params doc ->
  List.NoDup (map CorpusDocument.id_corpus (corpus_document db)) ->
  0 <= default 10 (body_max_candidates body) ->
  (exists row,
     insertedResults db (snd (postChecks now fs db user ip body)) = [row]
     /\ CheckResult.summary_json row = summaryOf params (pipelineOf fs db body params doc))
  /\ StronglySorted candidateBefore (rankedCandidates fs db params doc)
  /\ candidates (pipelineOf fs db body params doc)
     = firstn (Z.to_nat (Z.min (default 10 (body_max_candidates body)) 50))
         (rankedCandidates fs db params doc)
  /\ StronglySorted candidateBefore (candidates (pipelineOf fs db body params doc)).
Proof.
  intros Hreach Hnd Hmax.
  destruct (postChecks_pipeline now fs db user ip body params doc Hreach) as (_ & _ & Hres & _).
  assert (Hranked : StronglySorted candidateBefore (rankedCandidates fs db params doc)).
  { unfold rankedCandidates. cbn zeta.
    apply ranked_candidates_sorted, scoreCandidates_sorted, selectActiveCorpus_sorted, Hnd. }
  assert (Hcut : candidates (pipelineOf fs db body params doc)
                 = firstn (Z.to_nat (Z.min (default 10 (body_max_candidates body)) 50))
                     (rankedCandidates fs db params doc)).
  { unfold pipelineOf. rewrite runPipeline_candidates. unfold slice0.
    destruct (Z.ltb_spec (Z.min (default 10 (body_max_candidates body)) 50) 0); [lia|].
    reflexivity. }
  split; [exact Hres|]. split; [exact Hranked|]. split; [exact Hcut|].
  rewrite Hcut. now apply StronglySorted_firstn.
Qed.

Lemma candidates_by_approx_then_descending_id_witness :
  reachesPipeline 100 sampleFs sampleDb 7 (sampleBody 1) sampleParams sampleDoc1
  /\ List.NoDup (map CorpusDocument.id_corpus (corpus_document sampleDb))
  /\ 0 <= default 10 (body_max_candidates (sampleBody 1))
  /\ (exists row,
        insertedResults sampleDb (snd (postChecks 100 sampleFs sampleDb 7 None (sampleBody 1)))
        = [row]
        /\ CheckResult.summary_json row
           = summaryOf sampleParams
               (pipelineOf sampleFs sampleDb (sampleBody 1) sampleParams sampleDoc1))
  /\ StronglySorted candidateBefore (rankedCandidates sampleFs sampleDb sampleParams sampleDoc1)
  /\ candidates (pipelineOf sampleFs sampleDb (sampleBody 1) sampleParams sampleDoc1)
     = firstn (Z.to_nat (Z.min (default 10 (body_max_candidates (sampleBody 1))) 50))
         (rankedCandidates sampleFs sampleDb sampleParams sampleDoc1)
  /\ StronglySorted candidateBefore
       (candidates (pipelineOf sampleFs sampleDb (sampleBody 1) sampleParams sampleDoc1)).
Proof.
  assert (H1 : reachesPipeline 100 sampleFs sampleDb 7 (sampleBody 1) sampleParams sampleDoc1).
  { sample_reaches 1. }
  assert (H2 : List.NoDup (map CorpusDocument.id_corpus (corpus_document sampleDb))).
  { cbn. repeat constructor; cbn; intuition discriminate. }
  assert (H3 : 0 <= default 10 (body_max_candidates (sampleBody 1))) by (cbn; lia).
  split; [exact H1|]. split; [exact H2|]. split; [exact H3|].
  exact (candidates_by_approx_then_descending_id 100 sampleFs sampleDb 7 None
           (sampleBody 1) sampleParams sampleDoc1 H1 H2 H3).
Defined.

(** C4 as stated fails: the two candidates of the sample run have the same
    [approx] and are persisted with corpus id 2 before corpus id 1. *)
Lemma candidates_tie_in_descending_id :
  map CheckResult.summary_json
    (check_result (snd (postChecks 100 sampleFs sampleDb 7 None (sampleBody 1))))
  = [JObj
       [("params",
         JObj [("id_params", JNum (1 # 1)); ("k", JNum (2 # 1)); ("w", JNum (6 # 1));
               ("threshold", JNum (8 # 10))]);
        ("candidates",
         JArr [JObj [("id_corpus", JNum (2 # 1)); ("title", JStr "corpus2.txt");
                     ("approx", JNum (100 # 100))];
               JObj [("id_corpus", JNum (1 # 1)); ("title", JStr "corpus1.txt");
                     ("approx", JNum (100 # 100))]]);
        ("best_similarity", JNum (3 # 3))]].
Proof. rewrite sample_run_eq. vm_compute. reflexivity. Qed.

(** ** Corpus entries whose text cannot be read *)

Section SortFilter.

Context {A : Type}.
Variable after : A -> A -> bool.
Hypothesis after_asym : forall x y, after x y = true -> after y x = false.
Hypothesis after_negtrans :
  forall x y z, after x y = false -> after y z = false -> after x z = false.
Variable keep : A -> bool.

Lemma sortBy_weakly_sorted (l : list A) :
  StronglySorted (fun a b => after a b = false) (sortBy after l).
Proof.
  eapply StronglySorted_weaken;
    [|apply (sortBy_sorted after after_asym after_negtrans (fun _ _ => True)),
        StronglySorted_trivial].
  intros a b (H & _). exact H.
Qed.

Lemma insertBy_front (x : A) (s : list A) :
  (forall z, In z s -> after x z = false) -> insertBy after x s = x :: s.
Proof.
  destruct s as [|y s]; [reflexivity|]. intros H. cbn.
  now rewrite (H y (or_introl eq_refl)).
Qed.

Lemma insertBy_filter_keep (x : A) (s : list A) :
  StronglySorted (fun a b => after a b = false) s -> keep x = true ->
  List.filter keep (insertBy after x s) = insertBy after x (List.filter keep s).
Proof.
  intros Hs Hx. induction Hs as [|y s Hs IH Hy]; cbn; [now rewrite Hx|].
  destruct (after x y) eqn:E.
  - cbn. destruct (keep y); cbn; rewrite ?E, IH; reflexivity.
  - cbn [List.filter]. rewrite Hx.
    rewrite insertBy_front; [reflexivity|].
    intros z Hz.
    assert (Hin : In z (y :: s)).
    { destruct (keep y); [destruct Hz as [->|Hz]; [now left|right]|right];
        now apply List.filter_In in Hz. }
    destruct Hin as [<-|Hin]; [exact E|].
    rewrite List.Forall_forall in Hy. eauto.
Qed.

Lemma insertBy_filter_drop (x : A) (s : list A) :
  keep x = false -> List.filter keep (insertBy after x s) = List.filter keep s.
Proof.
  intros Hx. induction s as [|y s IH]; cbn; [now rewrite Hx|].
  destruct (after x y); cbn; [now rewrite IH|now rewrite Hx].
Qed.

(** Removing rows before the sort or after it gives the same array. *)
Lemma sortBy_filter (l : list A) :
  List.filter keep (sortBy after l) = sortBy after (List.filter keep l).
Proof.
  induction l as [|x l IH]; [reflexivity|].
  change (sortBy after (x :: l)) with (insertBy after x (sortBy after l)).
  cbn [List.filter]. destruct (keep x) eqn:E.
  - rewrite insertBy_filter_keep by (auto using sortBy_weakly_sorted).
    rewrite IH. reflexivity.
  - rewrite insertBy_filter_drop by assumption. exact IH.
Qed.

End SortFilter.

Lemma flat_map_filter {A B} (f : A -> list B) (keep : A -> bool) (l : list A) :
  (forall x, In x l -> keep x = false -> f x = []) ->
  flat_map f (List.filter keep l) = flat_map f l.
Proof.
  induction l as [|x l IH]; intros H; [reflexivity|]. cbn.
  destruct (keep x) eqn:E; cbn.
  - rewrite IH; [reflexivity|]. intros y Hy. apply H. now right.
  - rewrite (H x (or_introl eq_refl) E). cbn. apply IH. intros y Hy. apply H. now right.
Qed.

Lemma find_filter {A} (q keep : A -> bool) (l : list A) :
  (forall x, q x = true -> keep x = true) ->
  find q (List.filter keep l) = find q l.
Proof.
  intros H. induction l as [|x l IH]; [reflexivity|]. cbn.
  destruct (keep x) eqn:E; cbn.
  - now rewrite IH.
  - destruct (q x) eqn:Eq; [|exact IH]. apply H in Eq. congruence.
Qed.

Lemma fold_left_ext_in {A B} (f g : A -> B -> A) (l : list B) (a : A) :
  (forall x st, In x l -> f st x = g st x) -> fold_left f l a = fold_left g l a.
Proof.
  revert a. induction l as [|x l IH]; intros a H; [reflexivity|]. cbn.
  rewrite (H x a (or_introl eq_refl)). apply IH. intros y st Hy. apply H. now right.
Qed.

Lemma slice0_In {A} (l : list A) (n : Z) (x : A) : In x (slice0 l n) -> In x l.
Proof. destruct (slice0_prefix l n) as (m & ->). apply In_firstn_In. Qed.

(** The pipeline does not depend on corpus rows whose text cannot be read. *)
Lemma runPipeline_without_unreadable (fs : FileSystem) (k w : Z) (threshold : Q)
    (docText : string) (corpusRows : list CorpusDocument.t) (id maxCandidates : Z) :
  (forall x, In x corpusRows -> CorpusDocument.id_corpus x = id ->
             readTextSafe fs (CorpusDocument.path_text x) = "") ->
  runPipeline fs k w threshold docText
    (List.filter (fun c => negb (CorpusDocument.id_corpus c =? id)) corpusRows) maxCandidates
  = runPipeline fs k w threshold docText corpusRows maxCandidates.
Proof.
  intros Hunread. unfold runPipeline.
  set (keep := fun c => negb (CorpusDocument.id_corpus c =? id)).
  set (sigDoc := minhashSignature docText k 100).
  set (bucketsDoc := list_to_set (lshBuckets sigDoc 20) : gset string).
  assert (Hscore : scoreCandidates fs k sigDoc bucketsDoc (List.filter keep corpusRows)
                   = scoreCandidates fs k sigDoc bucketsDoc corpusRows).
  { apply flat_map_filter. intros x Hx Hk. unfold keep in Hk.
    apply negb_false_iff, Z.eqb_eq in Hk. rewrite (Hunread x Hx Hk). reflexivity. }
  rewrite Hscore.
  set (cands := slice0 _ maxCandidates).
  rewrite (fold_left_ext_in
             (verifyStep fs k w threshold (List.filter keep corpusRows) (winnow docText k w))
             (verifyStep fs k w threshold corpusRows (winnow docText k w))); [reflexivity|].
  intros cand st Hcand. unfold verifyStep, findCorpus.
  rewrite find_filter; [reflexivity|].
  intros x Hq. apply Z.eqb_eq in Hq. unfold keep.
  apply negb_true_iff, Z.eqb_neq. intros Hid.
  apply slice0_In, sortBy_In, scoreCandidates_source in Hcand as (c & Hc & Hcid & Hlong).
  rewrite (Hunread c Hc) in Hlong by congruence.
  discriminate Hlong.
Qed.

Lemma insertCheckMatch_withoutCorpus (id resultId : Z) (ms : list PendingMatch.t) (db : Database) :
  fold_left (insertCheckMatch resultId) ms (withoutCorpus id db)
  = withoutCorpus id (fold_left (insertCheckMatch resultId) ms db).
Proof.
  revert db. induction ms as [|m ms IH]; intros db; [reflexivity|].
  cbn [fold_left]. rewrite <- IH. reflexivity.
Qed.

Lemma filter_comm {A} (f g : A -> bool) (l : list A) :
  List.filter f (List.filter g l) = List.filter g (List.filter f l).
Proof.
  induction l as [|x l IH]; [reflexivity|]. cbn.
  destruct (f x) eqn:Ef, (g x) eqn:Eg; cbn; rewrite ?Ef, ?Eg, IH; reflexivity.
Qed.

Lemma selectActiveCorpus_withoutCorpus (id : Z) (db : Database) :
  selectActiveCorpus (withoutCorpus id db)
  = List.filter (fun c => negb (CorpusDocument.id_corpus c =? id)) (selectActiveCorpus db).
Proof.
  unfold selectActiveCorpus, withoutCorpus. cbn [corpus_document].
  rewrite sortBy_filter.
  - f_equal. apply filter_comm.
  - unfold idAfter. intros x y H. lia.
  - unfold idAfter. intros x y z H1 H2. lia.
Qed.

(** The corpus table is only read by the request: with rows whose text
    cannot be read taken out of it, the response and the tables written are
    the same. *)
Lemma postChecks_withoutCorpus (now : Z) (fs : FileSystem) (db : Database) (user : Z)
    (ip : option string) (body : Body) (id : Z) :
  (forall x, In x (corpus_document db) -> CorpusDocument.id_corpus x = id ->
             readTextSafe fs (CorpusDocument.path_text x) = "") ->
  postChecks now fs (withoutCorpus id db) user ip body
  = (fst (postChecks now fs db user ip body),
     withoutCorpus id (snd (postChecks now fs db user ip body))).
Proof.
  intros Hunread. unfold postChecks.
  destruct (body_doc_id body) as [docId|]; [|reflexivity].
  destruct (docId <=? 0); [reflexivity|].
  change (getActiveParams now (withoutCorpus id db)) with (getActiveParams now db).
  destruct (getActiveParams now db) as [params|]; [|reflexivity].
  change (user_document (withoutCorpus id db)) with (user_document db).
  destruct (find _ (user_document db)) as [doc|]; [|reflexivity].
  cbn zeta.
  destruct (tooShort (readTextSafe fs (UserDocument.path_text doc)) (AlgoritmaParams.k params));
    [reflexivity|].
  change (selectActiveCorpus (audit (insertCheckRequest (withoutCorpus id db) _) _))
    with (selectActiveCorpus (withoutCorpus id db)).
  change (selectActiveCorpus (audit (insertCheckRequest db _) _))
    with (selectActiveCorpus db).
  rewrite selectActiveCorpus_withoutCorpus, runPipeline_without_unreadable.
  2:{ intros x Hx. apply Hunread.
      unfold selectActiveCorpus in Hx. apply sortBy_In, List.filter_In in Hx. tauto. }
  cbn [fst snd]. f_equal.
  match goal with
  | |- context [fold_left (insertCheckMatch ?rid) ?ms
                  (insertCheckResult (audit (insertCheckRequest (withoutCorpus id db) ?r) ?a) ?res)] =>
      change (insertCheckResult (audit (insertCheckRequest (withoutCorpus id db) r) a) res)
        with (withoutCorpus id (insertCheckResult (audit (insertCheckRequest db r) a) res));
      rewrite (insertCheckMatch_withoutCorpus id rid ms)
  end.
  reflexivity.
Qed.

Lemma NoDup_map_inj {A B} (key : A -> B) (l : list A) (x y : A) :
  List.NoDup (map key l) -> In x l -> In y l -> key x = key y -> x = y.
Proof.
  induction l as [|z l IH]; cbn; [tauto|].
  intros Hnd. apply List.NoDup_cons_iff in Hnd as (Hz & Hnd).
  intros [->|Hx] [->|Hy] E; auto.
  - exfalso. apply Hz. rewrite E. now apply in_map.
  - exfalso. apply Hz. rewrite <- E. now apply in_map.
Qed.

(** The summary of every result row that a request writes has the three
    fields [params], [candidates] and [best_similarity], and no other. *)
Lemma summary_fields (now : Z) (fs : FileSystem) (db : Database) (user : Z)
    (ip : option string) (body : Body) :
  Forall
    (fun row => jsonKeys (CheckResult.summary_json row)
                = ["params"; "candidates"; "best_similarity"])
    (insertedResults db (snd (postChecks now fs db user ip body))).
Proof.
  unfold postChecks, insertedResults.
  destruct (body_doc_id body) as [docId|]; cbn [snd];
    [|rewrite skipn_length_all; constructor].
  destruct (docId <=? 0); cbn [snd]; [rewrite skipn_length_all; constructor|].
  destruct (getActiveParams now db) as [params|]; cbn [snd];
    [|rewrite skipn_length_all; constructor].
  destruct (find _ (user_document db)) as [doc|]; cbn [snd];
    [|rewrite skipn_length_all; constructor].
  cbn zeta.
  destruct (tooShort (readTextSafe fs (UserDocument.path_text doc)) (AlgoritmaParams.k params));
    cbn [snd].
  - cbn [finishCheckRequest audit insertCheckRequest check_result].
    rewrite skipn_length_all. constructor.
  - cbn [audit finishCheckRequest check_result].
    match goal with
    | |- context [fold_left (insertCheckMatch ?rid) ?ms ?db3] =>
        destruct (insertCheckMatch_all rid ms db3) as (_ & _ & Hres & _)
    end.
    rewrite Hres. cbn [insertCheckResult audit insertCheckRequest check_result].
    rewrite skipn_length_app. repeat constructor.
Qed.

(** C6 (as the code has it): a corpus document whose text file is missing
    or unreadable is skipped and the check goes on; nothing records the
    skip: the response and the rows written, the summary among them, are
    those of the same request on a corpus without that document, and the
    summary has no field besides [params], [candidates] and
    [best_similarity]. *)
Theorem unreadable_corpus_entry_skipped_without_trace (now : Z) (fs : FileSystem)
    (db : Database) (user : Z) (ip : option string) (body : Body) (c : CorpusDocument.t) :
  In c (corpus_document db) ->
  List.NoDup (map CorpusDocument.id_corpus (corpus_document db)) ->
  (forall path, CorpusDocument.path_text c = Some path -> fs path = None) ->
  let r := postChecks now fs db user ip body in
  let r' := postChecks now fs (withoutCorpus (CorpusDocument.id_corpus c) db) user ip body in
  fst r = fst r'
  /\ check_request (snd r) = check_request (snd r')
  /\ check_result (snd r) = check_result (snd r')
  /\ check_match (snd r) = check_match (snd r')
  /\ Forall
       (fun row => jsonKeys (CheckResult.summary_json row)
                   = ["params"; "candidates"; "best_similarity"])
       (insertedResults db (snd r)).
Proof.
  intros Hc Hnd Hmissing. cbn zeta.
  rewrite (postChecks_withoutCorpus now fs db user ip body (CorpusDocument.id_corpus c)).
  - cbn [fst snd]. repeat split; try reflexivity. apply summary_fields.
  - intros x Hx Hid.
    rewrite (NoDup_map_inj CorpusDocument.id_corpus (corpus_document db) x c Hnd Hx Hc Hid).
    unfold readTextSafe. destruct (CorpusDocument.path_text c) as [path|]; [|reflexivity].
    now rewrite (Hmissing path eq_refl).
Qed.

Lemma unreadable_corpus_entry_skipped_without_trace_witness :
  In (sampleCorpus 3 "corpus3.txt") (corpus_document sampleDb)
  /\ List.NoDup (map CorpusDocument.id_corpus (corpus_document sampleDb))
  /\ (forall path, CorpusDocument.path_text (sampleCorpus 3 "corpus3.txt") = Some path ->
                   sampleFs path = None)
  /\ fst (postChecks 100 sampleFs sampleDb 7 None (sampleBody 1))
     = fst (postChecks 100 sampleFs (withoutCorpus 3 sampleDb) 7 None (sampleBody 1))
  /\ check_request (snd (postChecks 100 sampleFs sampleDb 7 None (sampleBody 1)))
     = check_request (snd (postChecks 100 sampleFs (withoutCorpus 3 sampleDb) 7 None (sampleBody 1)))
  /\ check_result (snd (postChecks 100 sampleFs sampleDb 7 None (sampleBody 1)))
     = check_result (snd (postChecks 100 sampleFs (withoutCorpus 3 sampleDb) 7 None (sampleBody 1)))
  /\ check_match (snd (postChecks 100 sampleFs sampleDb 7 None (sampleBody 1)))
     = check_match (snd (postChecks 100 sampleFs (withoutCorpus 3 sampleDb) 7 None (sampleBody 1)))
  /\ Forall
       (fun row => jsonKeys (CheckResult.summary_json row)
                   = ["params"; "candidates"; "best_similarity"])
       (insertedResults sampleDb (snd (postChecks 100 sampleFs sampleDb 7 None (sampleBody 1)))).
Proof.
  assert (H1 : In (sampleCorpus 3 "corpus3.txt") (corpus_document sampleDb)).
  { cbn. right. right. left. reflexivity. }
  assert (H2 : List.NoDup (map CorpusDocument.id_corpus (corpus_document sampleDb))).
  { cbn. repeat constructor; cbn; intuition discriminate. }
  assert (H3 : forall path, CorpusDocument.path_text (sampleCorpus 3 "corpus3.txt") = Some path ->
                            sampleFs path = None).
  { intros path [= <-]. reflexivity. }
  split; [exact H1|]. split; [exact H2|]. split; [exact H3|].
  exact (unreadable_corpus_entry_skipped_without_trace 100 sampleFs sampleDb 7 None
           (sampleBody 1) (sampleCorpus 3 "corpus3.txt") H1 H2 H3).
Defined.

(** C6 as stated fails: the text file of corpus document 3 is missing, the
    sample run completes, and the summary it persists has the fields
    [params], [candidates] and [best_similarity] only, the candidates being
    corpus documents 2 and 1: nothing in it tells of the skipped document. *)
Lemma missing_corpus_text_leaves_no_warning :
  In (sampleCorpus 3 "corpus3.txt") (selectActiveCorpus sampleDb)
  /\ sampleFs "corpus3.txt" = None
  /\ fst (postChecks 100 sampleFs sampleDb 7 None (sampleBody 1))
     = Json201 1 1 (10000 # 100) (8 # 10) 2 4
  /\ map (fun row => jsonKeys (CheckResult.summary_json row))
       (check_result (snd (postChecks 100 sampleFs sampleDb 7 None (sampleBody 1))))
     = [["params"; "candidates"; "best_similarity"]]
  /\ map CheckResult.summary_json
       (check_result (snd (postChecks 100 sampleFs sampleDb 7 None (sampleBody 1))))
     = [JObj
          [("params",
            JObj [("id_params", JNum (1 # 1)); ("k", JNum (2 # 1)); ("w", JNum (6 # 1));
                  ("threshold", JNum (8 # 10))]);
           ("candidates",
            JArr [JObj [("id_corpus", JNum (2 # 1)); ("title", JStr "corpus2.txt");
                        ("approx", JNum (100 # 100))];
                  JObj [("id_corpus", JNum (1 # 1)); ("title", JStr "corpus1.txt");
                        ("approx", JNum (100 # 100))]]);
           ("best_similarity", JNum (3 # 3))]].
Proof.
  rewrite sample_run_eq.
  split; [vm_compute; tauto|]. split; [reflexivity|].
  split; [vm_compute; reflexivity|]. split; vm_compute; reflexivity.
Qed.

(** ** The spans of [buildMatchSpans] *)

Lemma groupLoop_doc_span (k : Z) (rest : list Match) (spans : list Span) (cur : Span) :
  Forall (fun s => docStart s + k <= docEnd s) spans ->
  docStart cur + k <= docEnd cur ->
  Forall (fun m => docEnd cur <= aPos m + k) rest ->
  StronglySorted (fun x y => aPos x <= aPos y) rest ->
  let (spans', cur') := fold_left (groupStep k) rest (spans, cur) in
  Forall (fun s => docStart s + k <= docEnd s) (spans' ++ [cur']).
Proof.
  revert spans cur. induction rest as [|m rest IH]; intros spans cur Hs Hc Hr Hm; cbn.
  - apply Forall_app. split; [assumption|]. repeat constructor. assumption.
  - inversion Hr as [|? ? Hcm Hr']; subst. inversion Hm as [|? ? Hm' Hmr]; subst.
    destruct (aPos m <=? docEnd cur + k).
    + apply IH; cbn; try assumption; [lia|].
      eapply List.Forall_impl; [|exact Hmr]. cbn. intros m' H. lia.
    + apply IH; cbn; try assumption.
      * apply Forall_app. split; [assumption|]. repeat constructor. assumption.
      * lia.
      * eapply List.Forall_impl; [|exact Hmr]. cbn. intros m' H. lia.
Qed.

Lemma groupSpans_doc_span (k : Z) (sorted : list Match) :
  StronglySorted (fun x y => aPos x <= aPos y) sorted ->
  Forall (fun s => docStart s + k <= docEnd s) (groupSpans k sorted).
Proof.
  intros Hs. unfold groupSpans. destruct sorted as [|m0 rest]; [constructor|].
  inversion Hs as [|? ? Hs' Hm0]; subst.
  pose proof (groupLoop_doc_span k rest [] (openSpan k m0)) as H.
  destruct (fold_left (groupStep k) rest ([], openSpan k m0)) as [spans cur].
  apply H; cbn; [constructor|lia| |exact Hs'].
  eapply List.Forall_impl; [|exact Hm0]. cbn. intros m' H'. lia.
Qed.

Lemma Qratio_nonneg (a b : Z) : 0 <= a -> 0 < b -> (0 <= Qratio a b)%Q.
Proof.
  intros Ha Hb. unfold Qratio. apply Qle_shift_div_l.
  - unfold Qlt. cbn. lia.
  - rewrite Qmult_0_l. unfold Qle. cbn. lia.
Qed.

(** The part of the span invariant that holds for all inputs: for [k >= 1]
    every span has [doc_span_start < doc_span_end] and a score in [0, 1]. *)
Lemma buildMatchSpans_doc_span_and_score (fpA fpB : list Fingerprint) (k : Z) :
  1 <= k ->
  Forall
    (fun s => doc_span_start s < doc_span_end s
              /\ (0 <= match_score s)%Q /\ (match_score s <= 1)%Q)
    (buildMatchSpans fpA fpB k).
Proof.
  intros Hk. unfold buildMatchSpans.
  set (docLen := if (length fpA =? 0)%nat then 1 else Z.of_nat (length fpA)).
  assert (HdocLen : 1 <= docLen).
  { unfold docLen. destruct (Nat.eqb_spec (length fpA) 0); lia. }
  apply List.Forall_map.
  eapply List.Forall_impl; [|apply groupSpans_doc_span, sorted_matches_ordered].
  cbn. intros s Hs. split; [lia|]. unfold spanScore. split.
  - apply Q.min_glb; [discriminate|]. apply Qratio_nonneg; nia.
  - apply Q.le_min_l.
Qed.

(** C2: the span built for a document whose matching k-grams occur in the
    opposite order in the source has [src_span_end] before
    [src_span_start]. *)
Theorem buildMatchSpans_src_span_inverted :
  buildMatchSpans (winnow "hello world" 5 1)
    (winnow "world xxxxxxxxxxxxxxxxxxxx hello" 5 1) 5
  = [{| doc_span_start := 0; doc_span_end := 11;
        src_span_start := 27; src_span_end := 5;
        match_score := (11 # 35)%Q;
        snippet_hash := "12318688712325458082" |}].
Proof. vm_compute. reflexivity. Qed.

Lemma minhashSignature_entries_witness :
  kgramHashes "hello world" 5 <> []
  /\ length (minhashSignature "hello world" 5 3) = 3%nat
  /\ (exists x, In x (kgramHashes "hello world" 5)
                /\ nth 1 (minhashSignature "hello world" 5 3) 0 = permValue 1 x)
  /\ (forall x, In x (kgramHashes "hello world" 5) ->
                nth 1 (minhashSignature "hello world" 5 3) 0 <= permValue 1 x).
Proof.
  assert (H : kgramHashes "hello world" 5 <> []) by (vm_compute; discriminate).
  destruct (minhashSignature_entries "hello world" 5 3) as (Hlen & _ & Hmin).
  split; [exact H|]. split; [exact Hlen|].
  exact (Hmin H 1%nat ltac:(lia)).
Defined.

(** * Further properties of the pipeline *)

#[local] Set Warnings "-clear-no-such-hyp".

(** ** Hashes *)

Lemma lor_shift_byte_bound (x b n : Z) :
  0 <= n -> 0 <= x < 2 ^ n -> 0 <= b < 256 ->
  0 <= Z.lor (Z.shiftl x 8) b < 2 ^ (n + 8).
Proof.
  intros Hn Hx Hb.
  assert (Hs : 0 <= Z.shiftl x 8 < 2 ^ (n + 8)).
  { rewrite Z.shiftl_mul_pow2 by lia. rewrite Z.pow_add_r by lia. nia. }
  assert (Hb' : 0 <= b < 2 ^ (n + 8)).
  { split; [lia|]. apply Z.lt_le_trans with (2 ^ 8); [cbn; lia|].
    apply Z.pow_le_mono_r; lia. }
  split; [apply Z.lor_nonneg; lia|].
  destruct (Z.eq_dec (Z.lor (Z.shiftl x 8) b) 0) as [->|Hne]; [apply Z.pow_pos_nonneg; lia|].
  assert (Hpos : 0 < Z.lor (Z.shiftl x 8) b).
  { pose proof (proj2 (Z.lor_nonneg (Z.shiftl x 8) b) ltac:(lia)). lia. }
  apply Z.log2_lt_pow2; [exact Hpos|].
  rewrite Z.log2_lor by lia.
  apply Z.max_lub_lt.
  - destruct (Z.eq_dec (Z.shiftl x 8) 0) as [->|]; [cbn; lia|].
    apply Z.log2_lt_pow2; lia.
  - destruct (Z.eq_dec b 0) as [->|]; [cbn; lia|].
    apply Z.log2_lt_pow2; lia.
Qed.

Lemma be_fold_bound (bs : list Z) (acc n : Z) :
  0 <= n -> 0 <= acc < 2 ^ n -> Forall (fun b => 0 <= b < 256) bs ->
  0 <= fold_left (fun x b => Z.lor (Z.shiftl x 8) b) bs acc
    < 2 ^ (n + 8 * Z.of_nat (length bs)).
Proof.
  revert acc n. induction bs as [|b bs IH]; intros acc n Hn Hacc Hbs; cbn [fold_left length].
  - now rewrite Z.add_0_r.
  - inversion Hbs as [|? ? Hb Hbs']; subst.
    replace (n + 8 * Z.of_nat (S (length bs))) with ((n + 8) + 8 * Z.of_nat (length bs)) by lia.
    apply IH; [lia| |assumption].
    now apply lor_shift_byte_bound.
Qed.

Lemma be_bytes_range (n : nat) (x : Z) : Forall (fun b => 0 <= b < 256) (Sha1.be_bytes n x).
Proof.
  induction n as [|n IH]; cbn; constructor; [|exact IH].
  change 255 with (Z.ones 8). rewrite Z.land_ones by lia.
  apply Z.mod_pos_bound. reflexivity.
Qed.

Lemma digest_bytes (msg : list Z) : Forall (fun b => 0 <= b < 256) (Sha1.digest msg).
Proof.
  unfold Sha1.digest. cbn zeta. apply List.Forall_flat_map.
  apply List.Forall_forall. intros w _. apply be_bytes_range.
Qed.

Lemma Forall_firstn {A} (P : A -> Prop) (n : nat) (l : list A) :
  Forall P l -> Forall P (firstn n l).
Proof.
  rewrite !List.Forall_forall. intros H x Hx. apply H. eapply In_firstn_In, Hx.
Qed.

(** X1: [hash64] is an unsigned 64-bit integer, whatever the string. *)
Theorem hash64_range (str : string) : 0 <= hash64 str < 2 ^ 64.
Proof.
  unfold hash64.
  pose proof (be_fold_bound (firstn 8 (Sha1.digest (utf8 str))) 0 0 ltac:(lia) ltac:(cbn; lia)
                (Forall_firstn _ 8 _ (digest_bytes (utf8 str)))) as H.
  split; [apply H|].
  eapply Z.lt_le_trans; [apply H|].
  apply Z.pow_le_mono_r; [lia|].
  pose proof (List.firstn_le_length 8 (Sha1.digest (utf8 str))). lia.
Qed.

Lemma hashToInt61_range (x : Z) : 0 <= hashToInt61 x < PRIME.
Proof.
  unfold hashToInt61. rewrite modBig_mod by reflexivity.
  apply Z.mod_pos_bound. reflexivity.
Qed.

Lemma minOver_bounds (items : list Z) (i : nat) :
  0 <= minOver items (Z.of_nat i) <= PRIME
  /\ (items <> [] -> minOver items (Z.of_nat i) < PRIME).
Proof.
  unfold minOver.
  destruct (fold_min_spec (fun x => modBig (permA (Z.of_nat i) * x + permB (Z.of_nat i)) PRIME)
              items PRIME) as (H1 & H2 & H3).
  set (r := fold_left _ items PRIME) in *.
  assert (Hv : forall x, 0 <= modBig (permA (Z.of_nat i) * x + permB (Z.of_nat i)) PRIME < PRIME).
  { intros x. rewrite modBig_mod by reflexivity. apply Z.mod_pos_bound. reflexivity. }
  split.
  - split; [|exact H1]. destruct H3 as [->|(x & _ & ->)]; [discriminate|apply Hv].
  - intros Hne. destruct items as [|x items']; [congruence|].
    specialize (H2 x (or_introl eq_refl)). specialize (Hv x). lia.
Qed.

(** X2: every entry of a MinHash signature lies in [[0, P]], and below [P]
    as soon as the text has one k-gram: the sentinel [P] is never the
    minimum of a non-empty set. *)
Theorem minhashSignature_range (text : string) (k : Z) (numPerm : nat) :
  Forall (fun v => 0 <= v <= PRIME) (minhashSignature text k numPerm)
  /\ (makeKgrams text k <> [] ->
      Forall (fun v => 0 <= v < PRIME) (minhashSignature text k numPerm)).
Proof.
  unfold minhashSignature.
  pose proof (items_kgramHashes text k) as Hmem.
  set (items := map BigInt (elements (gramHashSet (makeKgrams text k)))) in *.
  destruct (Nat.eqb_spec (length items) 0) as [He|Hne].
  - split.
    + apply List.Forall_forall. intros v Hv. apply List.repeat_spec in Hv. subst v.
      split; [discriminate|reflexivity].
    + intros Hg. exfalso.
      destruct (makeKgrams text k) as [|g gs] eqn:E; [congruence|].
      assert (Hin : In (hashToInt61 (hash64 (gram g))) items).
      { apply Hmem. unfold kgramHashes. rewrite E. now left. }
      destruct items; [destruct Hin|discriminate].
  - assert (Hitems : items <> []) by (intros ->; now apply Hne).
    split; [|intros _]; apply List.Forall_map, List.Forall_forall; intros i _;
      destruct (minOver_bounds items i) as (Hb & Hlt); [exact Hb|].
    specialize (Hlt Hitems). lia.
Qed.

Lemma minhashSignature_range_witness :
  makeKgrams "hello world" 5 <> []
  /\ Forall (fun v => 0 <= v < PRIME) (minhashSignature "hello world" 5 3).
Proof.
  assert (H : makeKgrams "hello world" 5 <> []) by (vm_compute; discriminate).
  split; [exact H|].
  exact (proj2 (minhashSignature_range "hello world" 5 3) H).
Defined.

(** ** k-grams *)

Lemma substring_length (s : string) (i n : nat) :
  (i + n <= String.length s)%nat -> String.length (substring i n s) = n.
Proof.
  revert i n. induction s as [|c s IH]; intros i n H; cbn in H.
  - assert (i = O) by lia. assert (n = O) by lia. subst. reflexivity.
  - destruct i as [|i]; cbn.
    + destruct n as [|n]; [reflexivity|]. cbn. f_equal. apply (IH O n). lia.
    + apply IH. lia.
Qed.

Lemma slice_substring (s : string) (i k : Z) :
  0 <= i -> 0 <= k -> i + k <= strlen s ->
  slice s i (i + k) = substring (Z.to_nat i) (Z.to_nat k) s.
Proof.
  intros Hi Hk Hlen. unfold slice.
  destruct (Z.ltb_spec i 0); [lia|]. destruct (Z.ltb_spec (i + k) 0); [lia|].
  f_equal; lia.
Qed.

(** X3: for [k >= 1], a text whose normalised form has [n >= k] characters
    has exactly [n - k + 1] k-grams; the one at index [i] is the [k]
    characters of the normalised text from offset [i], tagged with position
    [i].  A shorter text has none. *)
Theorem makeKgrams_contents (text : string) (k : Z) :
  1 <= k ->
  let t := normalize text in
  (strlen t < k -> makeKgrams text k = [])
  /\ (k <= strlen t ->
      Z.of_nat (length (makeKgrams text k)) = strlen t - k + 1
      /\ forall i, (i < length (makeKgrams text k))%nat ->
           nth_error (makeKgrams text k) i
           = Some {| gram := substring i (Z.to_nat k) t; gpos := Z.of_nat i |}
           /\ strlen (substring i (Z.to_nat k) t) = k).
Proof.
  intros Hk. cbn zeta. unfold makeKgrams.
  destruct (Z.ltb_spec (strlen (normalize text)) k) as [Hlt|Hge].
  - split; [reflexivity|lia].
  - split; [lia|]. intros _. unfold upto.
    rewrite List.length_map, List.length_seq. split; [lia|].
    intros i Hi.
    assert (Hik : Z.of_nat i + k <= strlen (normalize text)) by lia.
    split.
    + rewrite List.nth_error_map, List.nth_error_seq.
      destruct (Nat.ltb_spec i (Z.to_nat (strlen (normalize text) - k + 1 - Z.of_nat 0)));
        [|lia].
      cbn. rewrite slice_substring by lia. now rewrite Nat2Z.id.
    + unfold strlen in *. rewrite substring_length; lia.
Qed.

Lemma makeKgrams_contents_witness :
  1 <= 5
  /\ (strlen (normalize "Hello, World") < 5 -> makeKgrams "Hello, World" 5 = [])
  /\ (5 <= strlen (normalize "Hello, World") ->
      Z.of_nat (length (makeKgrams "Hello, World" 5)) = strlen (normalize "Hello, World") - 5 + 1
      /\ forall i, (i < length (makeKgrams "Hello, World" 5))%nat ->
           nth_error (makeKgrams "Hello, World" 5) i
           = Some {| gram := substring i (Z.to_nat 5) (normalize "Hello, World");
                     gpos := Z.of_nat i |}
           /\ strlen (substring i (Z.to_nat 5) (normalize "Hello, World")) = 5).
Proof.
  assert (H : 1 <= 5) by lia.
  split; [exact H|]. exact (makeKgrams_contents "Hello, World" 5 H).
Defined.

(** ** What Winnowing selects *)

Section WinnowCover.

Variable hashes : list HashedGram.
Variable W : Z.
Hypothesis W_pos : 1 <= W.
Hypothesis hashes_indexed : indexed hashes.

(** One iteration either appends the pick of its window or finds it is the
    pick of the window before. *)
Lemma winnowStep_cases (i : nat) (st : WinnowState) :
  Z.of_nat i + W <= Z.of_nat (length hashes) ->
  exists p, leftmostMin hashes i (i + Z.to_nat W) p
    /\ (winnowStep hashes W st i
        = {| fps := fps st ++ [{| hash := h (at_index hashes p); pos := Z.of_nat p |}];
             lastPickedPos := Z.of_nat p;
             lastPickedHash := Some (h (at_index hashes p)) |}
        \/ (winnowStep hashes W st i = st
            /\ lastPickedPos st = Z.of_nat p
            /\ lastPickedHash st = Some (h (at_index hashes p)))).
Proof.
  intros Hi.
  destruct (windowMin_leftmost hashes W W_pos i) as (p & E & Hp).
  assert (Hpos : hpos (at_index hashes p) = Z.of_nat p).
  { apply hashes_indexed. destruct Hp as (? & _). lia. }
  exists p. split; [exact Hp|].
  unfold winnowStep. rewrite E, Hpos.
  destruct (negb (Z.of_nat p =? lastPickedPos st)
            || negb (bool_decide (Some (h (at_index hashes p)) = lastPickedHash st))) eqn:Hc.
  - now left.
  - right. apply orb_false_elim in Hc as (Hc1 & Hc2).
    apply negb_false_iff in Hc1, Hc2.
    apply Z.eqb_eq in Hc1. apply bool_decide_eq_true_1 in Hc2. auto.
Qed.

Lemma winnowStep_cover (i : nat) (st : WinnowState) :
  Z.of_nat i + W <= Z.of_nat (length hashes) ->
  winnowInv hashes W i st -> winnowCover hashes W i st ->
  winnowCover hashes W (S i) (winnowStep hashes W st i).
Proof.
  intros Hi Hinv (Hall & Honly & Hlen).
  destruct (winnowStep_cases i st Hi) as (p & Hp & [E|(E & Hlp & Hlh)]); rewrite E.
  - repeat split; cbn [fps].
    + intros j Hj. destruct (Nat.eq_dec j i) as [->|Hne].
      * exists p. split; [exact Hp|]. apply in_or_app. right. now left.
      * destruct (Hall j ltac:(lia)) as (q & Hq & Hin).
        exists q. split; [exact Hq|]. apply in_or_app. now left.
    + intros f Hf. apply in_app_or in Hf as [Hf|[<-|[]]].
      * destruct (Honly f Hf) as (j & q & Hj & Hq & ->). exists j, q. split; [lia|]. auto.
      * exists i, p. split; [lia|]. auto.
    + rewrite List.length_app. cbn. lia.
  - repeat split.
    + intros j Hj. destruct (Nat.eq_dec j i) as [->|Hne]; [|apply Hall; lia].
      exists p. split; [exact Hp|].
      destruct Hinv as (_ & _ & Hlast). destruct i as [|i'].
      * destruct Hlast as (Hl & _). lia.
      * destruct Hlast as (q & Hq & Hlq & _).
        assert (q = p) by lia. subst q.
        destruct (Hall i' ltac:(lia)) as (q' & Hq' & Hin).
        now rewrite (leftmostMin_unique hashes _ _ _ _ Hq Hq').
    + intros f Hf. destruct (Honly f Hf) as (j & q & Hj & Hq & ->).
      exists j, q. split; [lia|]. auto.
    + lia.
Qed.

Lemma winnowLoop_cover (n a : nat) (st : WinnowState) :
  ((0 < n)%nat -> Z.of_nat (a + n) + W <= Z.of_nat (length hashes) + 1) ->
  winnowInv hashes W a st -> winnowCover hashes W a st ->
  winnowCover hashes W (a + n) (fold_left (winnowStep hashes W) (seq a n) st).
Proof.
  revert a st. induction n as [|n IH]; intros a st Hn Hinv Hcov.
  - now rewrite Nat.add_0_r.
  - cbn [seq fold_left]. replace (a + S n)%nat with (S a + n)%nat by lia.
    apply IH; [lia| |].
    + apply winnowStep_inv; [assumption|assumption|lia|assumption].
    + apply winnowStep_cover; [lia|assumption|assumption].
Qed.

End WinnowCover.

Lemma hashed_kgram_at (text : string) (k : Z) (p : nat) (g : Kgram) :
  nth_error (makeKgrams text k) p = Some g ->
  {| hash := h (at_index (map (fun g => {| h := hash64 (gram g); hpos := gpos g |})
                            (makeKgrams text k)) p);
     pos := Z.of_nat p |} = fingerprintOf g
  /\ gpos g = Z.of_nat p.
Proof.
  intros Hg.
  assert (Hpos : gpos g = Z.of_nat p).
  { destruct (makeKgrams_shape text k) as (n & E). rewrite E in Hg.
    rewrite List.nth_error_map in Hg.
    destruct (nth_error (seq 0 n) p) as [i|] eqn:Ei; [|discriminate].
    injection Hg as <-. cbn.
    apply List.nth_error_In in Ei as Hin. apply List.in_seq in Hin.
    rewrite List.nth_error_seq in Ei.
    destruct (Nat.ltb p n); [|discriminate]. injection Ei as <-. reflexivity. }
  split; [|exact Hpos].
  unfold at_index, fingerprintOf.
  erewrite List.nth_error_nth; [|rewrite List.nth_error_map, Hg; reflexivity].
  cbn. now rewrite Hpos.
Qed.

(** The state of the loop of [winnow] at its end. *)
Lemma winnow_final (text : string) (k w : Z) :
  makeKgrams text k <> [] ->
  let hashes := map (fun g => {| h := hash64 (gram g); hpos := gpos g |}) (makeKgrams text k) in
  let W := Z.max 1 w in
  let N := Z.to_nat (Z.of_nat (length hashes) - W + 1) in
  exists st, winnow text k w = fps st
             /\ winnowInv hashes W N st /\ winnowCover hashes W N st.
Proof.
  intros Hne. cbn zeta. unfold winnow.
  destruct (Nat.eqb_spec (length (makeKgrams text k)) 0) as [E|_].
  { destruct (makeKgrams text k); [congruence|discriminate]. }
  set (hashes := map _ (makeKgrams text k)).
  unfold upto.
  replace (Z.to_nat (Z.of_nat (length hashes) - Z.max 1 w + 1 - Z.of_nat 0))
    with (0 + Z.to_nat (Z.of_nat (length hashes) - Z.max 1 w + 1))%nat by lia.
  set (N := Z.to_nat _).
  assert (HW : 1 <= Z.max 1 w) by lia.
  assert (Hinit : winnowInv hashes (Z.max 1 w) 0
                    {| fps := []; lastPickedPos := -1; lastPickedHash := None |}).
  { repeat split; cbn; constructor. }
  assert (Hcov0 : winnowCover hashes (Z.max 1 w) 0
                    {| fps := []; lastPickedPos := -1; lastPickedHash := None |}).
  { repeat split; cbn; [intros j Hj; lia|intros f []|lia]. }
  eexists. split; [reflexivity|]. split.
  - change N with (0 + N)%nat at 1.
    apply winnowLoop_inv; [exact HW|apply hashed_kgrams_indexed|unfold N; lia|exact Hinit].
  - change N with (0 + N)%nat at 1.
    apply winnowLoop_cover;
      [exact HW|apply hashed_kgrams_indexed|unfold N; lia|exact Hinit|exact Hcov0].
Qed.

Lemma winnow_no_kgrams (text : string) (k w : Z) :
  makeKgrams text k = [] -> winnow text k w = [].
Proof. intros E. unfold winnow. now rewrite E. Qed.

(** X4: every fingerprint that [winnow] returns is the hash of a k-gram of
    the text, tagged with the position of that k-gram. *)
Theorem winnow_fingerprints_are_kgrams (text : string) (k w : Z) :
  Forall (fun f => exists g, In g (makeKgrams text k) /\ f = fingerprintOf g)
         (winnow text k w).
Proof.
  destruct (makeKgrams text k) as [|g0 gs] eqn:Eg.
  { rewrite winnow_no_kgrams by assumption. constructor. }
  destruct (winnow_final text k w) as (st & -> & _ & (_ & Honly & _)); [congruence|].
  rewrite <- Eg. apply List.Forall_forall. intros f Hf.
  destruct (Honly f Hf) as (j & p & Hj & ((Hlo & Hhi) & _) & ->).
  rewrite List.length_map in Hj.
  assert (Hp : (p < length (makeKgrams text k))%nat) by lia.
  destruct (nth_error (makeKgrams text k) p) as [g|] eqn:E;
    [|apply List.nth_error_None in E; lia].
  exists g. split; [eapply List.nth_error_In, E|].
  apply (hashed_kgram_at text k p g E).
Qed.



(** X6: [winnow] returns no fingerprint exactly when the text has fewer
    k-grams than the window [max(1, w)], and never more fingerprints than
    there are windows. *)
Theorem winnow_empty_iff (text : string) (k w : Z) :
  (winnow text k w = [] <-> Z.of_nat (length (makeKgrams text k)) < Z.max 1 w)
  /\ Z.of_nat (length (winnow text k w))
     <= Z.max 0 (Z.of_nat (length (makeKgrams text k)) - Z.max 1 w + 1).
Proof.
  destruct (makeKgrams text k) as [|g0 gs] eqn:Eg.
  { rewrite winnow_no_kgrams by assumption. cbn [length]. split; [|lia].
    split; [lia|reflexivity]. }
  destruct (winnow_final text k w) as (st & -> & _ & (Hall & _ & Hlen)); [congruence|].
  rewrite <- Eg. rewrite List.length_map in *.
  split; [|lia]. split.
  - intros E.
    destruct (Z.lt_ge_cases (Z.of_nat (length (makeKgrams text k))) (Z.max 1 w)) as [|Hge];
      [assumption|exfalso].
    destruct (Hall O ltac:(lia)) as (p & _ & Hin). rewrite E in Hin. exact Hin.
  - intros Hlt. destruct (fps st); [reflexivity|cbn in Hlen; lia].
Qed.

Lemma firstn_succ_nth {A} (l : list A) (a : nat) (d : A) :
  (a < length l)%nat -> firstn (S a) l = firstn a l ++ [nth a l d].
Proof.
  revert a. induction l as [|x l IH]; intros a Ha; cbn in Ha; [lia|].
  destruct a as [|a]; [reflexivity|]. cbn [firstn nth app].
  change (x :: firstn a l ++ [nth a l d]) with (x :: (firstn a l ++ [nth a l d])).
  f_equal. apply IH. lia.
Qed.

Lemma winnowLoop_window_one (hashes : list HashedGram) (n a : nat) (st : WinnowState) :
  indexed hashes -> (a + n <= length hashes)%nat ->
  fps st = map (fun x => {| hash := h x; pos := hpos x |}) (firstn a hashes) ->
  lastPickedPos st = Z.of_nat a - 1 ->
  fps (fold_left (winnowStep hashes 1) (seq a n) st)
  = map (fun x => {| hash := h x; pos := hpos x |}) (firstn (a + n) hashes).
Proof.
  intros Hidx. revert a st. induction n as [|n IH]; intros a st Hlen Hfps Hlast.
  - now rewrite Nat.add_0_r.
  - cbn [seq fold_left]. replace (a + S n)%nat with (S a + n)%nat by lia.
    assert (Hmin : windowMin hashes 1 a = at_index hashes a).
    { unfold windowMin, upto.
      replace (Z.to_nat (Z.of_nat a + 1 - 1 + 1 - Z.of_nat a)) with 1%nat by lia.
      cbn. unfold minStep. now rewrite Z.ltb_irrefl. }
    assert (Hpos : hpos (at_index hashes a) = Z.of_nat a) by (apply Hidx; lia).
    assert (Hstep : winnowStep hashes 1 st a
                    = {| fps := fps st ++ [{| hash := h (at_index hashes a);
                                              pos := hpos (at_index hashes a) |}];
                         lastPickedPos := hpos (at_index hashes a);
                         lastPickedHash := Some (h (at_index hashes a)) |}).
    { unfold winnowStep. rewrite Hmin, Hpos, Hlast.
      destruct (Z.eqb_spec (Z.of_nat a) (Z.of_nat a - 1)); [lia|reflexivity]. }
    rewrite Hstep. apply IH; [lia| |cbn; lia].
    cbn [fps]. rewrite Hfps, (firstn_succ_nth hashes a {| h := 0; hpos := 0 |}) by lia.
    now rewrite List.map_app.
Qed.

(** X7: with a window of one ([w <= 1]) nothing is filtered out: [winnow]
    returns the fingerprint of every k-gram, in order. *)
Theorem winnow_window_one (text : string) (k w : Z) :
  w <= 1 -> winnow text k w = map fingerprintOf (makeKgrams text k).
Proof.
  intros Hw. unfold winnow.
  destruct (Nat.eqb_spec (length (makeKgrams text k)) 0) as [E|_].
  { destruct (makeKgrams text k); [reflexivity|discriminate]. }
  replace (Z.max 1 w) with 1 by lia.
  set (hashes := map _ (makeKgrams text k)).
  unfold upto.
  replace (Z.to_nat (Z.of_nat (length hashes) - 1 + 1 - Z.of_nat 0)) with (length hashes) by lia.
  rewrite (winnowLoop_window_one hashes (length hashes) 0);
    [|apply hashed_kgrams_indexed|lia|reflexivity|reflexivity].
  cbn [Nat.add]. rewrite List.firstn_all. unfold hashes. rewrite List.map_map. reflexivity.
Qed.

Lemma winnow_window_one_witness :
  1 <= 1 /\ winnow "hello world" 5 1 = map fingerprintOf (makeKgrams "hello world" 5).
Proof.
  assert (H : 1 <= 1) by lia.
  split; [exact H|]. exact (winnow_window_one "hello world" 5 1 H).
Defined.

(** ** Similarity estimators *)

Lemma Qratio_pos (a b : Z) : 0 < b -> (Qratio a b == a # Z.to_pos b)%Q.
Proof.
  intros Hb. unfold Qratio, Qdiv, Qinv, Qmult, Qeq. destruct b as [|p|p]; try lia.
  cbn. lia.
Qed.

Lemma Qratio_unit_interval (a b : Z) :
  0 <= a <= b -> 0 < b -> (0 <= Qratio a b)%Q /\ (Qratio a b <= 1)%Q.
Proof.
  intros Ha Hb. rewrite (Qratio_pos a b Hb). unfold Qle. cbn.
  rewrite Z2Pos.id by lia. lia.
Qed.

Lemma Qratio_eq_1 (a b : Z) : 0 < b -> ((Qratio a b == 1)%Q <-> a = b).
Proof.
  intros Hb. rewrite (Qratio_pos a b Hb). unfold Qeq. cbn.
  rewrite Z2Pos.id by lia. lia.
Qed.

Lemma Qratio_eq_0 (a b : Z) : 0 < b -> ((Qratio a b == 0)%Q <-> a = 0).
Proof.
  intros Hb. rewrite (Qratio_pos a b Hb). unfold Qeq. cbn. lia.
Qed.

(** The loop of [fingerprintSimilarity] counts the intersection. *)
Lemma inter_count (A B : gset string) :
  length (filter (fun x => x ∈ B) (elements A)) = size (A ∩ B).
Proof.
  unfold size, set_size. cbn.
  apply Permutation_length, NoDup_Permutation.
  - apply NoDup_filter. apply (NoDup_elements A).
  - apply (NoDup_elements (A ∩ B)).
  - intros x. rewrite list_elem_of_filter, !elem_of_elements, elem_of_intersection. tauto.
Qed.

Lemma union_count (A B : gset string) :
  Z.of_nat (size A) + Z.of_nat (size B) - Z.of_nat (size (A ∩ B)) = Z.of_nat (size (A ∪ B)).
Proof.
  pose proof (size_union_alt A B) as H1.
  pose proof (size_difference_alt B A) as H2.
  assert (size (B ∩ A) <= size B)%nat by (apply subseteq_size; set_solver).
  replace (A ∩ B) with (B ∩ A) by set_solver. lia.
Qed.

Lemma hashSet_nonempty (a : list Fingerprint) : a <> [] -> (0 < size (hashSet a))%nat.
Proof.
  intros Ha. destruct a as [|x a]; [congruence|].
  assert (toString (hash x) ∈ hashSet (x :: a)).
  { unfold hashSet. apply elem_of_list_to_set. cbn. apply list_elem_of_here. }
  destruct (decide (size (hashSet (x :: a)) = 0%nat)) as [E|]; [|lia].
  apply size_empty_inv in E. set_solver.
Qed.

(** The value [fingerprintSimilarity] returns on non-empty inputs. *)
Lemma fingerprintSimilarity_value (a b : list Fingerprint) :
  a <> [] -> b <> [] ->
  fingerprintSimilarity a b
  = Qratio (Z.of_nat (size (hashSet a ∩ hashSet b))) (Z.of_nat (size (hashSet a ∪ hashSet b)))
  /\ (0 < size (hashSet a ∪ hashSet b))%nat.
Proof.
  intros Ha Hb. unfold fingerprintSimilarity.
  destruct a as [|x a]; [congruence|]. destruct b as [|y b]; [congruence|].
  cbn [length Nat.eqb orb].
  rewrite inter_count, union_count.
  assert (0 < size (hashSet (x :: a) ∪ hashSet (y :: b)))%nat.
  { pose proof (hashSet_nonempty (x :: a) Ha).
    assert (size (hashSet (x :: a)) <= size (hashSet (x :: a) ∪ hashSet (y :: b)))%nat
      by (apply subseteq_size; set_solver).
    lia. }
  split; [|assumption].
  destruct (Z.eqb_spec (Z.of_nat (size (hashSet (x :: a) ∪ hashSet (y :: b)))) 0); [lia|].
  reflexivity.
Qed.

Lemma fingerprintSimilarity_bounds (a b : list Fingerprint) :
  (0 <= fingerprintSimilarity a b)%Q /\ (fingerprintSimilarity a b <= 1)%Q.
Proof.
  destruct a as [|x a]; [split; discriminate|].
  destruct b as [|y b]; [split; discriminate|].
  destruct (fingerprintSimilarity_value (x :: a) (y :: b)) as (-> & Hpos); [congruence..|].
  apply Qratio_unit_interval; [|lia].
  assert (size (hashSet (x :: a) ∩ hashSet (y :: b))
          <= size (hashSet (x :: a) ∪ hashSet (y :: b)))%nat
    by (apply subseteq_size; set_solver).
  lia.
Qed.

Lemma fingerprintSimilarity_self (a : list Fingerprint) :
  a <> [] -> (fingerprintSimilarity a a == 1)%Q.
Proof.
  intros Ha. destruct (fingerprintSimilarity_value a a Ha Ha) as (-> & Hpos).
  apply Qratio_eq_1; [lia|].
  replace (hashSet a ∩ hashSet a) with (hashSet a) by set_solver.
  replace (hashSet a ∪ hashSet a) with (hashSet a) by set_solver.
  reflexivity.
Qed.

(** X8: on non-empty fingerprint lists [fingerprintSimilarity] is the
    Jaccard index of the two sets of hashes, [|A ∩ B| / |A ∪ B|]; on all
    inputs it lies between 0 and 1. *)
Theorem fingerprintSimilarity_jaccard (a b : list Fingerprint) :
  (a <> [] -> b <> [] ->
   fingerprintSimilarity a b
   = Qratio (Z.of_nat (size (hashSet a ∩ hashSet b)))
            (Z.of_nat (size (hashSet a ∪ hashSet b))))
  /\ (0 <= fingerprintSimilarity a b)%Q /\ (fingerprintSimilarity a b <= 1)%Q.
Proof.
  split; [intros Ha Hb; apply fingerprintSimilarity_value; assumption|].
  apply fingerprintSimilarity_bounds.
Qed.

(** X9: [fingerprintSimilarity] is symmetric. *)
Theorem fingerprintSimilarity_sym (a b : list Fingerprint) :
  fingerprintSimilarity a b = fingerprintSimilarity b a.
Proof.
  destruct a as [|x a]; destruct b as [|y b]; try reflexivity.
  destruct (fingerprintSimilarity_value (x :: a) (y :: b)) as (-> & _); [congruence..|].
  destruct (fingerprintSimilarity_value (y :: b) (x :: a)) as (-> & _); [congruence..|].
  replace (hashSet (y :: b) ∩ hashSet (x :: a)) with (hashSet (x :: a) ∩ hashSet (y :: b))
    by set_solver.
  replace (hashSet (y :: b) ∪ hashSet (x :: a)) with (hashSet (x :: a) ∪ hashSet (y :: b))
    by set_solver.
  reflexivity.
Qed.

(** X10: for non-empty fingerprint lists the similarity is 1 exactly when
    the two lists have the same set of hashes (so a list compared with
    itself gives 1), and 0 exactly when they have no hash in common. *)
Theorem fingerprintSimilarity_extremes (a b : list Fingerprint) :
  a <> [] -> b <> [] ->
  ((fingerprintSimilarity a b == 1)%Q <-> hashSet a = hashSet b)
  /\ ((fingerprintSimilarity a b == 0)%Q <-> hashSet a ∩ hashSet b = ∅).
Proof.
  intros Ha Hb.
  destruct (fingerprintSimilarity_value a b Ha Hb) as (-> & Hpos).
  split.
  - rewrite Qratio_eq_1 by lia. split.
    + intros E. apply Nat2Z.inj in E.
      assert (H1 : hashSet a ∩ hashSet b = hashSet a ∪ hashSet b).
      { apply set_subseteq_size_eq; [set_solver|lia]. }
      set_solver.
    + intros E. rewrite E. f_equal. f_equal. set_solver.
  - rewrite Qratio_eq_0 by lia. split.
    + intros E. apply leibniz_equiv, size_empty_inv. lia.
    + intros E. rewrite E. rewrite size_empty. reflexivity.
Qed.

Lemma fingerprintSimilarity_extremes_witness :
  winnow "hello world" 5 1 <> [] /\ winnow "HELLO, world!" 5 1 <> []
  /\ ((fingerprintSimilarity (winnow "hello world" 5 1) (winnow "HELLO, world!" 5 1) == 1)%Q
      <-> hashSet (winnow "hello world" 5 1) = hashSet (winnow "HELLO, world!" 5 1))
  /\ ((fingerprintSimilarity (winnow "hello world" 5 1) (winnow "HELLO, world!" 5 1) == 0)%Q
      <-> hashSet (winnow "hello world" 5 1) ∩ hashSet (winnow "HELLO, world!" 5 1) = ∅).
Proof.
  assert (H1 : winnow "hello world" 5 1 <> []) by (vm_compute; discriminate).
  assert (H2 : winnow "HELLO, world!" 5 1 <> []) by (vm_compute; discriminate).
  split; [exact H1|]. split; [exact H2|].
  exact (fingerprintSimilarity_extremes _ _ H1 H2).
Defined.

Lemma sameCount_le (sigA sigB : list Z) :
  (sameCount sigA sigB <= Nat.min (length sigA) (length sigB))%nat.
Proof.
  unfold sameCount. rewrite <- List.length_combine. apply List.filter_length_le.
Qed.

Lemma sameCount_sym (sigA sigB : list Z) : sameCount sigA sigB = sameCount sigB sigA.
Proof.
  unfold sameCount. revert sigB. induction sigA as [|x A IH]; intros [|y B]; cbn; try reflexivity.
  rewrite (Z.eqb_sym y x). destruct (x =? y); cbn; now rewrite IH.
Qed.

Lemma sameCount_full (sigA sigB : list Z) :
  sameCount sigA sigB = Nat.min (length sigA) (length sigB)
  <-> firstn (Nat.min (length sigA) (length sigB)) sigA
      = firstn (Nat.min (length sigA) (length sigB)) sigB.
Proof.
  revert sigB. induction sigA as [|x A IH]; intros [|y B]; cbn; try tauto.
  specialize (IH B). pose proof (sameCount_le A B) as Hle. unfold sameCount in *.
  destruct (Z.eqb_spec x y) as [->|Hne]; cbn.
  - split.
    + intros E. f_equal. apply IH. lia.
    + intros E. injection E as E. f_equal. now apply IH.
  - split; [lia|]. intros E. injection E as E _. contradiction.
Qed.

Lemma estimateMinhashSim_value (sigA sigB : list Z) :
  sigA <> [] -> sigB <> [] ->
  estimateMinhashSim sigA sigB
  = Qratio (Z.of_nat (sameCount sigA sigB)) (Z.of_nat (Nat.min (length sigA) (length sigB)))
  /\ (0 < Nat.min (length sigA) (length sigB))%nat.
Proof.
  intros Ha Hb. destruct sigA as [|x A]; [congruence|]. destruct sigB as [|y B]; [congruence|].
  split; [reflexivity|cbn; lia].
Qed.

(** X11: [estimateMinhashSim] lies between 0 and 1 and is symmetric; it is
    0 when either signature is empty. *)
Theorem estimateMinhashSim_range_sym (sigA sigB : list Z) :
  (0 <= estimateMinhashSim sigA sigB)%Q /\ (estimateMinhashSim sigA sigB <= 1)%Q
  /\ estimateMinhashSim sigA sigB = estimateMinhashSim sigB sigA
  /\ estimateMinhashSim [] sigB = 0%Q /\ estimateMinhashSim sigA [] = 0%Q.
Proof.
  assert (Hempty : estimateMinhashSim sigA [] = 0%Q).
  { unfold estimateMinhashSim. cbn. now rewrite orb_true_r. }
  destruct sigA as [|x A]; [repeat split; try discriminate; now destruct sigB|].
  destruct sigB as [|y B]; [repeat split; discriminate|].
  destruct (estimateMinhashSim_value (x :: A) (y :: B)) as (E & Hpos); [congruence..|].
  destruct (estimateMinhashSim_value (y :: B) (x :: A)) as (E' & _); [congruence..|].
  rewrite E, E'.
  pose proof (sameCount_le (x :: A) (y :: B)).
  destruct (Qratio_unit_interval (Z.of_nat (sameCount (x :: A) (y :: B)))
              (Z.of_nat (Nat.min (length (x :: A)) (length (y :: B)))))  as (H0 & H1); [lia..|].
  repeat split; try assumption; try reflexivity.
  now rewrite sameCount_sym, Nat.min_comm.
Qed.

(** X12: two non-empty signatures have estimate 1 exactly when they agree
    on their first [min(len A, len B)] entries; in particular the estimate of a
    non-empty signature with itself is 1. *)
Theorem estimateMinhashSim_one_iff (sigA sigB : list Z) :
  sigA <> [] -> sigB <> [] ->
  ((estimateMinhashSim sigA sigB == 1)%Q
   <-> firstn (Nat.min (length sigA) (length sigB)) sigA
       = firstn (Nat.min (length sigA) (length sigB)) sigB)
  /\ (estimateMinhashSim sigA sigA == 1)%Q.
Proof.
  intros Ha Hb.
  destruct (estimateMinhashSim_value sigA sigB Ha Hb) as (-> & Hpos).
  destruct (estimateMinhashSim_value sigA sigA Ha Ha) as (-> & Hpos').
  rewrite !Qratio_eq_1 by lia. split.
  - rewrite <- sameCount_full. lia.
  - f_equal. now apply sameCount_full.
Qed.

Lemma estimateMinhashSim_one_iff_witness :
  [1; 2; 3] <> [] /\ [1; 2; 3; 4] <> []
  /\ (Qeq (estimateMinhashSim [1; 2; 3] [1; 2; 3; 4]) 1%Q
      <-> firstn (Nat.min (length [1; 2; 3]) (length [1; 2; 3; 4])) [1; 2; 3]
          = firstn (Nat.min (length [1; 2; 3]) (length [1; 2; 3; 4])) [1; 2; 3; 4])
  /\ Qeq (estimateMinhashSim [1; 2; 3] [1; 2; 3]) 1%Q.
Proof.
  assert (H1 : [1; 2; 3] <> []) by discriminate.
  assert (H2 : [1; 2; 3; 4] <> []) by discriminate.
  split; [exact H1|]. split; [exact H2|].
  exact (estimateMinhashSim_one_iff [1; 2; 3] [1; 2; 3; 4] H1 H2).
Defined.

(** ** [lshBuckets] *)

Lemma upto_0_length (n : Z) : length (upto 0 (n - 1)) = Z.to_nat n.
Proof. unfold upto. rewrite List.length_seq. f_equal. cbn. lia. Qed.

Lemma upto_0_In (n : Z) (b : nat) : In b (upto 0 (n - 1)) <-> Z.of_nat b < n.
Proof. unfold upto. rewrite List.in_seq. cbn. lia. Qed.

Lemma upto_0_nth (n : Z) (b : nat) : Z.of_nat b < n -> nth b (upto 0 (n - 1)) 0%nat = b.
Proof. intros Hb. unfold upto. rewrite List.seq_nth; cbn; lia. Qed.

Lemma arraySlice_firstn {A} (l : list A) (n : nat) (start end_ : Z) :
  0 <= start -> end_ <= Z.of_nat n ->
  arraySlice (firstn n l) start end_ = arraySlice l start end_.
Proof.
  intros Hs He. unfold arraySlice. rewrite List.skipn_firstn_comm, List.firstn_firstn.
  f_equal. lia.
Qed.

Lemma div_nonpos (n b : Z) : 0 <= n -> b <= 0 -> n / b <= 0.
Proof.
  intros Hn Hb. destruct (Z.eq_dec b 0) as [->|Hne]; [now rewrite Z.div_0_r|].
  pose proof (Z.mod_neg_bound n b ltac:(lia)). pose proof (Z.div_mod n b Hne). nia.
Qed.

(** X13: with at least one band and at least as many signature entries as
    bands, [lshBuckets] returns exactly one bucket per band; with fewer entries
    than bands, or no band, it returns none.  The entries after the last full
    band never influence the result. *)
Theorem lshBuckets_bands (sig : list Z) (bands : Z) :
  (1 <= bands <= Z.of_nat (length sig) -> length (lshBuckets sig bands) = Z.to_nat bands)
  /\ (bands <= 0 \/ Z.of_nat (length sig) < bands -> lshBuckets sig bands = [])
  /\ (1 <= bands ->
      lshBuckets sig bands
      = lshBuckets (firstn (Z.to_nat (bands * (Z.of_nat (length sig) / bands))) sig) bands).
Proof.
  unfold lshBuckets. repeat split.
  - intros Hb.
    assert (1 <= Z.of_nat (length sig) / bands) by (apply Z.div_le_lower_bound; lia).
    destruct (Z.leb_spec (Z.of_nat (length sig) / bands) 0); [lia|].
    now rewrite List.length_map, upto_0_length.
  - intros [Hb|Hb].
    + pose proof (div_nonpos (Z.of_nat (length sig)) bands ltac:(lia) Hb).
      destruct (Z.leb_spec (Z.of_nat (length sig) / bands) 0); [reflexivity|lia].
    + destruct (Z.le_gt_cases bands 0) as [Hn|Hp].
      * pose proof (div_nonpos (Z.of_nat (length sig)) bands ltac:(lia) Hn).
        destruct (Z.leb_spec (Z.of_nat (length sig) / bands) 0); [reflexivity|lia].
      * rewrite Z.div_small by lia. reflexivity.
  - intros Hb.
    set (r := Z.of_nat (length sig) / bands).
    assert (Hr0 : 0 <= r) by (apply Z.div_pos; lia).
    assert (Hrb : bands * r <= Z.of_nat (length sig)) by (apply Z.mul_div_le; lia).
    rewrite List.length_firstn, Nat2Z.inj_min, Z2Nat.id by nia.
    rewrite Z.min_l by lia.
    replace (bands * r / bands) with r by (rewrite Z.mul_comm, Z.div_mul; lia).
    destruct (r <=? 0); [reflexivity|].
    apply List.map_ext_in. intros b Hin. apply upto_0_In in Hin.
    cbv zeta. rewrite arraySlice_firstn; [reflexivity|nia|rewrite Z2Nat.id; nia].
Qed.

(** X14: if two signatures of the same length agree on the rows of one
    band, the bucket test of the candidate loop finds a shared bucket. *)
Theorem lshBuckets_shared_band (sigA sigB : list Z) (bands : Z) (b : nat) :
  length sigA = length sigB ->
  Z.of_nat b < bands <= Z.of_nat (length sigA) ->
  arraySlice sigA (Z.of_nat b * (Z.of_nat (length sigA) / bands))
                  (Z.of_nat b * (Z.of_nat (length sigA) / bands)
                   + Z.of_nat (length sigA) / bands)
  = arraySlice sigB (Z.of_nat b * (Z.of_nat (length sigA) / bands))
                    (Z.of_nat b * (Z.of_nat (length sigA) / bands)
                     + Z.of_nat (length sigA) / bands) ->
  existsb (fun x => bool_decide (x ∈ (list_to_set (lshBuckets sigA bands) : gset string)))
          (lshBuckets sigB bands) = true.
Proof.
  intros Hlen Hb Hband.
  assert (Hr : 1 <= Z.of_nat (length sigA) / bands) by (apply Z.div_le_lower_bound; lia).
  unfold lshBuckets. rewrite <- Hlen.
  destruct (Z.leb_spec (Z.of_nat (length sigA) / bands) 0); [lia|].
  set (r := Z.of_nat (length sigA) / bands) in *.
  apply existsb_exists.
  set (bucket := fun sig (b : nat) =>
         toString (Z.of_nat b) +:+ ":" +:+
         sha1hex (toString (Z.of_nat b) +:+ ":" +:+
                  join "-" (map toString
                              (arraySlice sig (Z.of_nat b * r) (Z.of_nat b * r + r))))).
  exists (bucket sigB b). split.
  - apply in_map_iff. exists b. split; [reflexivity|]. apply upto_0_In. lia.
  - apply bool_decide_eq_true, elem_of_list_to_set, list_elem_of_In, in_map_iff.
    exists b. split; [|apply upto_0_In; lia].
    unfold bucket. cbv zeta. now rewrite Hband.
Qed.

Lemma lshBuckets_shared_band_witness :
  existsb (fun x => bool_decide (x ∈ (list_to_set (lshBuckets [1; 2; 3; 4] 2) : gset string)))
          (lshBuckets [1; 2; 9; 9] 2) = true.
Proof.
  apply (lshBuckets_shared_band [1; 2; 3; 4] [1; 2; 9; 9] 2 0);
    [reflexivity|cbn; lia|reflexivity].
Defined.

Lemma makeKgrams_normal_form (a b : string) (k : Z) :
  normalize a = normalize b -> makeKgrams a k = makeKgrams b k.
Proof. intros E. unfold makeKgrams. now rewrite E. Qed.

(** X15: the fingerprints and the MinHash signature depend on a text only
    through its normal form.  Two texts with the same normal form (texts
    that differ in case, punctuation or spacing only) have the same k-grams,
    fingerprints and signature, so their similarity and their MinHash
    estimate are 1 as soon as there is a fingerprint. *)
Theorem same_normal_form_same_fingerprints (a b : string) (k w : Z) (numPerm : nat) :
  normalize a = normalize b ->
  makeKgrams a k = makeKgrams b k
  /\ winnow a k w = winnow b k w
  /\ minhashSignature a k numPerm = minhashSignature b k numPerm
  /\ (winnow a k w <> [] ->
      (fingerprintSimilarity (winnow a k w) (winnow b k w) == 1)%Q)
  /\ ((0 < numPerm)%nat ->
      (estimateMinhashSim (minhashSignature a k numPerm) (minhashSignature b k numPerm) == 1)%Q).
Proof.
  intros E. pose proof (makeKgrams_normal_form a b k E) as Eg.
  assert (Ew : winnow a k w = winnow b k w) by (unfold winnow; now rewrite Eg).
  assert (Es : minhashSignature a k numPerm = minhashSignature b k numPerm)
    by (unfold minhashSignature; now rewrite Eg).
  repeat split; try assumption.
  - intros Hne. rewrite <- Ew. now apply fingerprintSimilarity_self.
  - intros Hn. rewrite <- Es.
    assert (Hs : minhashSignature a k numPerm <> []).
    { intros E0. apply (f_equal (@length Z)) in E0. revert E0.
      unfold minhashSignature. destruct (length _ =? 0)%nat;
        rewrite ?List.repeat_length, ?List.length_map, ?List.length_seq; cbn; lia. }
    destruct (estimateMinhashSim_value _ _ Hs Hs) as (-> & Hpos).
    apply Qratio_eq_1; [lia|]. f_equal. now apply sameCount_full.
Qed.

Lemma same_normal_form_same_fingerprints_witness :
  makeKgrams "Hello, World!" 3 = makeKgrams "hello   world" 3
  /\ winnow "Hello, World!" 3 4 = winnow "hello   world" 3 4
  /\ minhashSignature "Hello, World!" 3 5 = minhashSignature "hello   world" 3 5
  /\ (winnow "Hello, World!" 3 4 <> [] ->
      Qeq (fingerprintSimilarity (winnow "Hello, World!" 3 4) (winnow "hello   world" 3 4)) 1%Q)
  /\ ((0 < 5)%nat ->
      Qeq (estimateMinhashSim (minhashSignature "Hello, World!" 3 5)
                              (minhashSignature "hello   world" 3 5)) 1%Q).
Proof.
  apply (same_normal_form_same_fingerprints "Hello, World!" "hello   world" 3 4 5).
  vm_compute. reflexivity.
Defined.

(** ** [buildMatchSpans] *)

Lemma toString_inj (x y : Z) : toString x = toString y -> x = y.
Proof. intros E. rewrite <- (BigInt_toString x), <- (BigInt_toString y). now rewrite E. Qed.

Lemma toString_eqb (x y : Z) : String.eqb (toString x) (toString y) = (x =? y).
Proof.
  destruct (Z.eqb_spec x y) as [->|Hne]; [apply String.eqb_refl|].
  apply String.eqb_neq. intros E. apply Hne, toString_inj, E.
Qed.

(** [mapB.get(key) ?? []] after the first loop: the positions of the
    fingerprints with that key, in the order of [fpB]. *)
Lemma buildMapB_acc (fpB : list Fingerprint) (m : gmap string (list Z)) (key : string) :
  default []
    (fold_left
       (fun (mapB : gmap string (list Z)) x =>
          let key := toString (hash x) in
          let arr := default [] (mapB !! key) in
          <[key := arr ++ [pos x]]> mapB)
       fpB m !! key)
  = default [] (m !! key)
    ++ map pos (List.filter (fun x => String.eqb (toString (hash x)) key) fpB).
Proof.
  revert m. induction fpB as [|x fpB IH]; intros m; cbn [fold_left List.filter map].
  - now rewrite List.app_nil_r.
  - rewrite IH. cbv zeta.
    destruct (String.eqb_spec (toString (hash x)) key) as [->|Hne].
    + rewrite lookup_insert_eq. cbn. now rewrite <- List.app_assoc.
    + rewrite lookup_insert_ne by exact Hne. reflexivity.
Qed.

Lemma buildMapB_lookup (fpB : list Fingerprint) (hsh : Z) :
  default [] (buildMapB fpB !! toString hsh)
  = map pos (List.filter (fun x => hash x =? hsh) fpB).
Proof.
  unfold buildMapB. rewrite buildMapB_acc, lookup_empty. cbn.
  f_equal. apply List.filter_ext. intros x. apply toString_eqb.
Qed.

Lemma buildMapB_nonempty (fpB : list Fingerprint) (key : string) :
  buildMapB fpB !! key <> Some [].
Proof.
  unfold buildMapB.
  assert (H : forall m : gmap string (list Z), m !! key <> Some [] ->
            fold_left
              (fun (mapB : gmap string (list Z)) x =>
                 let key := toString (hash x) in
                 let arr := default [] (mapB !! key) in
                 <[key := arr ++ [pos x]]> mapB)
              fpB m !! key <> Some []).
  { induction fpB as [|x fpB IH]; intros m Hm; cbn [fold_left]; [exact Hm|].
    apply IH. cbv zeta.
    destruct (String.eqb_spec (toString (hash x)) key) as [->|Hne].
    - rewrite lookup_insert_eq. intros [= E]. now apply List.app_eq_nil in E as (_ & E).
    - now rewrite lookup_insert_ne by exact Hne. }
  apply H. now rewrite lookup_empty.
Qed.

Lemma head_filter_find {A} (f : A -> bool) (g : A -> Z) (l : list A) :
  head (map g (List.filter f l)) = option_map g (find f l).
Proof.
  induction l as [|x l IH]; cbn; [reflexivity|].
  destruct (f x); cbn; [reflexivity|exact IH].
Qed.

(** The raw matches: one per fingerprint of the document whose hash occurs
    in the source, paired with the first source fingerprint of that hash. *)
Lemma rawMatches_matchOf (fpA fpB : list Fingerprint) (m : Match) :
  In m (rawMatches (buildMapB fpB) fpA) <-> matchOf fpA fpB m.
Proof.
  unfold rawMatches, matchOf. rewrite in_flat_map. split.
  - intros (a & Ha & Hm). cbv zeta in Hm.
    pose proof (buildMapB_lookup fpB (hash a)) as Hl.
    pose proof (head_filter_find (fun x => hash x =? hash a) pos fpB) as Hh.
    rewrite <- Hl in Hh.
    destruct (buildMapB fpB !! toString (hash a)) as [[|b0 t]|]; cbn in Hm; try tauto.
    destruct Hm as [<-|[]]. cbn in Hh.
    unfold firstWithHash.
    destruct (find (fun x => hash x =? hash a) fpB) as [b|] eqn:Ef; [|discriminate].
    injection Hh as ->. exists a, b. repeat split; auto.
  - intros (a & b & Ha & Hb & ->). exists a. split; [exact Ha|]. cbv zeta.
    pose proof (buildMapB_lookup fpB (hash a)) as Hl.
    pose proof (head_filter_find (fun x => hash x =? hash a) pos fpB) as Hh.
    rewrite <- Hl in Hh. unfold firstWithHash in Hb. rewrite Hb in Hh. cbn in Hh.
    destruct (buildMapB fpB !! toString (hash a)) as [[|b0 t]|]; cbn in Hh; try discriminate.
    injection Hh as ->. now left.
Qed.

Lemma groupLoop_between (k : Z) (all rest : list Match) (spans : list Span) (cur : Span) :
  (forall m, In m rest -> In m all) ->
  Forall (fun s => exists m m', In m all /\ In m' all /\ spanBetween k m m' s) spans ->
  (exists m m', In m all /\ In m' all /\ spanBetween k m m' cur) ->
  Forall (fun m => exists m', docEnd cur = aPos m' + k /\ aPos m' <= aPos m) rest ->
  StronglySorted (fun x y => aPos x <= aPos y) rest ->
  let (spans', cur') := fold_left (groupStep k) rest (spans, cur) in
  Forall (fun s => exists m m', In m all /\ In m' all /\ spanBetween k m m' s) (spans' ++ [cur']).
Proof.
  revert spans cur. induction rest as [|m rest IH]; intros spans cur Hin Hs Hc Hr Hm; cbn.
  - apply Forall_app. split; [assumption|]. repeat constructor. assumption.
  - inversion Hr as [|? ? (m1 & Hend & Hle) Hr']; subst.
    inversion Hm as [|? ? Hm' Hmr]; subst.
    assert (Hm_all : In m all) by (apply Hin; now left).
    destruct (aPos m <=? docEnd cur + k).
    + apply IH; try assumption.
      * intros x Hx. apply Hin. now right.
      * destruct Hc as (m0 & m0' & H0 & H0' & Hb0 & Hb1 & Hb2 & Hb3 & Hb4 & Hb5).
        exists m0, m. repeat split; cbn; try assumption. lia.
      * cbn. rewrite List.Forall_forall in Hmr |- *. intros x Hx. exists m. split; [reflexivity|].
        now apply Hmr.
    + apply IH; try assumption.
      * intros x Hx. apply Hin. now right.
      * apply Forall_app. split; [assumption|]. repeat constructor. assumption.
      * exists m, m. repeat split; cbn; try assumption; lia.
      * cbn. rewrite List.Forall_forall in Hmr |- *. intros x Hx. exists m. split; [reflexivity|].
        now apply Hmr.
Qed.

Lemma groupSpans_between (k : Z) (sorted : list Match) :
  StronglySorted (fun x y => aPos x <= aPos y) sorted ->
  Forall (fun s => exists m m', In m sorted /\ In m' sorted /\ spanBetween k m m' s)
         (groupSpans k sorted).
Proof.
  intros Hs. unfold groupSpans. destruct sorted as [|m0 rest]; [constructor|].
  inversion Hs as [|? ? Hs' Hm0]; subst.
  pose proof (groupLoop_between k (m0 :: rest) rest [] (openSpan k m0)) as H.
  destruct (fold_left (groupStep k) rest ([], openSpan k m0)) as [spans cur].
  apply H; try assumption.
  - intros m Hm. now right.
  - constructor.
  - exists m0, m0. repeat split; cbn; auto; lia.
  - cbn. rewrite List.Forall_forall in Hm0 |- *. intros x Hx. exists m0. split; [reflexivity|].
    now apply Hm0.
Qed.

(** X16: every span that [buildMatchSpans] returns starts at a fingerprint
    of the document whose hash occurs in the source and ends [k] after
    another such fingerprint further on; its source offsets are those of the
    first source fingerprint with the hash of the one and of the other, and
    [snippet_hash] is the hash of the fingerprint it starts at. *)
Theorem buildMatchSpans_provenance (fpA fpB : list Fingerprint) (k : Z) :
  Forall
    (fun s => exists a b a' b',
       In a fpA /\ In a' fpA
       /\ firstWithHash fpB (hash a) = Some b /\ firstWithHash fpB (hash a') = Some b'
       /\ doc_span_start s = pos a /\ src_span_start s = pos b
       /\ doc_span_end s = pos a' + k /\ src_span_end s = pos b' + k
       /\ snippet_hash s = toString (hash a)
       /\ pos a <= pos a')
    (buildMatchSpans fpA fpB k).
Proof.
  unfold buildMatchSpans. apply List.Forall_map.
  eapply List.Forall_impl; [|apply groupSpans_between, sorted_matches_ordered].
  cbn. intros s (m & m' & Hm & Hm' & H1 & H2 & H3 & H4 & H5 & H6).
  apply (proj1 (sortBy_In aPosAfter m _)), rawMatches_matchOf in Hm.
  apply (proj1 (sortBy_In aPosAfter m' _)), rawMatches_matchOf in Hm'.
  destruct Hm as (a & b & Ha & Hb & ->). destruct Hm' as (a' & b' & Ha' & Hb' & ->).
  cbn in *. exists a, b, a', b'. repeat split; assumption.
Qed.

Lemma firstWithHash_Some (fpB : list Fingerprint) (hsh : Z) :
  (exists b, firstWithHash fpB hsh = Some b) <-> (exists b, In b fpB /\ hash b = hsh).
Proof.
  unfold firstWithHash. split.
  - intros (b & Hb). apply find_some in Hb as (Hin & E). exists b. split; [exact Hin|lia].
  - intros (b & Hin & E). destruct (find _ fpB) as [b'|] eqn:Ef; [eauto|].
    pose proof (find_none _ _ Ef b Hin) as Hn. cbn in Hn. lia.
Qed.

Lemma hashSet_elem (a : list Fingerprint) (x : string) :
  x ∈ hashSet a <-> exists f, In f a /\ x = toString (hash f).
Proof.
  unfold hashSet. rewrite elem_of_list_to_set, list_elem_of_In, in_map_iff.
  split; intros (f & H1 & H2); exists f; auto.
Qed.

Lemma rawMatches_nil (fpA fpB : list Fingerprint) :
  rawMatches (buildMapB fpB) fpA = [] <-> hashSet fpA ∩ hashSet fpB = ∅.
Proof.
  rewrite elem_of_equiv_empty_L. split.
  - intros E x Hx. apply elem_of_intersection in Hx as (Ha & Hb).
    apply hashSet_elem in Ha as (a & Ha & ->). apply hashSet_elem in Hb as (b & Hb & Eh).
    apply toString_inj in Eh.
    destruct (proj2 (firstWithHash_Some fpB (hash a))) as (b' & Hb'); [eauto|].
    assert (Hm : In {| m_hash := toString (hash a); aPos := pos a; bPos := pos b' |}
                    (rawMatches (buildMapB fpB) fpA)).
    { apply rawMatches_matchOf. exists a, b'. auto. }
    rewrite E in Hm. destruct Hm.
  - intros Hdis. destruct (rawMatches (buildMapB fpB) fpA) as [|m l] eqn:E; [reflexivity|].
    assert (Hm : In m (rawMatches (buildMapB fpB) fpA)) by (rewrite E; now left).
    apply rawMatches_matchOf in Hm as (a & b & Ha & Hb & _).
    destruct (proj1 (firstWithHash_Some fpB (hash a))) as (b' & Hb' & Eh); [eauto|].
    exfalso. apply (Hdis (toString (hash a))). apply elem_of_intersection. split.
    + apply hashSet_elem. eauto.
    + apply hashSet_elem. exists b'. split; [exact Hb'|now rewrite Eh].
Qed.

Lemma groupSpans_nil (k : Z) (l : list Match) : groupSpans k l = [] <-> l = [].
Proof.
  unfold groupSpans. destruct l as [|m0 rest]; [tauto|].
  destruct (fold_left (groupStep k) rest ([], openSpan k m0)) as [spans cur].
  split; [|discriminate]. intros E. now apply List.app_eq_nil in E as (_ & E).
Qed.

Lemma sortBy_nil {A} (after : A -> A -> bool) (l : list A) : sortBy after l = [] <-> l = [].
Proof.
  split; [|intros ->; reflexivity].
  intros E. apply (f_equal (@length A)) in E. rewrite sortBy_length in E.
  destruct l; [reflexivity|discriminate].
Qed.

(** X17: [buildMatchSpans] returns no span exactly when the two fingerprint
    lists have no hash in common; for non-empty lists this is exactly when
    their similarity is 0. *)
Theorem buildMatchSpans_empty_iff (fpA fpB : list Fingerprint) (k : Z) :
  (buildMatchSpans fpA fpB k = [] <-> hashSet fpA ∩ hashSet fpB = ∅)
  /\ (fpA <> [] -> fpB <> [] ->
      (buildMatchSpans fpA fpB k = [] <-> (fingerprintSimilarity fpA fpB == 0)%Q)).
Proof.
  assert (H : buildMatchSpans fpA fpB k = [] <-> hashSet fpA ∩ hashSet fpB = ∅).
  { rewrite <- rawMatches_nil. unfold buildMatchSpans.
    rewrite <- (sortBy_nil aPosAfter), <- (groupSpans_nil k).
    split; [apply List.map_eq_nil|intros ->; reflexivity]. }
  split; [exact H|]. intros Ha Hb. rewrite H.
  destruct (fingerprintSimilarity_value fpA fpB Ha Hb) as (-> & Hpos).
  rewrite Qratio_eq_0 by lia. split.
  - intros E. rewrite E, size_empty. reflexivity.
  - intros E. apply leibniz_equiv, size_empty_inv. lia.
Qed.

Lemma groupLoop_separated (k : Z) (rest : list Match) (spans : list Span) (cur : Span) :
  0 <= k ->
  StronglySorted (fun s t => docEnd s + k < docStart t) spans ->
  Forall (fun s => docEnd s + k < docStart cur) spans ->
  docStart cur + k <= docEnd cur ->
  Forall (fun m => docEnd cur <= aPos m + k) rest ->
  StronglySorted (fun x y => aPos x <= aPos y) rest ->
  let (spans', cur') := fold_left (groupStep k) rest (spans, cur) in
  StronglySorted (fun s t => docEnd s + k < docStart t) (spans' ++ [cur']).
Proof.
  intros Hk. revert spans cur.
  induction rest as [|m rest IH]; intros spans cur Hs Hf Hc Hr Hm; cbn.
  - now apply StronglySorted_snoc.
  - inversion Hr as [|? ? Hcm Hr']; subst. inversion Hm as [|? ? Hm' Hmr]; subst.
    destruct (Z.leb_spec (aPos m) (docEnd cur + k)).
    + apply IH; cbn; try assumption; [lia|].
      eapply List.Forall_impl; [|exact Hmr]. cbn. intros; lia.
    + apply IH; cbn; try assumption.
      * now apply StronglySorted_snoc.
      * apply Forall_app. split; [|repeat constructor; lia].
        eapply List.Forall_impl; [|exact Hf]. cbn. intros; lia.
      * lia.
      * eapply List.Forall_impl; [|exact Hmr]. cbn. intros; lia.
Qed.

Lemma groupLoop_cover (k : Z) (rest : list Match) (spans : list Span) (cur : Span) :
  docStart cur + k <= docEnd cur ->
  Forall (fun m => docEnd cur <= aPos m + k) rest ->
  StronglySorted (fun x y => aPos x <= aPos y) rest ->
  let (spans', cur') := fold_left (groupStep k) rest (spans, cur) in
  (forall s, In s (spans ++ [cur]) ->
             exists s', In s' (spans' ++ [cur']) /\ docStart s' = docStart s
                        /\ docEnd s <= docEnd s')
  /\ (forall m, In m rest ->
                exists s', In s' (spans' ++ [cur']) /\ docStart s' <= aPos m
                           /\ aPos m + k <= docEnd s')
  /\ (length (spans' ++ [cur']) <= length (spans ++ [cur]) + length rest)%nat.
Proof.
  revert spans cur. induction rest as [|m rest IH]; intros spans cur Hc Hr Hm; cbn.
  - split; [|split; [tauto|lia]]. intros s Hs. exists s. split; [exact Hs|lia].
  - inversion Hr as [|? ? Hcm Hr']; subst. inversion Hm as [|? ? Hm' Hmr]; subst.
    destruct (Z.leb_spec (aPos m) (docEnd cur + k)).
    + set (cur1 := {| docStart := docStart cur; docEnd := aPos m + k;
                      srcStart := srcStart cur; srcEnd := bPos m + k; s_hash := s_hash cur |}).
      specialize (IH spans cur1).
      destruct (fold_left (groupStep k) rest (spans, cur1)) as [spans' cur'].
      destruct IH as (Ha & Hb & Hl); cbn; try assumption; [lia| |].
      { eapply List.Forall_impl; [|exact Hmr]. cbn. intros; lia. }
      assert (Hcur : exists s', In s' (spans' ++ [cur']) /\ docStart s' = docStart cur
                                /\ aPos m + k <= docEnd s').
      { destruct (Ha cur1) as (s' & H1 & H2 & H3); [apply in_or_app; right; now left|].
        exists s'. auto. }
      split; [|split].
      * intros s Hs. apply in_app_or in Hs as [Hs|[<-|[]]].
        -- apply Ha. apply in_or_app. now left.
        -- destruct Hcur as (s' & H1 & H2 & H3). exists s'. repeat split; [assumption..|lia].
      * intros m' [<-|Hin]; [|now apply Hb].
        destruct Hcur as (s' & H1 & H2 & H3). exists s'. repeat split; [assumption|lia|lia].
      * rewrite !List.length_app in *. cbn in *. lia.
    + specialize (IH (spans ++ [cur]) (openSpan k m)).
      destruct (fold_left (groupStep k) rest (spans ++ [cur], openSpan k m)) as [spans' cur'].
      destruct IH as (Ha & Hb & Hl); cbn; try assumption; [lia| |].
      { eapply List.Forall_impl; [|exact Hmr]. cbn. intros; lia. }
      split; [|split].
      * intros s Hs. apply Ha. apply in_or_app. now left.
      * intros m' [<-|Hin]; [|now apply Hb].
        destruct (Ha (openSpan k m)) as (s' & H1 & H2 & H3);
          [apply in_or_app; right; now left|].
        cbn in H2, H3. exists s'. repeat split; [assumption|lia|lia].
      * rewrite !List.length_app in *. cbn in *. lia.
Qed.

Lemma rawMatches_length (mapB : gmap string (list Z)) (fpA : list Fingerprint) :
  (length (rawMatches mapB fpA) <= length fpA)%nat.
Proof.
  unfold rawMatches. induction fpA as [|a fpA IH]; cbn; [lia|].
  rewrite List.length_app.
  destruct (mapB !! toString (hash a)) as [[|b0 t]|]; cbn; lia.
Qed.

(** X18: for [k >= 0] the spans of [buildMatchSpans] are pairwise disjoint
    and in document order, each one starting more than [k] after the end of
    the one before; every fingerprint of the document whose hash occurs in the
    source lies inside one of the spans; and there are at most as many spans as
    the document has fingerprints. *)
Theorem buildMatchSpans_separated_cover (fpA fpB : list Fingerprint) (k : Z) :
  0 <= k ->
  StronglySorted (fun s t => doc_span_end s + k < doc_span_start t)
                 (buildMatchSpans fpA fpB k)
  /\ (forall a b, In a fpA -> In b fpB -> hash a = hash b ->
        exists s, In s (buildMatchSpans fpA fpB k)
                  /\ doc_span_start s <= pos a /\ pos a + k <= doc_span_end s)
  /\ (length (buildMatchSpans fpA fpB k) <= length fpA)%nat.
Proof.
  intros Hk. unfold buildMatchSpans.
  set (docLen := if (length fpA =? 0)%nat then 1 else Z.of_nat (length fpA)).
  set (sorted := sortBy aPosAfter (rawMatches (buildMapB fpB) fpA)).
  pose proof (sorted_matches_ordered (rawMatches (buildMapB fpB) fpA)) as Hs.
  fold sorted in Hs.
  assert (Hlen : (length sorted <= length fpA)%nat).
  { unfold sorted. rewrite sortBy_length. apply rawMatches_length. }
  assert (Hin : forall m, In m sorted <-> matchOf fpA fpB m).
  { intros m. unfold sorted. rewrite sortBy_In. apply rawMatches_matchOf. }
  clearbody sorted.
  assert (Hsep : StronglySorted (fun s t => docEnd s + k < docStart t) (groupSpans k sorted)).
  { unfold groupSpans. destruct sorted as [|m0 rest]; [constructor|].
    inversion Hs as [|? ? Hs' Hm0]; subst.
    pose proof (groupLoop_separated k rest [] (openSpan k m0) Hk) as H.
    destruct (fold_left (groupStep k) rest ([], openSpan k m0)) as [spans cur].
    apply H; cbn; [constructor|constructor|lia| |exact Hs'].
    eapply List.Forall_impl; [|exact Hm0]. cbn. intros; lia. }
  assert (Hcov : (forall m, In m sorted ->
                    exists s, In s (groupSpans k sorted) /\ docStart s <= aPos m
                              /\ aPos m + k <= docEnd s)
                 /\ (length (groupSpans k sorted) <= length sorted)%nat).
  { unfold groupSpans. destruct sorted as [|m0 rest]; [split; [intros m []|cbn; lia]|].
    inversion Hs as [|? ? Hs' Hm0]; subst.
    pose proof (groupLoop_cover k rest [] (openSpan k m0)) as H.
    destruct (fold_left (groupStep k) rest ([], openSpan k m0)) as [spans cur].
    destruct H as (Ha & Hb & Hl); cbn; [lia| |exact Hs'|].
    { eapply List.Forall_impl; [|exact Hm0]. cbn. intros; lia. }
    split; [|cbn in Hl; cbn; lia].
    intros m [<-|Hm]; [|now apply Hb].
    destruct (Ha (openSpan k m0)) as (s' & H1 & H2 & H3); [now left|].
    cbn in H2, H3. exists s'. repeat split; [assumption|lia|lia]. }
  destruct Hcov as (Hcov & Hcount).
  split; [|split].
  - apply StronglySorted_map. exact Hsep.
  - intros a b Ha Hb Eh.
    destruct (proj2 (firstWithHash_Some fpB (hash a))) as (b' & Hb'); [eauto|].
    destruct (Hcov {| m_hash := toString (hash a); aPos := pos a; bPos := pos b' |})
      as (s & Hs1 & Hs2 & Hs3).
    { apply Hin. exists a, b'. auto. }
    exists (toMatchSpan docLen k s). split; [now apply in_map|]. cbn in *. lia.
  - rewrite List.length_map. lia.
Qed.

Lemma buildMatchSpans_separated_cover_witness :
  0 <= 5
  /\ StronglySorted (fun s t => doc_span_end s + 5 < doc_span_start t)
       (buildMatchSpans (winnow "hello world" 5 1) (winnow "a world of hello" 5 1) 5)
  /\ (forall a b, In a (winnow "hello world" 5 1) -> In b (winnow "a world of hello" 5 1) ->
        hash a = hash b ->
        exists s, In s (buildMatchSpans (winnow "hello world" 5 1)
                                        (winnow "a world of hello" 5 1) 5)
                  /\ doc_span_start s <= pos a /\ pos a + 5 <= doc_span_end s)
  /\ (length (buildMatchSpans (winnow "hello world" 5 1) (winnow "a world of hello" 5 1) 5)
      <= length (winnow "hello world" 5 1))%nat.
Proof.
  split; [lia|].
  apply (buildMatchSpans_separated_cover (winnow "hello world" 5 1)
           (winnow "a world of hello" 5 1) 5).
  lia.
Defined.

(** ** The check route: the outcomes of a request *)

Lemma insertId_freshKey (ids : list Z) : freshKey ids (insertId ids).
Proof. intros y Hy. now apply insertId_fresh. Qed.

Lemma insertCheckMatch_frame (resultId : Z) (ms : list PendingMatch.t) (db : Database) :
  algoritma_params (fold_left (insertCheckMatch resultId) ms db) = algoritma_params db
  /\ user_document (fold_left (insertCheckMatch resultId) ms db) = user_document db
  /\ exists rows,
       check_match (fold_left (insertCheckMatch resultId) ms db) = check_match db ++ rows
       /\ map pendingOfRow rows = ms
       /\ StronglySorted Z.lt (map CheckMatch.id_match rows)
       /\ Forall (fun m => freshKey (map CheckMatch.id_match (check_match db))
                                    (CheckMatch.id_match m)) rows.
Proof.
  revert db. induction ms as [|m ms IH]; intros db; cbn [fold_left].
  - repeat split. exists []. rewrite List.app_nil_r. repeat split; constructor.
  - destruct (IH (insertCheckMatch resultId db m)) as (Hp & Hu & rows & E & Hm & Hs & Hf).
    split; [exact Hp|]. split; [exact Hu|].
    cbn [insertCheckMatch check_match] in E, Hf. rewrite <- List.app_assoc in E. cbn in E.
    eexists (_ :: rows). split; [exact E|].
    split; [cbn; rewrite Hm; f_equal; destruct m; reflexivity|].
    assert (Hall : Forall (fun r => insertId (map CheckMatch.id_match (check_match db))
                                    < CheckMatch.id_match r
                                    /\ freshKey (map CheckMatch.id_match (check_match db))
                                                (CheckMatch.id_match r)) rows).
    { eapply List.Forall_impl; [|exact Hf]. cbn. intros r Hr. split.
      - apply Hr. rewrite List.map_app. apply in_or_app. right. now left.
      - intros y Hy. apply Hr. rewrite List.map_app. apply in_or_app. now left. }
    split.
    + cbn. constructor; [exact Hs|]. apply List.Forall_map.
      eapply List.Forall_impl; [|exact Hall]. cbn. tauto.
    + constructor; [cbn; apply insertId_freshKey|].
      eapply List.Forall_impl; [|exact Hall]. cbn. tauto.
Qed.

(** Every request ends in one of the three outcomes. *)
Lemma postChecks_outcome (now : Z) (fs : FileSystem) (db : Database) (user : Z)
    (ip : option string) (body : Body) :
  Outcome now fs db user ip body
    (fst (postChecks now fs db user ip body)) (snd (postChecks now fs db user ip body)).
Proof.
  unfold postChecks.
  destruct (body_doc_id body) as [docId|] eqn:Hbody; cbn [fst snd];
    [|apply Rejected; [left; reflexivity|reflexivity]].
  destruct (Z.leb_spec docId 0) as [Hle|Hpos]; cbn [fst snd];
    [apply Rejected; [left; reflexivity|reflexivity]|].
  destruct (getActiveParams now db) as [params|] eqn:Hparams; cbn [fst snd];
    [|apply Rejected; [right; left; reflexivity|reflexivity]].
  destruct (find _ (user_document db)) as [doc|] eqn:Hdoc; cbn [fst snd];
    [|apply Rejected; [right; right; reflexivity|reflexivity]].
  assert (Hreach : reachesTextLoad now db user body params doc).
  { exists docId. repeat split; assumption. }
  cbv zeta.
  destruct (tooShort (readTextSafe fs (UserDocument.path_text doc)) (AlgoritmaParams.k params))
    eqn:Hshort; cbn [fst snd].
  - eapply (Failed _ _ _ _ _ _ _ _ params doc docId); try eassumption; try reflexivity.
    erewrite (finishCheckRequest_new _ (check_request db)); [|reflexivity..].
    reflexivity.
  - change (runPipeline fs _ _ _ _ (selectActiveCorpus _) _)
      with (pipelineOf fs db body params doc).
    set (p := pipelineOf fs db body params doc).
    match goal with
    | |- context [fold_left (insertCheckMatch ?rid) (matchesToInsert p) ?db3] =>
        destruct (insertCheckMatch_all rid (matchesToInsert p) db3)
          as ((rows0 & E0 & _ & Hrid) & Hreq & Hres & Hlog & Hcorpus);
        destruct (insertCheckMatch_frame rid (matchesToInsert p) db3)
          as (Hpar & Husr & rows & E & Hm & Hs & Hf);
        set (db4 := fold_left (insertCheckMatch rid) (matchesToInsert p) db3) in *
    end.
    rewrite E in E0. apply List.app_inv_head in E0. subst rows0.
    eapply (Completed _ _ _ _ _ _ _ _ params doc docId _ _ rows);
      try reflexivity; try eassumption.
    + split; assumption.
    + cbn [audit check_request].
      erewrite (finishCheckRequest_new db4 (check_request db)); [|exact Hreq|reflexivity..].
      reflexivity.
    + cbn [audit finishCheckRequest audit_log]. rewrite Hlog.
      cbn [insertCheckResult audit insertCheckRequest audit_log].
      now rewrite <- List.app_assoc.
Qed.

Lemma reachesTextLoad_owner (now : Z) (db : Database) (user : Z) (body : Body)
    (params : AlgoritmaParams.t) (doc : UserDocument.t) :
  reachesTextLoad now db user body params doc ->
  In doc (user_document db)
  /\ body_doc_id body = Some (UserDocument.id_doc doc)
  /\ UserDocument.owner_user_id doc = user.
Proof.
  intros (docId & Hbody & _ & _ & Hdoc). apply find_some in Hdoc as (Hin & E).
  apply andb_true_iff in E as (E1 & E2). apply Z.eqb_eq in E1, E2.
  split; [exact Hin|]. split; [now rewrite Hbody, E1|exact E2].
Qed.

(** X19: a request for a document that the caller does not own (or that
    does not exist) is turned away and leaves every table as it was. *)
Theorem postChecks_foreign_document_rejected (now : Z) (fs : FileSystem) (db : Database)
    (user : Z) (ip : option string) (body : Body) :
  (forall d, In d (user_document db) ->
             body_doc_id body = Some (UserDocument.id_doc d) ->
             UserDocument.owner_user_id d <> user) ->
  rejected (fst (postChecks now fs db user ip body))
  /\ snd (postChecks now fs db user ip body) = db.
Proof.
  intros Hforeign.
  destruct (postChecks_outcome now fs db user ip body)
    as [Hr Hdb|params doc docId checkId Hreach|params doc docId checkId resultId rows [Hreach _]].
  - split; assumption.
  - apply reachesTextLoad_owner in Hreach as (Hin & Hid & Ho).
    destruct (Hforeign doc Hin Hid Ho).
  - apply reachesTextLoad_owner in Hreach as (Hin & Hid & Ho).
    destruct (Hforeign doc Hin Hid Ho).
Qed.

Lemma postChecks_foreign_document_rejected_witness :
  (forall d, In d (user_document sampleDb) ->
             body_doc_id (sampleBody 1) = Some (UserDocument.id_doc d) ->
             UserDocument.owner_user_id d <> 8)
  /\ rejected (fst (postChecks 100 sampleFs sampleDb 8 None (sampleBody 1)))
  /\ snd (postChecks 100 sampleFs sampleDb 8 None (sampleBody 1)) = sampleDb.
Proof.
  assert (H : forall d, In d (user_document sampleDb) ->
                        body_doc_id (sampleBody 1) = Some (UserDocument.id_doc d) ->
                        UserDocument.owner_user_id d <> 8).
  { intros d [<-|[<-|[]]] _; cbn; lia. }
  split; [exact H|].
  exact (postChecks_foreign_document_rejected 100 sampleFs sampleDb 8 None (sampleBody 1) H).
Defined.

Lemma NoDup_app_fresh (ids new : list Z) :
  List.NoDup ids -> StronglySorted Z.lt new -> Forall (freshKey ids) new ->
  List.NoDup (ids ++ new).
Proof.
  intros Hnd Hs Hf. induction Hs as [|x new Hs IH Hx].
  - now rewrite List.app_nil_r.
  - inversion Hf as [|? ? Hfx Hf']; subst.
    apply (Permutation_NoDup (l := x :: ids ++ new)); [apply Permutation_middle|].
    constructor; [|apply IH, Hf'].
    intros Hin. apply in_app_or in Hin as [Hin|Hin].
    + specialize (Hfx x Hin). lia.
    + rewrite List.Forall_forall in Hx. specialize (Hx x Hin). lia.
Qed.

(** X20: a request only appends.  The tables [algoritma_params],
    [user_document] and [corpus_document] are never written; the rows that
    were in [check_request], [check_result], [check_match] and [audit_log]
    stay as they were, at most one request and one result are added, match
    rows only together with a result, and one audit entry per request or
    result row; unique keys stay unique. *)
Theorem postChecks_append_only (now : Z) (fs : FileSystem) (db : Database)
    (user : Z) (ip : option string) (body : Body) :
  algoritma_params (snd (postChecks now fs db user ip body)) = algoritma_params db
  /\ user_document (snd (postChecks now fs db user ip body)) = user_document db
  /\ corpus_document (snd (postChecks now fs db user ip body)) = corpus_document db
  /\ (exists reqs ress ms logs,
        check_request (snd (postChecks now fs db user ip body)) = check_request db ++ reqs
        /\ check_result (snd (postChecks now fs db user ip body)) = check_result db ++ ress
        /\ check_match (snd (postChecks now fs db user ip body)) = check_match db ++ ms
        /\ audit_log (snd (postChecks now fs db user ip body)) = audit_log db ++ logs
        /\ (length ress <= length reqs <= 1)%nat
        /\ (ress = [] -> ms = [])
        /\ length logs = (length reqs + length ress)%nat)
  /\ (List.NoDup (map CheckRequest.id_check (check_request db)) ->
      List.NoDup (map CheckRequest.id_check
                    (check_request (snd (postChecks now fs db user ip body)))))
  /\ (List.NoDup (map CheckResult.id_result (check_result db)) ->
      List.NoDup (map CheckResult.id_result
                    (check_result (snd (postChecks now fs db user ip body)))))
  /\ (List.NoDup (map CheckMatch.id_match (check_match db)) ->
      List.NoDup (map CheckMatch.id_match
                    (check_match (snd (postChecks now fs db user ip body))))).
Proof.
  assert (Hone : forall ids, List.NoDup ids -> List.NoDup (ids ++ [insertId ids])).
  { intros ids Hnd. apply NoDup_app_fresh; [exact Hnd|repeat constructor|].
    repeat constructor. apply insertId_freshKey. }
  destruct (postChecks_outcome now fs db user ip body)
    as [Hr ->
       |params doc docId checkId _ _ _ _ -> -> -> -> -> -> -> ->
       |params doc docId checkId resultId rows _ _ _ -> -> -> -> -> -> -> -> Hm _ Hs Hf ->].
  - repeat split; try tauto.
    exists [], [], [], []. rewrite !List.app_nil_r. repeat split; cbn; lia.
  - repeat split; try tauto.
    + exists [finishedRequest (insertId (map CheckRequest.id_check (check_request db)))
                user docId (AlgoritmaParams.id_params params) failed now],
             [], [], [createdAudit user (insertId (map CheckRequest.id_check (check_request db))) ip].
      rewrite !List.app_nil_r. repeat split; cbn; lia.
    + intros Hnd. rewrite List.map_app. cbn. now apply Hone.
  - repeat split.
    + do 4 eexists. repeat split; try reflexivity; cbn; try lia. discriminate.
    + intros Hnd. rewrite List.map_app. cbn. now apply Hone.
    + intros Hnd. rewrite List.map_app. cbn. now apply Hone.
    + intros Hnd. rewrite List.map_app. apply NoDup_app_fresh; [exact Hnd|exact Hs|].
      apply List.Forall_map. exact Hf.
Qed.

(** X21: the audit entries of a request follow from its response: a
    [CREATE_CHECK_REQUEST] entry and then a [CHECK_COMPLETED] entry for a 201,
    naming the keys of the response; the [CREATE_CHECK_REQUEST] entry alone
    when the text is too short; none when the request is turned away. *)
Theorem postChecks_audit_trail (now : Z) (fs : FileSystem) (db : Database)
    (user : Z) (ip : option string) (body : Body) :
  insertedAudit db (snd (postChecks now fs db user ip body))
  = match fst (postChecks now fs db user ip body) with
    | Json201 checkId resultId _ _ _ _ =>
        [createdAudit user checkId ip; completedAudit user resultId ip]
    | Json400 message =>
        if String.eqb message tooShortMessage
        then [createdAudit user (insertId (map CheckRequest.id_check (check_request db))) ip]
        else []
    | Json404 _ => []
    end.
Proof.
  unfold insertedAudit.
  destruct (postChecks_outcome now fs db user ip body)
    as [Hr ->
       |params doc docId checkId _ _ _ -> -> _ _ _ _ _ _ ->
       |params doc docId checkId resultId rows _ _ -> _ _ _ _ _ _ _ _ _ _ _ _ ->].
  - rewrite skipn_length_all. destruct Hr as [->|[->| ->]]; reflexivity.
  - rewrite skipn_length_app. reflexivity.
  - rewrite skipn_length_app. reflexivity.
Qed.

(** X22: a 201 response names the rows that were written.  [check_id] is
    the key of the one new request row, which is [done] and carries the
    caller, a document the caller owns and the active parameters;
    [result_id] is the key of the one new result row, which points to that
    request and stores the similarity of the response; every new match row
    points to that result, and [matches_inserted] counts them.  Both keys are
    above all keys that were in their tables. *)
Theorem postChecks_created_links (now : Z) (fs : FileSystem) (db : Database)
    (user : Z) (ip : option string) (body : Body)
    (checkId resultId : Z) (similarity threshold : Q) (candidatesCount matchesInserted : Z) :
  fst (postChecks now fs db user ip body)
  = Json201 checkId resultId similarity threshold candidatesCount matchesInserted ->
  (exists doc params,
     In doc (user_document db) /\ UserDocument.owner_user_id doc = user
     /\ body_doc_id body = Some (UserDocument.id_doc doc)
     /\ getActiveParams now db = Some params
     /\ threshold = AlgoritmaParams.threshold params
     /\ insertedRequests db (snd (postChecks now fs db user ip body))
        = [finishedRequest checkId user (UserDocument.id_doc doc)
             (AlgoritmaParams.id_params params) done now])
  /\ (exists res,
        insertedResults db (snd (postChecks now fs db user ip body)) = [res]
        /\ CheckResult.id_result res = resultId /\ CheckResult.check_id res = checkId
        /\ CheckResult.similarity res = similarity
        /\ CheckResult.report_path res = None /\ CheckResult.created_at res = now)
  /\ Forall (fun m => CheckMatch.result_id m = resultId)
            (insertedMatches db (snd (postChecks now fs db user ip body)))
  /\ matchesInserted
     = Z.of_nat (length (insertedMatches db (snd (postChecks now fs db user ip body))))
  /\ freshKey (map CheckRequest.id_check (check_request db)) checkId
  /\ freshKey (map CheckResult.id_result (check_result db)) resultId.
Proof.
  intros Hresp. unfold insertedRequests, insertedResults, insertedMatches.
  destruct (postChecks_outcome now fs db user ip body)
    as [Hr _
       |params doc docId checkId' _ _ _ Hr _ _ _ _ _ _ _ _
       |params doc docId checkId' resultId' rows Hreach Hbody Hr -> -> _ _ _ -> -> -> Hm Hrid _ _ _].
  - rewrite Hresp in Hr. destruct Hr as [Hr|[Hr|Hr]]; discriminate Hr.
  - rewrite Hresp in Hr. discriminate Hr.
  - rewrite Hresp in Hr. injection Hr as -> -> -> -> -> ->.
    destruct Hreach as (Hload & _).
    pose proof (reachesTextLoad_owner _ _ _ _ _ _ Hload) as (Hin & Hid & Ho).
    destruct Hload as (docId' & Hbody' & _ & Hparams & _).
    rewrite Hbody in Hid. injection Hid as ->.
    rewrite !skipn_length_app. split; [|split; [|split; [|split; [|split]]]].
    + exists doc, params. repeat split; assumption.
    + eexists. repeat split.
    + exact Hrid.
    + now rewrite <- Hm, List.length_map.
    + apply insertId_freshKey.
    + apply insertId_freshKey.
Qed.

Lemma postChecks_created_links_witness :
  fst (postChecks 100 sampleFs sampleDb 7 None (sampleBody 1))
  = Json201 1 1 (10000 # 100)%Q (8 # 10)%Q 2 4
  /\ Forall (fun m => CheckMatch.result_id m = 1)
            (insertedMatches sampleDb (snd (postChecks 100 sampleFs sampleDb 7 None (sampleBody 1))))
  /\ 4 = Z.of_nat (length (insertedMatches sampleDb
                             (snd (postChecks 100 sampleFs sampleDb 7 None (sampleBody 1))))).
Proof.
  assert (H : fst (postChecks 100 sampleFs sampleDb 7 None (sampleBody 1))
              = Json201 1 1 (10000 # 100)%Q (8 # 10)%Q 2 4)
    by (rewrite sample_run_eq; reflexivity).
  split; [exact H|].
  destruct (postChecks_created_links 100 sampleFs sampleDb 7 None (sampleBody 1)
              1 1 (10000 # 100)%Q (8 # 10)%Q 2 4 H) as (_ & _ & Hrid & Hcount & _).
  split; [exact Hrid|exact Hcount].
Defined.

(** ** The verification loop *)

Lemma candidateSim_bounds (fs : FileSystem) (k w : Z) (fpDoc : list Fingerprint)
    (c : CorpusDocument.t) :
  (0 <= candidateSim fs k w fpDoc c)%Q /\ (candidateSim fs k w fpDoc c <= 1)%Q.
Proof. apply fingerprintSimilarity_bounds. Qed.

Lemma verifyLoop_best (fs : FileSystem) (k w : Z) (threshold : Q)
    (corpusRows : list CorpusDocument.t) (fpDoc : list Fingerprint)
    (cands : list Candidate.t) (acc : list PendingMatch.t) (best : Q) :
  let best' := snd (fold_left (verifyStep fs k w threshold corpusRows fpDoc) cands (acc, best)) in
  (best <= best')%Q
  /\ (forall cand c, In cand cands ->
        findCorpus corpusRows (Candidate.id_corpus cand) = Some c ->
        (candidateSim fs k w fpDoc c <= best')%Q)
  /\ (best' = best
      \/ exists cand c, In cand cands
           /\ findCorpus corpusRows (Candidate.id_corpus cand) = Some c
           /\ best' = candidateSim fs k w fpDoc c).
Proof.
  cbn zeta. revert acc best.
  induction cands as [|x cands IH]; intros acc best; cbn [fold_left].
  - cbn. split; [lra|]. split; [intros ? ? []|now left].
  - destruct (findCorpus corpusRows (Candidate.id_corpus x)) as [cx|] eqn:Ex.
    + set (best1 := if Qlt_le_dec best (candidateSim fs k w fpDoc cx)
                    then candidateSim fs k w fpDoc cx else best).
      assert (Hstep : verifyStep fs k w threshold corpusRows fpDoc (acc, best) x
                      = (acc ++ candidateMatches fs k w threshold fpDoc x cx, best1)).
      { unfold verifyStep. now rewrite Ex. }
      rewrite Hstep.
      assert (H1 : (best <= best1)%Q /\ (candidateSim fs k w fpDoc cx <= best1)%Q
                   /\ (best1 = best \/ best1 = candidateSim fs k w fpDoc cx)).
      { unfold best1. destruct (Qlt_le_dec best (candidateSim fs k w fpDoc cx));
          repeat split; auto; lra. }
      destruct H1 as (Hb & Hc & Hv).
      destruct (IH (acc ++ candidateMatches fs k w threshold fpDoc x cx) best1)
        as (Hle & Hall & Hex).
      split; [lra|]. split.
      * intros cand c [<-|Hin] Hf.
        -- rewrite Ex in Hf. injection Hf as <-. lra.
        -- now apply (Hall cand c).
      * destruct Hex as [E|(cand & c & Hin & Hf & E)].
        -- destruct Hv as [Hv|Hv]; [left; congruence|].
           right. exists x, cx. split; [now left|]. split; [exact Ex|congruence].
        -- right. exists cand, c. split; [now right|]. auto.
    + assert (Hstep : verifyStep fs k w threshold corpusRows fpDoc (acc, best) x = (acc, best)).
      { unfold verifyStep. now rewrite Ex. }
      rewrite Hstep.
      destruct (IH acc best) as (Hle & Hall & Hex).
      split; [exact Hle|]. split.
      * intros cand c [<-|Hin] Hf; [congruence|now apply (Hall cand c)].
      * destruct Hex as [E|(cand & c & Hin & Hf & E)]; [now left|].
        right. exists cand, c. split; [now right|]. auto.
Qed.

Lemma runPipeline_bestSim (fs : FileSystem) (k w : Z) (threshold : Q) (docText : string)
    (corpusRows : list CorpusDocument.t) (maxCandidates : Z) :
  bestSim (runPipeline fs k w threshold docText corpusRows maxCandidates)
  = snd (fold_left (verifyStep fs k w threshold corpusRows (winnow docText k w))
           (candidates (runPipeline fs k w threshold docText corpusRows maxCandidates))
           ([], 0%Q)).
Proof.
  unfold runPipeline.
  destruct (fold_left _ _ ([], 0%Q)) as [ms best] eqn:E. cbn [bestSim candidates].
  now rewrite E.
Qed.


Lemma round_bounds (x : Q) :
  (inject_Z (round x) <= x + (1 # 2))%Q /\ (x - (1 # 2) < inject_Z (round x))%Q.
Proof.
  unfold round. pose proof (Qfloor_le (x + (1 # 2))) as H1.
  pose proof (Qlt_floor (x + (1 # 2))) as H2.
  rewrite inject_Z_plus in H2. change (inject_Z 1) with 1%Q in H2.
  split; [exact H1|]. lra.
Qed.

Lemma similarityPercent_bounds (b : Q) :
  (0 <= b)%Q -> (b <= 1)%Q ->
  (0 <= similarityPercent b)%Q /\ (similarityPercent b <= 100)%Q
  /\ (100 * b - (1 # 200) < similarityPercent b)%Q
  /\ (similarityPercent b <= 100 * b + (1 # 200))%Q.
Proof.
  intros H0 H1. unfold similarityPercent.
  destruct (round_bounds (b * 10000)) as (Hu & Hl).
  set (n := round (b * 10000)) in *. clearbody n.
  assert (Hlo : (-1 < inject_Z n)%Q) by (clear Hu; revert Hl; generalize (inject_Z n); intros; lra).
  assert (Hhi : (inject_Z n < 10001)%Q) by (clear Hl; revert Hu; generalize (inject_Z n); intros; lra).
  assert (Hn : 0 <= n <= 10000).
  { unfold Qlt in Hlo, Hhi. cbn in Hlo, Hhi. lia. }
  assert (E : (inject_Z n / 100 == inject_Z n * (1 # 100))%Q) by (field; discriminate).
  rewrite E.
  assert (Hq0 : (0 <= inject_Z n)%Q) by (unfold Qle; cbn; lia).
  assert (Hq1 : (inject_Z n <= 10000)%Q) by (unfold Qle; cbn; lia).
  clear E Hn Hlo Hhi. generalize dependent (inject_Z n). intros q Hu Hl Hq0 Hq1.
  repeat split; lra.
Qed.

Lemma runPipeline_best_bounds (fs : FileSystem) (k w : Z) (threshold : Q) (docText : string)
    (corpusRows : list CorpusDocument.t) (maxCandidates : Z) :
  (0 <= bestSim (runPipeline fs k w threshold docText corpusRows maxCandidates))%Q
  /\ (bestSim (runPipeline fs k w threshold docText corpusRows maxCandidates) <= 1)%Q
  /\ (candidates (runPipeline fs k w threshold docText corpusRows maxCandidates) = [] ->
      bestSim (runPipeline fs k w threshold docText corpusRows maxCandidates) = 0%Q).
Proof.
  rewrite (runPipeline_bestSim fs k w threshold docText corpusRows maxCandidates).
  set (p := runPipeline fs k w threshold docText corpusRows maxCandidates).
  destruct (verifyLoop_best fs k w threshold corpusRows (winnow docText k w)
              (candidates p) [] 0%Q) as (Hle & Hall & Hex).
  set (best := snd (fold_left _ (candidates p) ([], 0%Q))) in *.
  split; [exact Hle|]. split.
  - destruct Hex as [->|(cand & c & _ & _ & ->)]; [lra|apply candidateSim_bounds].
  - intros Hnil. destruct Hex as [E|(cand & c & Hin & _)]; [exact E|].
    rewrite Hnil in Hin. destruct Hin.
Qed.


(** ** The size of a run *)

Lemma slice0_length {A} (l : list A) (n : Z) :
  (length (slice0 l n) <= length l)%nat
  /\ (0 <= n -> Z.of_nat (length (slice0 l n)) <= n).
Proof.
  unfold slice0. destruct (Z.ltb_spec n 0); rewrite List.length_firstn; lia.
Qed.

Lemma flat_map_length_le {A B} (f : A -> list B) (c : nat) (l : list A) :
  (forall x, (length (f x) <= c)%nat) -> (length (flat_map f l) <= c * length l)%nat.
Proof.
  intros Hf. induction l as [|x l IH]; cbn; [lia|].
  rewrite List.length_app. specialize (Hf x). lia.
Qed.

Lemma scoreCandidates_length (fs : FileSystem) (k : Z) (sigDoc : list Z)
    (bucketsDoc : gset string) (corpusRows : list CorpusDocument.t) :
  (length (scoreCandidates fs k sigDoc bucketsDoc corpusRows) <= length corpusRows)%nat.
Proof.
  unfold scoreCandidates.
  etransitivity; [apply (flat_map_length_le _ 1)|lia].
  intros c. cbv zeta. destruct (tooShort _ k); [cbn; lia|]. destruct (negb _); cbn; lia.
Qed.

Lemma candidateBlock_length (fs : FileSystem) (k w : Z) (threshold : Q)
    (corpusRows : list CorpusDocument.t) (fpDoc : list Fingerprint) (cand : Candidate.t) :
  (length (candidateBlock fs k w threshold corpusRows fpDoc cand) <= 50)%nat.
Proof.
  unfold candidateBlock, candidateMatches.
  destruct (findCorpus corpusRows (Candidate.id_corpus cand)) as [c|]; [|cbn; lia].
  destruct (Qle_bool threshold _); [|cbn; lia].
  rewrite List.length_map.
  destruct (slice0_length (buildMatchSpans fpDoc
              (winnow (readTextSafe fs (CorpusDocument.path_text c)) k w) k) 50) as (_ & H).
  lia.
Qed.

Lemma runPipeline_counts (fs : FileSystem) (k w : Z) (threshold : Q) (docText : string)
    (corpusRows : list CorpusDocument.t) (maxCandidates : Z) :
  (length (candidates (runPipeline fs k w threshold docText corpusRows maxCandidates))
   <= length corpusRows)%nat
  /\ (0 <= maxCandidates ->
      Z.of_nat (length (candidates (runPipeline fs k w threshold docText corpusRows
                                      maxCandidates))) <= maxCandidates)
  /\ (length (matchesToInsert (runPipeline fs k w threshold docText corpusRows maxCandidates))
      <= 50 * length (candidates (runPipeline fs k w threshold docText corpusRows
                                    maxCandidates)))%nat.
Proof.
  pose proof (runPipeline_matches fs k w threshold docText corpusRows maxCandidates) as Hms.
  cbn zeta in Hms. rewrite Hms. rewrite runPipeline_candidates.
  set (scored := sortBy approxAfter _).
  assert (Hs : (length scored <= length corpusRows)%nat).
  { unfold scored. rewrite sortBy_length. apply scoreCandidates_length. }
  destruct (slice0_length scored maxCandidates) as (H1 & H2).
  split; [lia|]. split; [exact H2|].
  apply flat_map_length_le. intros cand. apply candidateBlock_length.
Qed.

Lemma selectActiveCorpus_length (db : Database) :
  (length (selectActiveCorpus db) <= length (corpus_document db))%nat.
Proof. unfold selectActiveCorpus. rewrite sortBy_length. apply List.filter_length_le. Qed.

Lemma similarityPercent_zero : (similarityPercent 0 == 0)%Q.
Proof. vm_compute. reflexivity. Qed.

(** X24: the counts of a 201 response.  With a [max_candidates] that is
    not negative (10 when the body has none) there are at most
    [min(max_candidates, 50)] candidates, never more than there are corpus
    rows, at most 50 match rows per candidate, and the similarity is a
    percentage; a run without candidates (as on an empty corpus) inserts no
    match row and reports similarity 0. *)
Theorem postChecks_counts (now : Z) (fs : FileSystem) (db : Database)
    (user : Z) (ip : option string) (body : Body)
    (checkId resultId : Z) (similarity threshold : Q) (candidatesCount matchesInserted : Z) :
  fst (postChecks now fs db user ip body)
  = Json201 checkId resultId similarity threshold candidatesCount matchesInserted ->
  0 <= default 10 (body_max_candidates body) ->
  0 <= candidatesCount <= Z.min (default 10 (body_max_candidates body)) 50
  /\ candidatesCount <= Z.of_nat (length (corpus_document db))
  /\ 0 <= matchesInserted <= 50 * candidatesCount
  /\ (0 <= similarity)%Q /\ (similarity <= 100)%Q
  /\ (selectActiveCorpus db = [] -> candidatesCount = 0)
  /\ (candidatesCount = 0 ->
      matchesInserted = 0 /\ (similarity == 0)%Q
      /\ insertedMatches db (snd (postChecks now fs db user ip body)) = []).
Proof.
  intros Hresp Hmax.
  destruct (postChecks_outcome now fs db user ip body)
    as [Hr _
       |params doc docId checkId' _ _ _ Hr _ _ _ _ _ _ _ _
       |params doc docId checkId' resultId' rows Hreach Hbody Hr _ _ _ _ _ _ _ Hrows Hm _ _ _ _].
  - rewrite Hresp in Hr. destruct Hr as [Hr|[Hr|Hr]]; discriminate Hr.
  - rewrite Hresp in Hr. discriminate Hr.
  - rewrite Hresp in Hr. injection Hr as -> -> -> -> -> ->.
    unfold pipelineOf in *.
    set (k := AlgoritmaParams.k params) in *. set (w := AlgoritmaParams.w params) in *.
    set (thr := AlgoritmaParams.threshold params) in *.
    set (docText := readTextSafe fs (UserDocument.path_text doc)) in *.
    set (maxC := Z.min (default 10 (body_max_candidates body)) 50) in *.
    destruct (runPipeline_counts fs k w thr docText (selectActiveCorpus db) maxC)
      as (Hc1 & Hc2 & Hc3).
    destruct (runPipeline_best_bounds fs k w thr docText (selectActiveCorpus db) maxC)
      as (Hb0 & Hb1 & Hbz).
    set (p := runPipeline fs k w thr docText (selectActiveCorpus db) maxC) in *.
    pose proof (selectActiveCorpus_length db) as Hsel.
    destruct (similarityPercent_bounds (bestSim p) Hb0 Hb1) as (Hs0 & Hs1 & _).
    split; [split; [lia|apply Hc2; lia]|].
    split; [lia|]. split; [lia|]. split; [exact Hs0|]. split; [exact Hs1|]. split.
    + intros Hnone. rewrite Hnone in Hc1. cbn in Hc1. lia.
    + intros Hzero.
      assert (Hnil : candidates p = []) by (destruct (candidates p); [reflexivity|cbn in Hzero; lia]).
      pose proof (runPipeline_matches fs k w thr docText (selectActiveCorpus db) maxC) as Hms.
      cbn zeta in Hms. fold p in Hms. rewrite Hnil in Hms. cbn in Hms.
      split; [now rewrite Hms|]. split.
      * rewrite (Hbz Hnil). apply similarityPercent_zero.
      * unfold insertedMatches. rewrite Hrows, skipn_length_app.
        rewrite Hms in Hm. now destruct rows.
Qed.

Lemma postChecks_counts_witness :
  fst (postChecks 100 sampleFs sampleDb 7 None (sampleBody 1))
  = Json201 1 1 (10000 # 100)%Q (8 # 10)%Q 2 4
  /\ 0 <= default 10 (body_max_candidates (sampleBody 1))
  /\ 0 <= 2 <= Z.min (default 10 (body_max_candidates (sampleBody 1))) 50
  /\ 0 <= 4 <= 50 * 2.
Proof.
  assert (H : fst (postChecks 100 sampleFs sampleDb 7 None (sampleBody 1))
              = Json201 1 1 (10000 # 100)%Q (8 # 10)%Q 2 4)
    by (rewrite sample_run_eq; reflexivity).
  assert (Hmax : 0 <= default 10 (body_max_candidates (sampleBody 1))) by (cbn; lia).
  split; [exact H|]. split; [exact Hmax|].
  destruct (postChecks_counts 100 sampleFs sampleDb 7 None (sampleBody 1)
              1 1 (10000 # 100)%Q (8 # 10)%Q 2 4 H Hmax) as (Hc & _ & Hm & _).
  split; [exact Hc|exact Hm].
Defined.

(** ** A corpus text with the normal form of the document *)








(** ** The active parameters *)

Lemma activeAt_filter (now : Z) (p : AlgoritmaParams.t) :
  match AlgoritmaParams.active_to p with
  | None => true
  | Some t => bool_decide (now < t)
  end && bool_decide (AlgoritmaParams.active_from p <= now) = true
  <-> activeAt now p.
Proof.
  unfold activeAt. rewrite andb_true_iff, bool_decide_eq_true.
  destruct (AlgoritmaParams.active_to p) as [t|].
  - rewrite bool_decide_eq_true. split.
    + intros (H1 & H2). split; [exact H2|]. now intros ? [= <-].
    + intros (H1 & H2). split; [now apply H2|exact H1].
  - split; [intros (_ & H); split; [exact H|discriminate]|tauto].
Qed.

(** X26: [getActiveParams] returns a row that is active now and that no
    other active row precedes in the order of the query (later [active_from]
    first, then larger [id_params]); it returns nothing exactly when no row is
    active. *)
Theorem getActiveParams_latest_active (now : Z) (db : Database) :
  match getActiveParams now db with
  | Some p =>
      In p (algoritma_params db) /\ activeAt now p
      /\ forall q, In q (algoritma_params db) -> activeAt now q ->
           AlgoritmaParams.active_from q <= AlgoritmaParams.active_from p
           /\ (AlgoritmaParams.active_from q = AlgoritmaParams.active_from p ->
               AlgoritmaParams.id_params q <= AlgoritmaParams.id_params p)
  | None => forall q, In q (algoritma_params db) -> ~ activeAt now q
  end.
Proof.
  unfold getActiveParams.
  set (keep := fun p : AlgoritmaParams.t => _ && _).
  assert (Hkeep : forall p, keep p = true <-> activeAt now p) by (intros p; apply activeAt_filter).
  assert (Hsorted : StronglySorted (fun a b => paramsAfter a b = false)
                      (sortBy paramsAfter (List.filter keep (algoritma_params db)))).
  { apply sortBy_weakly_sorted.
    - unfold paramsAfter. intros x y H. apply orb_true_iff in H.
      apply orb_false_iff. rewrite andb_false_iff, !Z.ltb_ge, Z.eqb_neq.
      rewrite andb_true_iff, !Z.ltb_lt, Z.eqb_eq in H. lia.
    - unfold paramsAfter. intros x y z H1 H2.
      apply orb_false_iff in H1, H2. apply orb_false_iff.
      rewrite andb_false_iff, !Z.ltb_ge, Z.eqb_neq in *. lia. }
  pose proof (sortBy_In paramsAfter) as Hin.
  pose proof (sortBy_length paramsAfter (List.filter keep (algoritma_params db))) as Hlen.
  destruct (sortBy paramsAfter (List.filter keep (algoritma_params db))) as [|p rest] eqn:E;
    cbn [head].
  - intros q Hq Hact. apply Hkeep in Hact.
    assert (Hf : In q (List.filter keep (algoritma_params db))) by (apply List.filter_In; auto).
    destruct (List.filter keep (algoritma_params db)); [destruct Hf|discriminate Hlen].
  - assert (Hp : In p (List.filter keep (algoritma_params db))).
    { apply (Hin p). rewrite E. now left. }
    apply List.filter_In in Hp as (Hp & Hk). split; [exact Hp|]. split; [now apply Hkeep|].
    intros q Hq Hact.
    assert (Hq' : In q (p :: rest)).
    { rewrite <- E. apply (Hin q). apply List.filter_In. split; [exact Hq|now apply Hkeep]. }
    inversion Hsorted as [|? ? _ Hall]; subst.
    destruct Hq' as [<-|Hq']; [lia|].
    rewrite List.Forall_forall in Hall. specialize (Hall q Hq').
    unfold paramsAfter in Hall. apply orb_false_iff in Hall.
    rewrite andb_false_iff, !Z.ltb_ge, Z.eqb_neq in Hall. lia.
Qed.

(** ** The stored text: [normalizeTextBasic] *)



















Lemma trim_idem (s : string) : trim (trim s) = trim s.
Proof.
  unfold trim. rewrite (trimStart_fix (trimEnd (trimStart s))).
  - apply trimEnd_idem.
  - apply trimEnd_head, trimStart_head.
Qed.

(** X27: the text that the upload routes store has no whitespace at
    either end, so for [k >= 1] the "too short" guard of the check route is a
    plain test of its length. *)
Theorem normalizeTextBasic_trimmed (text : string) (k : Z) :
  1 <= k ->
  trim (normalizeTextBasic text) = normalizeTextBasic text
  /\ (tooShort (normalizeTextBasic text) k = true <-> strlen (normalizeTextBasic text) < k).
Proof.
  intros Hk.
  assert (Ht : trim (normalizeTextBasic text) = normalizeTextBasic text)
    by (unfold normalizeTextBasic; apply trim_idem).
  split; [exact Ht|]. now apply tooShort_trimmed.
Qed.

Lemma normalizeTextBasic_trimmed_witness :
  1 <= 5
  /\ trim (normalizeTextBasic "  Hello,  World!  ") = normalizeTextBasic "  Hello,  World!  "
  /\ (tooShort (normalizeTextBasic "  Hello,  World!  ") 5 = true
      <-> strlen (normalizeTextBasic "  Hello,  World!  ") < 5).
Proof.
  split; [lia|]. apply (normalizeTextBasic_trimmed "  Hello,  World!  " 5). lia.
Defined.


(** ** The detail route *)

Lemma matchAfter_true (x y : MatchView.t) :
  matchAfter x y = true
  <-> (CheckMatch.match_score (MatchView.row x) < CheckMatch.match_score (MatchView.row y))%Q
      \/ ((CheckMatch.match_score (MatchView.row x)
           == CheckMatch.match_score (MatchView.row y))%Q
          /\ CheckMatch.id_match (MatchView.row y) < CheckMatch.id_match (MatchView.row x)).
Proof.
  unfold matchAfter.
  destruct (Qlt_le_dec _ _) as [Hlt|Hle]; [tauto|].
  rewrite andb_true_iff, Qeq_bool_iff, Z.ltb_lt. split; [tauto|].
  intros [H|H]; [lra|exact H].
Qed.

Lemma matchAfter_false (x y : MatchView.t) : matchAfter x y = false <-> matchBefore x y.
Proof.
  unfold matchBefore. split.
  - intros Hf. split.
    + destruct (Qlt_le_dec (CheckMatch.match_score (MatchView.row x))
                  (CheckMatch.match_score (MatchView.row y))) as [Hlt|Hle]; [|exact Hle].
      assert (Ht : matchAfter x y = true) by (apply matchAfter_true; now left). congruence.
    + intros Heq.
      destruct (Z.le_gt_cases (CheckMatch.id_match (MatchView.row x))
                  (CheckMatch.id_match (MatchView.row y))) as [Hle|Hgt]; [exact Hle|].
      assert (Ht : matchAfter x y = true) by (apply matchAfter_true; right; split; [exact Heq|lia]).
      congruence.
  - intros (Hle & Hid). destruct (matchAfter x y) eqn:E; [|reflexivity].
    apply matchAfter_true in E as [Hlt|(Heq & Hlt)]; [lra|]. specialize (Hid Heq). lia.
Qed.

Lemma selectMatches_sorted (db : Database) (resultId : Z) :
  StronglySorted matchBefore (selectMatches db resultId).
Proof.
  unfold selectMatches.
  eapply StronglySorted_weaken; [|apply (sortBy_weakly_sorted matchAfter)].
  - intros a b H. now apply matchAfter_false.
  - intros x y H. apply matchAfter_true in H. apply matchAfter_false.
    unfold matchBefore.
    destruct H as [H|(H1 & H2)]; split.
    + lra.
    + intros Heq. exfalso. lra.
    + lra.
    + intros Heq. lia.
  - intros x y z H1 H2. apply matchAfter_false in H1, H2. apply matchAfter_false.
    destruct H1 as (H1 & H1'). destruct H2 as (H2 & H2'). split; [lra|].
    intros Heq.
    assert (E1 : (CheckMatch.match_score (MatchView.row x)
                  == CheckMatch.match_score (MatchView.row y))%Q) by lra.
    assert (E2 : (CheckMatch.match_score (MatchView.row y)
                  == CheckMatch.match_score (MatchView.row z))%Q) by lra.
    specialize (H1' E1). specialize (H2' E2). lia.
Qed.

Lemma joinCorpus_row (db : Database) (cm : CheckMatch.t) (m : MatchView.t) :
  In m (joinCorpus db cm) -> MatchView.row m = cm.
Proof.
  unfold joinCorpus. destruct (List.filter _ (corpus_document db)) as [|cd cds].
  - intros [<-|[]]. reflexivity.
  - intros H. apply in_map_iff in H as (cd' & <- & _). reflexivity.
Qed.

Lemma selectMatches_rows (db : Database) (resultId : Z) (m : MatchView.t) :
  In m (selectMatches db resultId) ->
  In (MatchView.row m) (check_match db) /\ CheckMatch.result_id (MatchView.row m) = resultId.
Proof.
  unfold selectMatches. intros H. apply sortBy_In, in_flat_map in H as (cm & Hcm & Hm).
  apply joinCorpus_row in Hm. subst cm.
  apply List.filter_In in Hcm as (Hin & E). split; [exact Hin|lia].
Qed.

Lemma slice_prefix_length (t : string) (n : Z) :
  0 <= n -> strlen (slice t 0 n) = Z.min n (strlen t).
Proof.
  intros Hn. unfold slice.
  assert (Hlen : 0 <= strlen t) by (unfold strlen; lia).
  change (0 <? 0) with false. cbv iota.
  destruct (Z.ltb_spec n 0); [lia|].
  replace (Z.min 0 (strlen t)) with 0 by lia.
  set (m := Z.to_nat (Z.max (Z.min n (strlen t) - 0) 0)).
  assert (Hm : Z.of_nat m = Z.min n (strlen t)) by (unfold m; lia).
  unfold strlen at 1. rewrite substring_length; [exact Hm|].
  unfold strlen in *. cbn. lia.
Qed.

(** X29: [GET /api/checks/:id] answers 200 only with a check that the
    caller requested; the result it shows belongs to that check, the matches
    to that result, in descending [match_score] and then ascending [id_match]
    order, and the preview is the first 8000 characters of the stored text,
    left out when [preview=0].  It answers 404 when the caller has no check
    with that key whose document still exists. *)
Theorem getCheck_detail (fs : FileSystem) (db : Database) (user : Z) (id : option Z)
    (preview : option string) :
  match getCheck fs db user id preview with
  | Detail200 check result matches doc_preview_text =>
      In (CheckView.request check) (check_request db)
      /\ id = Some (CheckRequest.id_check (CheckView.request check))
      /\ CheckRequest.requested_by (CheckView.request check) = user
      /\ (exists ud, In ud (user_document db)
                     /\ UserDocument.id_doc ud = CheckRequest.doc_id (CheckView.request check)
                     /\ CheckView.doc_title check = UserDocument.title ud
                     /\ CheckView.path_text check = UserDocument.path_text ud)
      /\ match result with
         | Some r =>
             (exists r0, In r0 (check_result db) /\ r = resultView r0
                         /\ CheckResult.check_id r0
                            = CheckRequest.id_check (CheckView.request check))
             /\ Forall (fun m => In (MatchView.row m) (check_match db)
                                 /\ CheckMatch.result_id (MatchView.row m)
                                    = ResultView.id_result r) matches
         | None =>
             matches = []
             /\ forall r0, In r0 (check_result db) -> Some (CheckResult.check_id r0) <> id
         end
      /\ StronglySorted matchBefore matches
      /\ match doc_preview_text with
         | Some p =>
             preview <> Some "0"
             /\ exists path, CheckView.path_text check = Some path
                  /\ p = slice (readTextSafe fs (Some path)) 0 8000
                  /\ strlen p = Z.min 8000 (strlen (readTextSafe fs (Some path)))
         | None => True
         end
  | Detail404 _ =>
      forall cr ud, In cr (check_request db) -> In ud (user_document db) ->
        id = Some (CheckRequest.id_check cr) -> CheckRequest.requested_by cr = user ->
        UserDocument.id_doc ud <> CheckRequest.doc_id cr
  | Detail400 _ => forall z, id = Some z -> z <= 0
  end.
Proof.
  unfold getCheck. destruct id as [id|]; [|discriminate].
  destruct (Z.leb_spec id 0) as [Hle|Hpos]; [now intros z [= <-]|].
  destruct (head (selectCheck db id user)) as [check|] eqn:Hcheck.
  - assert (Hin : In check (selectCheck db id user))
      by (destruct (selectCheck db id user); [discriminate|injection Hcheck as <-; now left]).
    unfold selectCheck in Hin. apply in_flat_map in Hin as (cr & Hcr & Hin).
    apply in_map_iff in Hin as (ud & <- & Hud).
    apply List.filter_In in Hcr as (Hcr & E). apply andb_true_iff in E as (E1 & E2).
    apply Z.eqb_eq in E1, E2. apply List.filter_In in Hud as (Hud & E3). apply Z.eqb_eq in E3.
    cbn [CheckView.request CheckView.doc_title CheckView.path_text].
    split; [exact Hcr|]. split; [now rewrite E1|]. split; [exact E2|].
    split; [exists ud; auto|]. split; [|split].
    + destruct (head (selectResult db id)) as [r|] eqn:Hres.
      * assert (Hr : In r (selectResult db id))
          by (destruct (selectResult db id); [discriminate|injection Hres as <-; now left]).
        unfold selectResult in Hr. apply in_map_iff in Hr as (r0 & <- & Hr0).
        apply List.filter_In in Hr0 as (Hr0 & E4). apply Z.eqb_eq in E4.
        split; [exists r0; repeat split; [exact Hr0|lia]|].
        destruct (ResultView.id_result (resultView r0) =? 0); [constructor|].
        apply List.Forall_forall. intros m Hm. now apply selectMatches_rows.
      * split; [reflexivity|]. intros r0 Hr0 [= E4].
        unfold selectResult in Hres.
        assert (Hf : In r0 (List.filter (fun r => CheckResult.check_id r =? id) (check_result db)))
          by (apply List.filter_In; split; [exact Hr0|lia]).
        destruct (List.filter _ (check_result db)); [destruct Hf|discriminate Hres].
    + destruct (head (selectResult db id)) as [r|]; [|constructor].
      destruct (ResultView.id_result r =? 0); [constructor|apply selectMatches_sorted].
    + destruct (UserDocument.path_text ud) as [p|]; [|exact I].
      destruct (negb (bool_decide (preview = Some "0"))) eqn:Ep; cbn [andb]; [|exact I].
      destruct (negb (String.eqb p "")); [|exact I].
      split.
      * intros ->. rewrite bool_decide_eq_true_2 in Ep by reflexivity. discriminate Ep.
      * exists p. split; [reflexivity|]. split; [reflexivity|].
        now apply slice_prefix_length.
  - intros cr ud Hcr Hud [= ->] Hu Hd.
    assert (Hin : In {| CheckView.request := cr;
                        CheckView.doc_title := UserDocument.title ud;
                        CheckView.path_text := UserDocument.path_text ud |}
                     (selectCheck db (CheckRequest.id_check cr) user)).
    { unfold selectCheck. apply in_flat_map. exists cr. split.
      - apply List.filter_In. split; [exact Hcr|].
        apply andb_true_iff. split; apply Z.eqb_eq; [reflexivity|exact Hu].
      - apply in_map_iff. exists ud. split; [reflexivity|].
        apply List.filter_In. split; [exact Hud|]. now apply Z.eqb_eq. }
    destruct (selectCheck db (CheckRequest.id_check cr) user); [destruct Hin|discriminate Hcheck].
Qed.

Lemma insertId_pos (ids : list Z) : 0 < insertId ids.
Proof.
  unfold insertId. assert (0 <= fold_right Z.max 0 ids); [|lia].
  induction ids as [|x ids IH]; cbn; lia.
Qed.

Lemma filter_none {A} (f : A -> bool) (l : list A) :
  (forall x, In x l -> f x = false) -> List.filter f l = [].
Proof.
  induction l as [|x l IH]; intros H; cbn; [reflexivity|].
  rewrite (H x) by now left. apply IH. intros y Hy. apply H. now right.
Qed.

Lemma filter_all {A} (f : A -> bool) (l : list A) :
  Forall (fun x => f x = true) l -> List.filter f l = l.
Proof. induction 1 as [|x l Hx Hl IH]; cbn; [reflexivity|]. now rewrite Hx, IH. Qed.

Lemma filter_key_unique {A} (key : A -> Z) (v : Z) (l : list A) :
  List.NoDup (map key l) -> (length (List.filter (fun x => Z.eqb (key x) v) l) <= 1)%nat.
Proof.
  induction l as [|x l IH]; cbn; [lia|].
  intros Hnd. apply List.NoDup_cons_iff in Hnd as (Hx & Hnd). specialize (IH Hnd).
  destruct (Z.eqb_spec (key x) v) as [E|_]; [|exact IH].
  rewrite filter_none; [cbn; lia|].
  intros y Hy. apply Z.eqb_neq. intros Ey. apply Hx. rewrite E, <- Ey. now apply in_map.
Qed.

Lemma joinCorpus_rows (db : Database) (rows : list CheckMatch.t) :
  List.NoDup (map CorpusDocument.id_corpus (corpus_document db)) ->
  map MatchView.row (flat_map (joinCorpus db) rows) = rows.
Proof.
  intros Hnd. induction rows as [|cm rows IH]; cbn [flat_map]; [reflexivity|].
  rewrite List.map_app, IH. unfold joinCorpus.
  pose proof (filter_key_unique CorpusDocument.id_corpus (CheckMatch.source_id cm)
                (corpus_document db) Hnd) as Hlen.
  destruct (List.filter _ (corpus_document db)) as [|cd [|cd' cds]]; [reflexivity..|].
  cbn in Hlen. lia.
Qed.

(** X30: a completed check can be read back.  After a 201 response, on a
    database whose results and matches point to existing rows and whose
    corpus keys are unique, [GET /api/checks/:id] with the returned
    [check_id] answers 200 to the same caller with the request marked [done],
    the result of the returned [result_id] and similarity, and exactly the
    match rows that the check inserted. *)
Theorem postChecks_then_getCheck (now : Z) (fs : FileSystem) (db : Database)
    (user : Z) (ip : option string) (body : Body) (preview : option string)
    (checkId resultId : Z) (similarity threshold : Q) (candidatesCount matchesInserted : Z) :
  fst (postChecks now fs db user ip body)
  = Json201 checkId resultId similarity threshold candidatesCount matchesInserted ->
  (forall r, In r (check_result db) ->
             In (CheckResult.check_id r) (map CheckRequest.id_check (check_request db))) ->
  (forall m, In m (check_match db) ->
             In (CheckMatch.result_id m) (map CheckResult.id_result (check_result db))) ->
  List.NoDup (map CorpusDocument.id_corpus (corpus_document db)) ->
  exists check res matches doc_preview_text,
    getCheck fs (snd (postChecks now fs db user ip body)) user (Some checkId) preview
    = Detail200 check (Some res) matches doc_preview_text
    /\ CheckRequest.id_check (CheckView.request check) = checkId
    /\ CheckRequest.status (CheckView.request check) = done
    /\ ResultView.id_result res = resultId
    /\ ResultView.similarity res = similarity
    /\ Permutation (map MatchView.row matches)
         (insertedMatches db (snd (postChecks now fs db user ip body)))
    /\ Z.of_nat (length matches) = matchesInserted.
Proof.
  intros Hresp Hfk1 Hfk2 Hnd.
  destruct (postChecks_outcome now fs db user ip body)
    as [Hr _
       |params doc docId checkId' _ _ _ Hr _ _ _ _ _ _ _ _
       |params doc docId checkId' resultId' rows Hreach Hbody Hr Hcid Hrid
          _ Husr Hcorpus Hreq Hres Hrows Hm Hall _ _ _].
  - rewrite Hresp in Hr. destruct Hr as [Hr|[Hr|Hr]]; discriminate Hr.
  - rewrite Hresp in Hr. discriminate Hr.
  - rewrite Hresp in Hr. injection Hr as <- <- -> -> -> ->.
    set (db' := snd (postChecks now fs db user ip body)) in *.
    set (p := pipelineOf fs db body params doc) in *.
    destruct Hreach as (Hload & _).
    pose proof (reachesTextLoad_owner _ _ _ _ _ _ Hload) as (Hdoc & Hid & _).
    rewrite Hbody in Hid. injection Hid as Hid.
    set (new := finishedRequest checkId user docId (AlgoritmaParams.id_params params) done now)
      in *.
    assert (Hcheck : exists ud, head (selectCheck db' checkId user)
                                = Some {| CheckView.request := new;
                                          CheckView.doc_title := UserDocument.title ud;
                                          CheckView.path_text := UserDocument.path_text ud |}).
    { unfold selectCheck. rewrite Hreq, Husr, List.filter_app.
      rewrite (filter_none _ (check_request db)).
      - cbn [List.filter app new finishedRequest CheckRequest.id_check
             CheckRequest.requested_by CheckRequest.doc_id].
        rewrite !Z.eqb_refl. cbn [andb flat_map]. rewrite List.app_nil_r.
        assert (Hf : In doc (List.filter (fun ud => UserDocument.id_doc ud =? docId)
                                         (user_document db)))
          by (apply List.filter_In; split; [exact Hdoc|lia]).
        destruct (List.filter _ (user_document db)) as [|ud uds]; [destruct Hf|].
        exists ud. reflexivity.
      - intros cr Hcr. apply andb_false_iff. left. apply Z.eqb_neq.
        pose proof (insertId_fresh (map CheckRequest.id_check (check_request db))
                      (CheckRequest.id_check cr) (in_map _ _ _ Hcr)). lia. }
    destruct Hcheck as (ud & Hcheck).
    assert (Hresult : selectResult db' checkId
                      = [resultView
                           {| CheckResult.id_result := resultId;
                              CheckResult.check_id := checkId;
                              CheckResult.similarity := similarityPercent (bestSim p);
                              CheckResult.report_path := None;
                              CheckResult.summary_json := summaryOf params p;
                              CheckResult.created_at := now |}]).
    { unfold selectResult. rewrite Hres, List.filter_app.
      rewrite (filter_none _ (check_result db)).
      - cbn [List.filter app CheckResult.check_id]. rewrite Z.eqb_refl. reflexivity.
      - intros r Hr. apply Z.eqb_neq.
        pose proof (insertId_fresh _ _ (Hfk1 r Hr)). lia. }
    assert (Hmatches : exists ms, selectMatches db' resultId = ms
                                  /\ Permutation (map MatchView.row ms) rows).
    { eexists. split; [reflexivity|]. unfold selectMatches.
      rewrite (sortBy_Permutation matchAfter).
      rewrite Hrows, List.filter_app. rewrite (filter_none _ (check_match db)).
      - rewrite filter_all.
        + cbn [app]. rewrite joinCorpus_rows; [reflexivity|]. now rewrite Hcorpus.
        + eapply List.Forall_impl; [|exact Hall]. cbn. intros m ->. apply Z.eqb_refl.
      - intros m Hm0. apply Z.eqb_neq.
        pose proof (insertId_fresh _ _ (Hfk2 m Hm0)). lia. }
    destruct Hmatches as (ms & Hms & Hperm).
    pose proof (insertId_pos (map CheckRequest.id_check (check_request db))) as Hcpos.
    pose proof (insertId_pos (map CheckResult.id_result (check_result db))) as Hrpos.
    unfold getCheck. destruct (Z.leb_spec checkId 0) as [?|_]; [lia|].
    rewrite Hcheck, Hresult.
    cbn [head resultView ResultView.id_result CheckResult.id_result].
    destruct (Z.eqb_spec resultId 0) as [?|_]; [lia|].
    rewrite Hms. do 4 eexists. split; [reflexivity|].
    cbn [CheckView.request ResultView.id_result ResultView.similarity].
    repeat split.
    + unfold insertedMatches. rewrite Hrows, skipn_length_app. exact Hperm.
    + apply Permutation_length in Hperm. rewrite List.length_map in Hperm.
      rewrite Hperm, <- Hm, List.length_map. reflexivity.
Qed.

Lemma postChecks_then_getCheck_witness :
  fst (postChecks 100 sampleFs sampleDb 7 None (sampleBody 1))
  = Json201 1 1 (10000 # 100)%Q (8 # 10)%Q 2 4
  /\ (forall r, In r (check_result sampleDb) ->
                In (CheckResult.check_id r)
                   (map CheckRequest.id_check (check_request sampleDb)))
  /\ (forall m, In m (check_match sampleDb) ->
                In (CheckMatch.result_id m)
                   (map CheckResult.id_result (check_result sampleDb)))
  /\ List.NoDup (map CorpusDocument.id_corpus (corpus_document sampleDb))
  /\ exists check res matches doc_preview_text,
       getCheck sampleFs (snd (postChecks 100 sampleFs sampleDb 7 None (sampleBody 1))) 7
         (Some 1) None
       = Detail200 check (Some res) matches doc_preview_text
       /\ Z.of_nat (length matches) = 4.
Proof.
  assert (H : fst (postChecks 100 sampleFs sampleDb 7 None (sampleBody 1))
              = Json201 1 1 (10000 # 100)%Q (8 # 10)%Q 2 4)
    by (rewrite sample_run_eq; reflexivity).
  assert (H1 : forall r, In r (check_result sampleDb) ->
                 In (CheckResult.check_id r)
                    (map CheckRequest.id_check (check_request sampleDb)))
    by (intros r []).
  assert (H2 : forall m, In m (check_match sampleDb) ->
                 In (CheckMatch.result_id m)
                    (map CheckResult.id_result (check_result sampleDb)))
    by (intros m []).
  assert (H3 : List.NoDup (map CorpusDocument.id_corpus (corpus_document sampleDb))).
  { cbn. repeat constructor; cbn; intuition discriminate. }
  split; [exact H|]. split; [exact H1|]. split; [exact H2|]. split; [exact H3|].
  destruct (postChecks_then_getCheck 100 sampleFs sampleDb 7 None (sampleBody 1) None
              1 1 (10000 # 100)%Q (8 # 10)%Q 2 4 H H1 H2 H3)
    as (check & res & matches & pv & E & _ & _ & _ & _ & _ & Hlen).
  exists check, res, matches, pv. split; [exact E|exact Hlen].
Defined.
